(** * Who Lies Tonight: the room engine, embedded and verified

    A shallow embedding of the server-side game engine
    (gameState.ts, gameLogic.ts, roomManager.ts, server.ts): the data
    model, the pure resolvers, and the socket handlers with their timers as
    an explicit state-passing machine.  Theorems about the embedding follow
    the definitions. *)

From Stdlib Require Import String Ascii ZArith Bool Arith Lia Permutation List.
Import ListNotations.
Local Open Scope string_scope.
Local Open Scope nat_scope.
Local Open Scope list_scope.

(* ================================================================== *)
(** * JavaScript collections *)
(* ================================================================== *)

(** Keys of a JS [Map]: compared with SameValueZero, which on strings (and on
    [undefined]) is plain equality. *)
Class Key (K : Type) := { keyb : K -> K -> bool }.

Class KeyLaws (K : Type) `{Key K} :=
  { keyb_spec : forall a b : K, reflect (a = b) (keyb a b) }.

#[export] Instance string_Key : Key string := {| keyb := String.eqb |}.

(** A key that may be [undefined] (an array read past the end). *)
#[export] Instance undef_Key {K : Type} `{Key K} : Key (option K) :=
  {| keyb := fun a b =>
       match a, b with
       | Some x, Some y => keyb x y
       | None, None => true
       | _, _ => false
       end |}.

(** A JS [Map]: entries in insertion order, one entry per key.  [set] on a key
    already present replaces the value where it stands; [delete] drops the
    entry. *)
Module JsMap.
Section Ops.
Context {K V : Type} `{Key K}.

Fixpoint get (k : K) (m : list (K * V)) : option V :=
  match m with
  | [] => None
  | (k', v) :: m' => if keyb k k' then Some v else get k m'
  end.

Definition has (k : K) (m : list (K * V)) : bool :=
  match get k m with Some _ => true | None => false end.

Fixpoint set (k : K) (v : V) (m : list (K * V)) : list (K * V) :=
  match m with
  | [] => [(k, v)]
  | (k', v') :: m' =>
      if keyb k k' then (k, v) :: m' else (k', v') :: set k v m'
  end.

Fixpoint delete (k : K) (m : list (K * V)) : list (K * V) :=
  match m with
  | [] => []
  | (k', v') :: m' =>
      if keyb k k' then m' else (k', v') :: delete k m'
  end.

Definition keys (m : list (K * V)) : list K := map fst m.
Definition values (m : list (K * V)) : list V := map snd m.
Definition size (m : list (K * V)) : nat := length m.
End Ops.
End JsMap.

Definition Map (V : Type) : Type := list (string * V).

(** A JS [Set] of strings. *)
Definition set_has (x : string) (s : list string) : bool :=
  existsb (String.eqb x) s.

Definition set_add (x : string) (s : list string) : list string :=
  if set_has x s then s else s ++ [x].

(** A plain object created by [{}] and filled by assignments [o[k] = v] of
    values that are no objects (numbers and strings).  The own properties are
    kept in the order in which [Object.keys], [Object.values] and
    [Object.entries] list them: first the keys that are array indices, in
    ascending numeric order, then the other keys in the order of their
    creation.  A read [o[k]] of a key that is no own property goes on to
    [Object.prototype]. *)
Module JsObject.

Definition digitOf (c : ascii) : option N :=
  let n := N_of_ascii c in
  if (48 <=? n)%N && (n <=? 57)%N then Some (n - 48)%N else None.

Fixpoint digitsValue (acc : N) (l : list ascii) : option N :=
  match l with
  | [] => Some acc
  | c :: l' =>
      match digitOf c with
      | Some d => digitsValue (10 * acc + d)%N l'
      | None => None
      end
  end.

(** A key is an array index when it is the canonical decimal form (no sign,
    no leading zero) of an integer from 0 to [2^32 - 2]. *)
Definition arrayIndex (k : string) : option N :=
  match list_ascii_of_string k with
  | [] => None
  | c :: l =>
      if (N_of_ascii c =? 48)%N && (0 <? length l) then None
      else
        match digitsValue 0%N (c :: l) with
        | Some n => if (n <? 4294967295)%N then Some n else None
        | None => None
        end
  end.

(** The properties of [Object.prototype] that hold a function. *)
Definition prototypeMethods : list string :=
  [ "constructor"; "__defineGetter__"; "__defineSetter__"; "hasOwnProperty";
    "__lookupGetter__"; "__lookupSetter__"; "isPrototypeOf";
    "propertyIsEnumerable"; "toString"; "valueOf"; "toLocaleString" ].

(** What a read [o[k]] finds: an own property with its value; or, the key
    being no own property, what [Object.prototype] holds under it (one of its
    functions, or under ["__proto__"] the prototype itself); or
    [undefined]. *)
Inductive Read (V : Type) :=
| Own (v : V)
| Inherited
| Undefined.

Arguments Own {V} v.
Arguments Inherited {V}.
Arguments Undefined {V}.

Section Ops.
Context {V : Type}.

Definition get (k : string) (o : list (string * V)) : Read V :=
  match JsMap.get k o with
  | Some v => Own v
  | None =>
      if set_has k prototypeMethods || String.eqb k "__proto__"
      then Inherited else Undefined
  end.

(** Where a new array-index key goes: before the first key that is no array
    index, or a larger one. *)
Fixpoint insertIndex (i : N) (k : string) (v : V) (o : list (string * V))
    : list (string * V) :=
  match o with
  | [] => [(k, v)]
  | (k', v') :: o' =>
      match arrayIndex k' with
      | Some j =>
          if (j <? i)%N then (k', v') :: insertIndex i k v o'
          else (k, v) :: (k', v') :: o'
      | None => (k, v) :: (k', v') :: o'
      end
  end.

(** [o[k] = v] for a [v] that is no object: an own property is overwritten
    where it stands; otherwise the property is created, except under
    ["__proto__"], where the setter of [Object.prototype] ignores such a
    value. *)
Definition set (k : string) (v : V) (o : list (string * V)) : list (string * V) :=
  if JsMap.has k o then JsMap.set k v o
  else if String.eqb k "__proto__" then o
  else
    match arrayIndex k with
    | Some i => insertIndex i k v o
    | None => o ++ [(k, v)]
    end.
End Ops.

(** A key on which a plain object behaves like a [Map]: no array index, and
    no property of [Object.prototype].  The ids socket.io hands out (20
    characters) are no array indices. *)
Definition plainKey (k : string) : bool :=
  match arrayIndex k with Some _ => false | None => true end
  && negb (set_has k prototypeMethods)
  && negb (String.eqb k "__proto__").
End JsObject.

(** JS truthiness of a [string | null] value: [null] and the empty string are
    falsy. *)
Definition truthy (o : option string) : bool :=
  match o with
  | Some s => negb (String.eqb s "")
  | None => false
  end.

(** JS truthiness of a [number | null] value: [null] and [0] are falsy. *)
Definition truthyZ (o : option Z) : bool :=
  match o with
  | Some z => negb (Z.eqb z 0)
  | None => false
  end.

(* ================================================================== *)
(** * gameState.ts: the data model *)
(* ================================================================== *)

Inductive Role := mafia | doctor | detective | citizen.
Inductive Phase := lobby | night | day | vote | ended.
Inductive CutsceneVariant := back_alley | rooftop | car_ambush | neon_club.
Inductive NightOutcome := outcome_killed | outcome_saved | outcome_no_kill.

Definition Role_eqb (a b : Role) : bool :=
  match a, b with
  | mafia, mafia | doctor, doctor | detective, detective | citizen, citizen => true
  | _, _ => false
  end.

Definition Phase_eqb (a b : Phase) : bool :=
  match a, b with
  | lobby, lobby | night, night | day, day | vote, vote | ended, ended => true
  | _, _ => false
  end.

(** [Avatar] is an opaque reference (a URL). *)
Definition Avatar := string.

Record Player := mkPlayer
  { id : string;
    sessionId : string;
    name : string;
    avatar : Avatar;
    role : Role;
    alive : bool;
    connected : bool;
    disconnectedAt : option Z;
    chatCount : Z;
    chatWindowStart : Z }.

Record MafiaVote := mkMafiaVote { voterId : string; targetId : string }.

(** A timer handle, as returned by [setTimeout]. *)
Definition TimerId := nat.

Record Room := mkRoom
  { code : string;
    hostId : string;
    players : Map Player;
    phase : Phase;
    round : Z;
    mafiaVotes : list MafiaVote;
    doctorSave : option string;
    detectiveTarget : option string;
    votes : Map string;
    timer : option TimerId;
    lastActivity : Z;
    nightActionsSubmitted : list string;
    started : bool;
    gameStartedAt : option Z }.

(** Field assignments ([p.alive = false], [room.phase = 'night'], ...). *)
Definition set_id (v : string) (p : Player) : Player :=
  mkPlayer v (sessionId p) (name p) (avatar p) (role p) (alive p) (connected p)
           (disconnectedAt p) (chatCount p) (chatWindowStart p).
Definition set_role (v : Role) (p : Player) : Player :=
  mkPlayer (id p) (sessionId p) (name p) (avatar p) v (alive p) (connected p)
           (disconnectedAt p) (chatCount p) (chatWindowStart p).
Definition set_alive (v : bool) (p : Player) : Player :=
  mkPlayer (id p) (sessionId p) (name p) (avatar p) (role p) v (connected p)
           (disconnectedAt p) (chatCount p) (chatWindowStart p).
Definition set_connected (v : bool) (p : Player) : Player :=
  mkPlayer (id p) (sessionId p) (name p) (avatar p) (role p) (alive p) v
           (disconnectedAt p) (chatCount p) (chatWindowStart p).
Definition set_disconnectedAt (v : option Z) (p : Player) : Player :=
  mkPlayer (id p) (sessionId p) (name p) (avatar p) (role p) (alive p) (connected p)
           v (chatCount p) (chatWindowStart p).
Definition set_chatCount (v : Z) (p : Player) : Player :=
  mkPlayer (id p) (sessionId p) (name p) (avatar p) (role p) (alive p) (connected p)
           (disconnectedAt p) v (chatWindowStart p).
Definition set_chatWindowStart (v : Z) (p : Player) : Player :=
  mkPlayer (id p) (sessionId p) (name p) (avatar p) (role p) (alive p) (connected p)
           (disconnectedAt p) (chatCount p) v.

Definition set_hostId (v : string) (r : Room) : Room :=
  mkRoom (code r) v (players r) (phase r) (round r) (mafiaVotes r) (doctorSave r)
         (detectiveTarget r) (votes r) (timer r) (lastActivity r)
         (nightActionsSubmitted r) (started r) (gameStartedAt r).
Definition set_players (v : Map Player) (r : Room) : Room :=
  mkRoom (code r) (hostId r) v (phase r) (round r) (mafiaVotes r) (doctorSave r)
         (detectiveTarget r) (votes r) (timer r) (lastActivity r)
         (nightActionsSubmitted r) (started r) (gameStartedAt r).
Definition set_phase (v : Phase) (r : Room) : Room :=
  mkRoom (code r) (hostId r) (players r) v (round r) (mafiaVotes r) (doctorSave r)
         (detectiveTarget r) (votes r) (timer r) (lastActivity r)
         (nightActionsSubmitted r) (started r) (gameStartedAt r).
Definition set_round (v : Z) (r : Room) : Room :=
  mkRoom (code r) (hostId r) (players r) (phase r) v (mafiaVotes r) (doctorSave r)
         (detectiveTarget r) (votes r) (timer r) (lastActivity r)
         (nightActionsSubmitted r) (started r) (gameStartedAt r).
Definition set_mafiaVotes (v : list MafiaVote) (r : Room) : Room :=
  mkRoom (code r) (hostId r) (players r) (phase r) (round r) v (doctorSave r)
         (detectiveTarget r) (votes r) (timer r) (lastActivity r)
         (nightActionsSubmitted r) (started r) (gameStartedAt r).
Definition set_doctorSave (v : option string) (r : Room) : Room :=
  mkRoom (code r) (hostId r) (players r) (phase r) (round r) (mafiaVotes r) v
         (detectiveTarget r) (votes r) (timer r) (lastActivity r)
         (nightActionsSubmitted r) (started r) (gameStartedAt r).
Definition set_detectiveTarget (v : option string) (r : Room) : Room :=
  mkRoom (code r) (hostId r) (players r) (phase r) (round r) (mafiaVotes r)
         (doctorSave r) v (votes r) (timer r) (lastActivity r)
         (nightActionsSubmitted r) (started r) (gameStartedAt r).
Definition set_votes (v : Map string) (r : Room) : Room :=
  mkRoom (code r) (hostId r) (players r) (phase r) (round r) (mafiaVotes r)
         (doctorSave r) (detectiveTarget r) v (timer r) (lastActivity r)
         (nightActionsSubmitted r) (started r) (gameStartedAt r).
Definition set_timer (v : option TimerId) (r : Room) : Room :=
  mkRoom (code r) (hostId r) (players r) (phase r) (round r) (mafiaVotes r)
         (doctorSave r) (detectiveTarget r) (votes r) v (lastActivity r)
         (nightActionsSubmitted r) (started r) (gameStartedAt r).
Definition set_lastActivity (v : Z) (r : Room) : Room :=
  mkRoom (code r) (hostId r) (players r) (phase r) (round r) (mafiaVotes r)
         (doctorSave r) (detectiveTarget r) (votes r) (timer r) v
         (nightActionsSubmitted r) (started r) (gameStartedAt r).
Definition set_nightActionsSubmitted (v : list string) (r : Room) : Room :=
  mkRoom (code r) (hostId r) (players r) (phase r) (round r) (mafiaVotes r)
         (doctorSave r) (detectiveTarget r) (votes r) (timer r) (lastActivity r)
         v (started r) (gameStartedAt r).
Definition set_started (v : bool) (r : Room) : Room :=
  mkRoom (code r) (hostId r) (players r) (phase r) (round r) (mafiaVotes r)
         (doctorSave r) (detectiveTarget r) (votes r) (timer r) (lastActivity r)
         (nightActionsSubmitted r) v (gameStartedAt r).
Definition set_gameStartedAt (v : option Z) (r : Room) : Room :=
  mkRoom (code r) (hostId r) (players r) (phase r) (round r) (mafiaVotes r)
         (doctorSave r) (detectiveTarget r) (votes r) (timer r) (lastActivity r)
         (nightActionsSubmitted r) (started r) v.

(** Mutating a player object that sits in [room.players] under key [k]
    ([target.alive = false] after [target = room.players.get(k)]). *)
Definition updPlayer (k : string) (f : Player -> Player) (r : Room) : Room :=
  match JsMap.get k (players r) with
  | Some p => set_players (JsMap.set k (f p) (players r)) r
  | None => r
  end.

(* ================================================================== *)
(** * gameLogic.ts *)
(* ================================================================== *)

Definition MIN_PLAYERS : nat := 4.
Definition MAX_PLAYERS : nat := 12.
Definition NIGHT_DURATION_MS : Z := 60000.
Definition DAY_DISCUSS_MS : Z := 90000.
Definition VOTE_DURATION_MS : Z := 30000.

(** ** Role assignment *)

(** [Math.max(1, Math.floor(n * 0.33))].  The double nearest to 0.33 lies
    above 33/100 by less than 2e-17, and the fractional part of [n * 33 / 100]
    is a multiple of 1/100, so for every array length the floor of the
    floating-point product is the integer quotient [n * 33 / 100]. *)
Definition mafiaCountOf (n : nat) : nat := Nat.max 1 (n * 33 / 100).

(** [for (let i = 0; i < mafiaCount; i++) roleMap.set(shuffled[idx++], 'mafia')]:
    [i] counts the iterations left; the loop does not test [idx < n], so a read
    past the end of [shuffled] sets the key [undefined] ([None]). *)
Fixpoint assignMafia (shuffled : list string) (i idx : nat)
    (roleMap : list (option string * Role)) : nat * list (option string * Role) :=
  match i with
  | 0 => (idx, roleMap)
  | S i' =>
      assignMafia shuffled i' (S idx)
        (JsMap.set (nth_error shuffled idx) mafia roleMap)
  end.

(** [while (idx < n) roleMap.set(shuffled[idx++], 'citizen')], with the
    [n - idx] iterations it can make as fuel. *)
Fixpoint assignCitizens (shuffled : list string) (n fuel idx : nat)
    (roleMap : list (option string * Role)) : list (option string * Role) :=
  match fuel with
  | 0 => roleMap
  | S fuel' =>
      if idx <? n
      then assignCitizens shuffled n fuel' (S idx)
             (JsMap.set (nth_error shuffled idx) citizen roleMap)
      else roleMap
  end.

(** [assignRoles(playerIds)].  [shuffled] stands for
    [[...playerIds].sort(() => Math.random() - 0.5)]: the order the random
    comparator produced, a rearrangement of [playerIds]. *)
Definition assignRoles (playerIds shuffled : list string)
    : list (option string * Role) :=
  let n := length playerIds in
  let mafiaCount := mafiaCountOf n in
  let hasDetective := 4 <? n in
  let hasDoctor := true in
  let '(idx, roleMap) := assignMafia shuffled mafiaCount 0 [] in
  let '(idx, roleMap) :=
    if hasDoctor && (idx <? n)
    then (S idx, JsMap.set (nth_error shuffled idx) doctor roleMap)
    else (idx, roleMap) in
  let '(idx, roleMap) :=
    if hasDetective && (idx <? n)
    then (S idx, JsMap.set (nth_error shuffled idx) detective roleMap)
    else (idx, roleMap) in
  assignCitizens shuffled n (n - idx) idx roleMap.

(** ** Night resolution *)

Record NightResolutionResult := mkNightResult
  { killedPlayerId : option string;
    saved : bool;
    outcome : NightOutcome;
    cutsceneVariant : option CutsceneVariant }.

(** The two [Math.random()] draws a night resolution can make, each already
    scaled and floored by the caller's array length: entry [k] of an array of
    length [len] is [k mod len]. *)
Record Draws := mkDraws { pickDraw : nat; sceneDraw : nat }.

Definition randomCutscene (d : Draws) : CutsceneVariant :=
  nth (sceneDraw d mod 4) [back_alley; rooftop; car_ambush; neon_club] back_alley.

(** What a tally holds under a key: a count; or, once [+ 1] has met something
    that is no number (a function or the object that [Object.prototype] holds
    under the key, or the outcome of an earlier such step), a string that is
    no number; its text plays no part. *)
Inductive TallyVal :=
| Count (n : nat)
| Text.

(** [tally[targetId] = (tally[targetId] ?? 0) + 1] on the plain object
    [tally: Record<string, number> = {}]. *)
Definition tallyAdd (tally : list (string * TallyVal)) (target : string)
    : list (string * TallyVal) :=
  JsObject.set target
    (match JsObject.get target tally with
     | JsObject.Own (Count c) => Count (c + 1)
     | JsObject.Own Text => Text
     | JsObject.Inherited => Text
     | JsObject.Undefined => Count (0 + 1)
     end) tally.

Definition tallyOf (targets : list string) : list (string * TallyVal) :=
  fold_left tallyAdd targets [].

(** [Math.max(...values)]: [NaN], here [None], as soon as one value is no
    number.  The caller has checked that there are values, each count is at
    least 1, and so the [-Infinity] of the empty list can stand as 0. *)
Fixpoint mathMax (vals : list TallyVal) : option nat :=
  match vals with
  | [] => Some 0
  | Count n :: vals' => option_map (Nat.max n) (mathMax vals')
  | Text :: _ => None
  end.

(** The [mafiaTarget] local of [resolveNight]. *)
Definition nightTarget (room : Room) (d : Draws) : option string :=
  let tally := tallyOf (map targetId (mafiaVotes room)) in
  if 0 <? length (JsMap.keys tally)
  then
    let maxVotes := mathMax (JsMap.values tally) in
    let candidates :=
      filter (fun k => match JsObject.get k tally, maxVotes with
                       | JsObject.Own (Count c), Some m => c =? m
                       | _, _ => false
                       end) (JsMap.keys tally) in
    nth_error candidates (pickDraw d mod length candidates)
  else None.

Definition resolveNight (room : Room) (d : Draws) : NightResolutionResult :=
  let mafiaTarget := nightTarget room d in
  if negb (truthy mafiaTarget)
  then mkNightResult None false outcome_no_kill None
  else
    if match mafiaTarget, doctorSave room with
       | Some t, Some s => String.eqb t s
       | _, _ => false
       end
    then mkNightResult mafiaTarget true outcome_saved (Some (randomCutscene d))
    else
      match match mafiaTarget with
            | Some t => JsMap.get t (players room)
            | None => None
            end with
      | Some target =>
          if alive target
          then mkNightResult mafiaTarget false outcome_killed (Some (randomCutscene d))
          else mkNightResult None false outcome_no_kill None
      | None => mkNightResult None false outcome_no_kill None
      end.

(** ** Day vote *)

Record LynchResult := mkLynchResult { lynchedPlayerId : option string }.

(** The loop state of [resolveDayVote]: [topCandidate], [topCount], [isTied].
    An entry that is no number is neither [> topCount] nor [=== topCount]. *)
Definition dayVoteStep (st : option string * nat * bool)
    (entry : string * TallyVal) : option string * nat * bool :=
  let '(topCandidate, topCount, isTied) := st in
  let '(playerId, count) := entry in
  match count with
  | Count count =>
      if topCount <? count then (Some playerId, count, false)
      else if count =? topCount then (topCandidate, topCount, true)
      else (topCandidate, topCount, isTied)
  | Text => (topCandidate, topCount, isTied)
  end.

Definition resolveDayVote (room : Room) : LynchResult :=
  let tally := tallyOf (JsMap.values (votes room)) in
  let '(topCandidate, topCount, isTied) :=
    fold_left dayVoteStep tally (None, 0, false) in
  if negb (truthy topCandidate) || isTied || (topCount =? 0)
  then mkLynchResult None
  else mkLynchResult topCandidate.

(** ** Win condition *)

Inductive Winner := mafia_wins | town_wins.

Definition getAlivePlayers (room : Room) : list Player :=
  filter alive (JsMap.values (players room)).

Definition getAliveMafia (room : Room) : list Player :=
  filter (fun p => Role_eqb (role p) mafia) (getAlivePlayers room).

Definition checkWinCondition (room : Room) : option Winner :=
  let alive := getAlivePlayers room in
  let aliveMafia := filter (fun p => Role_eqb (role p) mafia) alive in
  let aliveTown := filter (fun p => negb (Role_eqb (role p) mafia)) alive in
  if length aliveMafia =? 0 then Some town_wins
  else if length aliveTown <=? length aliveMafia then Some mafia_wins
  else None.

(** ** Helpers: usernames and players *)

(** Strings are taken over ASCII: [\s] is the ASCII white space, and case
    mapping touches the letters A-Z and a-z only. *)
Definition isSpace (c : ascii) : bool :=
  let n := nat_of_ascii c in
  (n =? 32) || (n =? 9) || (n =? 10) || (n =? 11) || (n =? 12) || (n =? 13).

(** The character class that [sanitizeUsername] strips: angle brackets,
    ampersand, double and single quote, slash and backslash. *)
Definition isHtmlChar (c : ascii) : bool :=
  let n := nat_of_ascii c in
  (n =? 60) || (n =? 62) || (n =? 38) || (n =? 34) || (n =? 39) || (n =? 47)
  || (n =? 92).

Fixpoint dropSpaces (l : list ascii) : list ascii :=
  match l with
  | c :: l' => if isSpace c then dropSpaces l' else l
  | [] => []
  end.

(** [.replace(/\s+/g, ' ')]: every run of white space becomes one blank. *)
Fixpoint collapseSpaces (l : list ascii) : list ascii :=
  match l with
  | [] => []
  | c :: l' =>
      if isSpace c
      then match l' with
           | c' :: _ => if isSpace c' then collapseSpaces l'
                        else " "%char :: collapseSpaces l'
           | [] => [" "%char]
           end
      else c :: collapseSpaces l'
  end.

Definition trim (l : list ascii) : list ascii :=
  rev (dropSpaces (rev (dropSpaces l))).

Definition sanitizeUsername (raw : string) : option string :=
  let cleaned :=
    trim (collapseSpaces
            (filter (fun c => negb (isHtmlChar c)) (list_ascii_of_string raw))) in
  if (length cleaned <? 3) || (16 <? length cleaned) then None
  else Some (string_of_list_ascii cleaned).

Definition lowerChar (c : ascii) : ascii :=
  let n := nat_of_ascii c in
  if (65 <=? n) && (n <=? 90) then ascii_of_nat (n + 32) else c.

Definition upperChar (c : ascii) : ascii :=
  let n := nat_of_ascii c in
  if (97 <=? n) && (n <=? 122) then ascii_of_nat (n - 32) else c.

Definition toLowerCase (s : string) : string :=
  string_of_list_ascii (map lowerChar (list_ascii_of_string s)).

Definition toUpperCase (s : string) : string :=
  string_of_list_ascii (map upperChar (list_ascii_of_string s)).

(** [createPlayer(socketId, name, avatar)]; [uuid] is the fresh [uuidv4()] and
    [now] is [Date.now()]. *)
Definition createPlayer (socketId name : string) (av : Avatar) (uuid : string)
    (now : Z) : Player :=
  {| id := socketId;
     sessionId := uuid;
     name := name;
     avatar := av;
     role := citizen;
     alive := true;
     connected := true;
     disconnectedAt := None;
     chatCount := 0%Z;
     chatWindowStart := now |}.

(* ================================================================== *)
(** * roomManager.ts and server.ts: the server state *)
(* ================================================================== *)

(** What a scheduled timer will run.  The first five are the phase timers of a
    room; [CbGrace] is the closure [handleDisconnect] schedules, which captures
    [socket.id] and the disconnected player's [sessionId]. *)
Inductive Callback :=
| CbStartNight (code : string)
| CbResolveNight (code : string)
| CbStartDay (code : string)
| CbStartVote (code : string)
| CbResolveVote (code : string)
| CbGrace (code socketId session : string).

Inductive NightAction := kill | save | investigate.

(** The payload of [vote_updated], as [broadcastVoteTally] builds it: the
    votes and the count per target, each a plain object. *)
Record VoteUpdatePayload := mkVoteUpdate
  { payloadVotes : list (string * string);
    payloadTally : list (string * TallyVal) }.

Definition voteUpdatePayload (room : Room) : VoteUpdatePayload :=
  fold_left
    (fun payload entry =>
       mkVoteUpdate (JsObject.set (fst entry) (snd entry) (payloadVotes payload))
                    (tallyAdd (payloadTally payload) (snd entry)))
    (votes room) (mkVoteUpdate [] []).

(** Messages the server sends.  The [room_updated] broadcasts and the system
    chat lines, which only replay the state, are left out.  A chat
    line carries the channel it was sent with: the server delivers it to the
    mafia players of the room when the channel is ['mafia'], and to the whole
    room otherwise. *)
Inductive Emit :=
| EError (socket message : string)
| ERoomCreated (socket code session : string)
| ERoomJoined (socket code session : string)
| EGameStarted (socket : string) (r : Role)
| EPhaseChanged (code : string) (p : Phase) (rnd : Z) (duration : Z)
| EPlayerEliminated (code playerId cause : string)
| ECutscene (code : string) (v : CutsceneVariant) (victimId : option string)
            (wasSaved : bool)
| ENarrate (code : string) (o : NightOutcome)
| EGameEnded (code : string) (w : Winner)
| EDetectiveResult (socket target : string) (isMafia : bool)
| EChat (code sender channel text : string)
| EVoteUpdated (code : string) (payload : VoteUpdatePayload)
| EReconnected (socket code : string) (r : Role) (p : Phase)
| ERoomReset (code : string).

Record Server := mkServer
  { rooms : Map Room;
    sessionToSocket : Map string;
    socketToRoom : Map string;
    pending : list (TimerId * (Z * Callback));
    nextTimer : TimerId;
    clock : Z;
    sockets : list string;
    everConnected : list string;
    emitted : list Emit }.

Definition set_rooms (v : Map Room) (s : Server) : Server :=
  mkServer v (sessionToSocket s) (socketToRoom s) (pending s) (nextTimer s)
           (clock s) (sockets s) (everConnected s) (emitted s).
Definition set_sessionToSocket (v : Map string) (s : Server) : Server :=
  mkServer (rooms s) v (socketToRoom s) (pending s) (nextTimer s)
           (clock s) (sockets s) (everConnected s) (emitted s).
Definition set_socketToRoom (v : Map string) (s : Server) : Server :=
  mkServer (rooms s) (sessionToSocket s) v (pending s) (nextTimer s)
           (clock s) (sockets s) (everConnected s) (emitted s).
Definition set_pending (v : list (TimerId * (Z * Callback))) (s : Server) : Server :=
  mkServer (rooms s) (sessionToSocket s) (socketToRoom s) v (nextTimer s)
           (clock s) (sockets s) (everConnected s) (emitted s).
Definition set_nextTimer (v : TimerId) (s : Server) : Server :=
  mkServer (rooms s) (sessionToSocket s) (socketToRoom s) (pending s) v
           (clock s) (sockets s) (everConnected s) (emitted s).
Definition set_clock (v : Z) (s : Server) : Server :=
  mkServer (rooms s) (sessionToSocket s) (socketToRoom s) (pending s) (nextTimer s)
           v (sockets s) (everConnected s) (emitted s).
Definition set_sockets (v : list string) (s : Server) : Server :=
  mkServer (rooms s) (sessionToSocket s) (socketToRoom s) (pending s) (nextTimer s)
           (clock s) v (everConnected s) (emitted s).
Definition set_everConnected (v : list string) (s : Server) : Server :=
  mkServer (rooms s) (sessionToSocket s) (socketToRoom s) (pending s) (nextTimer s)
           (clock s) (sockets s) v (emitted s).
Definition set_emitted (v : list Emit) (s : Server) : Server :=
  mkServer (rooms s) (sessionToSocket s) (socketToRoom s) (pending s) (nextTimer s)
           (clock s) (sockets s) (everConnected s) v.

Definition emit (e : Emit) (s : Server) : Server :=
  set_emitted (emitted s ++ [e]) s.

(** ** Timers *)

(** [setTimeout(cb, delay)]: a fresh handle, due [delay] ms from now. *)
Definition setTimeout (cb : Callback) (delay : Z) (s : Server) : TimerId * Server :=
  (nextTimer s,
   set_nextTimer (S (nextTimer s))
     (set_pending (pending s ++ [(nextTimer s, ((clock s + delay)%Z, cb))]) s)).

(** [clearTimeout(t)]: no effect on a handle that already fired or was cleared. *)
Definition clearTimeout (t : TimerId) (s : Server) : Server :=
  set_pending (filter (fun e => negb (fst e =? t)) (pending s)) s.

(** [if (room.timer) clearTimeout(room.timer)]. *)
Definition clearRoomTimer (room : Room) (s : Server) : Server :=
  match timer room with
  | Some t => clearTimeout t s
  | None => s
  end.

(** ** roomManager.ts *)

Definition getRoom (code : string) (s : Server) : option Room :=
  JsMap.get code (rooms s).

(** Writing back the room object fetched under [code], after mutating it. *)
Definition putRoom (code : string) (room : Room) (s : Server) : Server :=
  set_rooms (JsMap.set code room (rooms s)) s.

Definition deleteRoom (code : string) (s : Server) : Server :=
  let s := match getRoom code s with
           | Some room => clearRoomTimer room s
           | None => s
           end in
  set_rooms (JsMap.delete code (rooms s)) s.

Definition touchRoom (code : string) (s : Server) : Server :=
  match getRoom code s with
  | Some room => putRoom code (set_lastActivity (clock s) room) s
  | None => s
  end.

Definition registerSession (session socketId : string) (s : Server) : Server :=
  set_sessionToSocket (JsMap.set session socketId (sessionToSocket s)) s.

Definition removeSession (session : string) (s : Server) : Server :=
  set_sessionToSocket (JsMap.delete session (sessionToSocket s)) s.

Definition ROOM_INACTIVITY_MS : Z := (10 * 60 * 1000)%Z.

(** [createRoom(hostSocketId)] with the free code its [do ... while] loop
    settled on. *)
Definition newRoom (code hostSocketId : string) (now : Z) : Room :=
  {| code := code;
     hostId := hostSocketId;
     players := [];
     phase := lobby;
     round := 0%Z;
     mafiaVotes := [];
     doctorSave := None;
     detectiveTarget := None;
     votes := [];
     timer := None;
     lastActivity := now;
     nightActionsSubmitted := [];
     started := false;
     gameStartedAt := None |}.

(** ** server.ts: the phase state machine *)

Definition lookupPlayer (k : option string) (room : Room) : option Player :=
  match k with
  | Some k => JsMap.get k (players room)
  | None => None
  end.

(** [endGame(code, winner)]; the persistence calls are outside the engine,
    and the system chat line that follows [game_ended] is left out with the
    other system chat lines. *)
Definition endGame (code : string) (winner : Winner) (s : Server) : Server :=
  match getRoom code s with
  | None => s
  | Some room =>
      let room := set_phase ended room in
      let s := clearRoomTimer room s in
      let s := emit (EGameEnded code winner) s in
      touchRoom code (putRoom code room s)
  end.

Definition startDayPhase (code : string) (s : Server) : Server :=
  match getRoom code s with
  | None => s
  | Some room =>
      let room := set_votes [] (set_phase day room) in
      let room := set_lastActivity (clock s) room in
      let s := emit (EPhaseChanged code day (round room) DAY_DISCUSS_MS) s in
      let s := clearRoomTimer room s in
      let '(t, s) := setTimeout (CbStartVote code) DAY_DISCUSS_MS s in
      putRoom code (set_timer (Some t) room) s
  end.

Definition startVotePhase (code : string) (s : Server) : Server :=
  match getRoom code s with
  | None => s
  | Some room =>
      let room := set_phase vote room in
      let room := set_lastActivity (clock s) room in
      let s := emit (EPhaseChanged code vote (round room) VOTE_DURATION_MS) s in
      let s := emit (EVoteUpdated code (voteUpdatePayload room)) s in
      let s := clearRoomTimer room s in
      let '(t, s) := setTimeout (CbResolveVote code) VOTE_DURATION_MS s in
      putRoom code (set_timer (Some t) room) s
  end.

Definition startNightPhase (code : string) (s : Server) : Server :=
  match getRoom code s with
  | None => s
  | Some room =>
      let room := set_phase night room in
      let room := set_round (round room + 1)%Z room in
      let room := set_mafiaVotes [] room in
      let room := set_doctorSave None room in
      let room := set_detectiveTarget None room in
      let room := set_nightActionsSubmitted [] room in
      let room := set_lastActivity (clock s) room in
      let s := emit (EPhaseChanged code night (round room) NIGHT_DURATION_MS) s in
      let s := clearRoomTimer room s in
      let '(t, s) := setTimeout (CbResolveNight code) NIGHT_DURATION_MS s in
      putRoom code (set_timer (Some t) room) s
  end.

(** The room after [resolveNightPhase] applied [result]: the kill, if any. *)
Definition applyNightResult (result : NightResolutionResult) (room : Room) : Room :=
  if truthy (killedPlayerId result) && negb (saved result)
  then match killedPlayerId result with
       | Some k => updPlayer k (set_alive false) room
       | None => room
       end
  else room.

Definition resolveNightPhase (code : string) (d : Draws) (s : Server) : Server :=
  match getRoom code s with
  | None => s
  | Some room =>
      if negb (Phase_eqb (phase room) night) then s
      else
        let result := resolveNight room d in
        (* Apply kill if not saved *)
        let s :=
          if truthy (killedPlayerId result) && negb (saved result)
          then match lookupPlayer (killedPlayerId result) room with
               | Some target => emit (EPlayerEliminated code (id target) "night_kill") s
               | None => s
               end
          else s in
        let room := applyNightResult result room in
        (* Emit cutscene to all players (if kill or save happened) *)
        let s :=
          match cutsceneVariant result with
          | Some v =>
              let victim :=
                if truthy (killedPlayerId result)
                then lookupPlayer (killedPlayerId result) room else None in
              emit (ECutscene code v (option_map id victim) (saved result)) s
          | None => s
          end in
        let s := emit (ENarrate code (outcome result)) s in
        let s := putRoom code room s in
        (* Check win after night *)
        match checkWinCondition room with
        | Some winResult => endGame code winResult s
        | None =>
            let cutsceneDelay :=
              match cutsceneVariant result with
              | Some _ => 12000%Z
              | None => 2000%Z
              end in
            let s := clearRoomTimer room s in
            let '(t, s) := setTimeout (CbStartDay code) cutsceneDelay s in
            putRoom code (set_timer (Some t) room) s
        end
  end.

(** The room after [resolveVotePhase] applied the lynch, if any. *)
Definition applyLynch (result : LynchResult) (room : Room) : Room :=
  if truthy (lynchedPlayerId result)
  then match lynchedPlayerId result with
       | Some k => updPlayer k (set_alive false) room
       | None => room
       end
  else room.

Definition resolveVotePhase (code : string) (s : Server) : Server :=
  match getRoom code s with
  | None => s
  | Some room =>
      if negb (Phase_eqb (phase room) vote) then s
      else
        let result := resolveDayVote room in
        let s :=
          if truthy (lynchedPlayerId result)
          then match lookupPlayer (lynchedPlayerId result) room with
               | Some lynched => emit (EPlayerEliminated code (id lynched) "lynch") s
               | None => s
               end
          else s in
        let room := applyLynch result room in
        let s := putRoom code room s in
        (* Check win after lynch *)
        match checkWinCondition room with
        | Some winResult => endGame code winResult s
        | None =>
            (* Continue to next night *)
            let s := clearRoomTimer room s in
            let '(t, s) := setTimeout (CbStartNight code) 3000%Z s in
            putRoom code (set_timer (Some t) room) s
        end
  end.

(** ** Night action completeness check *)

(** The condition [allMafiaVoted && doctorActed && detectiveActed] of
    [checkNightActionsComplete]. *)
Definition nightActionsComplete (room : Room) : bool :=
  let alivePlayers := getAlivePlayers room in
  (* At least 1 mafia member must vote *)
  let aliveMafia := filter (fun p => Role_eqb (role p) mafia) alivePlayers in
  let mafiaVoters := map voterId (mafiaVotes room) in
  let allMafiaVoted :=
    (0 <? length aliveMafia)
    && forallb (fun p => existsb (String.eqb (id p)) mafiaVoters) aliveMafia in
  let hasDoctor := existsb (fun p => Role_eqb (role p) doctor) alivePlayers in
  let doctorActed :=
    if hasDoctor
    then match doctorSave room with Some _ => true | None => false end
    else true in
  let hasDetective := existsb (fun p => Role_eqb (role p) detective) alivePlayers in
  let detectiveActed :=
    if hasDetective
    then match detectiveTarget room with Some _ => true | None => false end
    else true in
  allMafiaVoted && doctorActed && detectiveActed.

Definition checkNightActionsComplete (code : string) (d : Draws) (s : Server)
    : Server :=
  match getRoom code s with
  | None => s
  | Some room =>
      if negb (Phase_eqb (phase room) night) then s
      else if nightActionsComplete room
      then resolveNightPhase code d (clearRoomTimer room s)
      else s
  end.

(** ** server.ts: the socket handlers *)

Definition dquote : string := String (ascii_of_nat 34) EmptyString.

(** The free code [createRoom]'s [do ... while (rooms.has(code))] loop ends on,
    given the successive results of [generateRoomCode()]. *)
Fixpoint firstFreeCode (draws : list string) (s : Server) : option string :=
  match draws with
  | [] => None
  | c :: draws' => if JsMap.has c (rooms s) then firstFreeCode draws' s else Some c
  end.

Definition on_create_room (socket username : string) (av : Avatar)
    (codeDraws : list string) (uuid : string) (s : Server) : Server :=
  match sanitizeUsername username with
  | None => emit (EError socket "Invalid username (3–16 chars).") s
  | Some uname =>
      match firstFreeCode codeDraws s with
      | None => s (* the code loop has not settled within the draws given *)
      | Some code =>
          let room := newRoom code socket (clock s) in
          let player := createPlayer socket uname av uuid (clock s) in
          let room := set_players (JsMap.set socket player (players room)) room in
          let s := putRoom code room s in
          let s := set_socketToRoom (JsMap.set socket code (socketToRoom s)) s in
          let s := registerSession (sessionId player) socket s in
          emit (ERoomCreated socket code (sessionId player)) s
      end
  end.

(** [data.code.toUpperCase().trim()] *)
Definition normalizeCode (code : string) : string :=
  string_of_list_ascii (trim (list_ascii_of_string (toUpperCase code))).

Definition on_join_room (socket code username : string) (av : Avatar)
    (uuid : string) (s : Server) : Server :=
  let roomCode := normalizeCode code in
  match getRoom roomCode s with
  | None =>
      emit (EError socket ("Room " ++ dquote ++ roomCode ++ dquote
                           ++ " not found. Check the code and try again.")%string) s
  | Some room =>
      if started room then emit (EError socket "Game already in progress.") s
      else if MAX_PLAYERS <=? JsMap.size (players room)
      then emit (EError socket "Room is full (max 12 players).") s
      else
        match sanitizeUsername username with
        | None => emit (EError socket "Invalid username (3–16 chars).") s
        | Some uname =>
            (* Check name uniqueness in room *)
            let nameTaken :=
              existsb (fun p => String.eqb (toLowerCase (name p))
                                           (toLowerCase uname))
                      (JsMap.values (players room)) in
            if nameTaken
            then emit (EError socket "Username already taken in this room.") s
            else
              let player := createPlayer socket uname av uuid (clock s) in
              let room := set_players (JsMap.set socket player (players room)) room in
              let s := putRoom roomCode room s in
              let s := set_socketToRoom (JsMap.set socket roomCode (socketToRoom s)) s in
              let s := registerSession (sessionId player) socket s in
              let s := touchRoom roomCode s in
              emit (ERoomJoined socket roomCode (sessionId player)) s
        end
  end.

(** [for (const [id, role] of roleMap) { const p = room.players.get(id);
    if (p) p.role = role; }] *)
Definition applyRoles (roleMap : list (option string * Role)) (room : Room) : Room :=
  fold_left
    (fun room entry =>
       match fst entry with
       | Some k => updPlayer k (set_role (snd entry)) room
       | None => room
       end)
    roleMap room.

Definition on_start_game (socket code : string) (shuffled : list string)
    (s : Server) : Server :=
  match getRoom code s with
  | None => emit (EError socket "Room not found.") s
  | Some room =>
      if negb (String.eqb (hostId room) socket)
      then emit (EError socket "Only the host can start.") s
      else if started room then emit (EError socket "Game already started.") s
      else if JsMap.size (players room) <? MIN_PLAYERS
      then emit (EError socket "Need at least 4 players to start.") s
      else
        let room := set_started true room in
        (* Assign roles *)
        let playerIds := JsMap.keys (players room) in
        let roleMap := assignRoles playerIds shuffled in
        let room := applyRoles roleMap room in
        (* Send personalized game-start event to each player *)
        let s :=
          fold_left
            (fun s p =>
               if set_has (id p) (sockets s)
               then emit (EGameStarted (id p) (role p)) s else s)
            (JsMap.values (players room)) s in
        (* Record game start time *)
        let room := set_gameStartedAt (Some (clock s)) room in
        let s := touchRoom code (putRoom code room s) in
        (* Begin first night after 3s countdown *)
        snd (setTimeout (CbStartNight code) 3000%Z s)
  end.

(** The [night_action] handler up to and including
    [room.nightActionsSubmitted.add(socket.id); touchRoom(data.code)]:
    [inl] is a rejection (the error went to the socket and the handler
    returned), [inr] the server with the action recorded. *)
Definition recordNightAction (socket code : string) (action : NightAction)
    (target : string) (s : Server) : Server + Server :=
  match getRoom code s with
  | None => inl (emit (EError socket "Room not found.") s)
  | Some room =>
      if negb (Phase_eqb (phase room) night)
      then inl (emit (EError socket "Not night phase.") s)
      else
        match JsMap.get socket (players room) with
        | None => inl (emit (EError socket "You are not alive.") s)
        | Some player =>
            if negb (alive player)
            then inl (emit (EError socket "You are not alive.") s)
            else if set_has socket (nightActionsSubmitted room)
            then inl (emit (EError socket "You already submitted a night action.") s)
            else
              match JsMap.get target (players room) with
              | None => inl (emit (EError socket "Invalid target.") s)
              | Some targetPlayer =>
                  if negb (alive targetPlayer)
                  then inl (emit (EError socket "Invalid target.") s)
                  else
                    let switch : Server + (Room * Server) :=
                      match action with
                      | kill =>
                          if negb (Role_eqb (role player) mafia)
                          then inl (emit (EError socket "Only mafia can kill.") s)
                          else if String.eqb target socket
                          then inl (emit (EError socket "Cannot target yourself.") s)
                          else
                            (* Store the mafia vote - only the first valid kill
                               vote counts *)
                            if length (mafiaVotes room) =? 0
                            then inr (set_mafiaVotes
                                        (mafiaVotes room ++ [mkMafiaVote socket target])
                                        room, s)
                            else inr (room, s)
                      | save =>
                          if negb (Role_eqb (role player) doctor)
                          then inl (emit (EError socket "Only doctor can save.") s)
                          else inr (set_doctorSave (Some target) room, s)
                      | investigate =>
                          if negb (Role_eqb (role player) detective)
                          then inl (emit (EError socket
                                            "Only detective can investigate.") s)
                          else
                            let isMafia := Role_eqb (role targetPlayer) mafia in
                            inr (set_detectiveTarget (Some target) room,
                                 (* Private result only to detective *)
                                 emit (EDetectiveResult socket target isMafia) s)
                      end in
                    match switch with
                    | inl rejected => inl rejected
                    | inr (room, s) =>
                        let room :=
                          set_nightActionsSubmitted
                            (set_add socket (nightActionsSubmitted room)) room in
                        let room := set_lastActivity (clock s) room in
                        inr (putRoom code room s)
                    end
              end
        end
  end.

Definition on_night_action (socket code : string) (action : NightAction)
    (target : string) (d : Draws) (s : Server) : Server :=
  match recordNightAction socket code action target s with
  | inl rejected => rejected
  | inr s =>
      (* Check if all required night actions are submitted -> auto-advance *)
      checkNightActionsComplete code d s
  end.

Definition on_day_vote (socket code target : string) (s : Server) : Server :=
  match getRoom code s with
  | None => emit (EError socket "Room not found.") s
  | Some room =>
      if negb (Phase_eqb (phase room) vote)
      then emit (EError socket "Not voting phase.") s
      else
        match JsMap.get socket (players room) with
        | None => emit (EError socket "You cannot vote.") s
        | Some voter =>
            if negb (alive voter) then emit (EError socket "You cannot vote.") s
            else
              match JsMap.get target (players room) with
              | None => emit (EError socket "Invalid vote target.") s
              | Some targetPlayer =>
                  if negb (alive targetPlayer)
                  then emit (EError socket "Invalid vote target.") s
                  else if String.eqb target socket
                  then emit (EError socket "Cannot vote for yourself.") s
                  else
                    let room := set_votes (JsMap.set socket target (votes room)) room in
                    let room := set_lastActivity (clock s) room in
                    let s := putRoom code room s in
                    let s := emit (EVoteUpdated code (voteUpdatePayload room)) s in
                    (* Check if all alive players voted -> early resolve *)
                    let alive := getAlivePlayers room in
                    if length alive <=? JsMap.size (votes room)
                    then resolveVotePhase code (clearRoomTimer room s)
                    else s
              end
        end
  end.

Definition on_skip_discussion (socket code : string) (s : Server) : Server :=
  match getRoom code s with
  | None => emit (EError socket "Room not found.") s
  | Some room =>
      if negb (String.eqb (hostId room) socket)
      then emit (EError socket "Only the host can skip discussion.") s
      else if negb (Phase_eqb (phase room) day)
      then emit (EError socket "Can only skip during discussion phase.") s
      else
        (* Clear the day-discussion timer and jump straight to vote *)
        startVotePhase code (clearRoomTimer room s)
  end.

Definition on_play_again (socket code : string) (s : Server) : Server :=
  match getRoom code s with
  | None => emit (EError socket "Room not found.") s
  | Some room =>
      if negb (String.eqb (hostId room) socket)
      then emit (EError socket "Only the host can restart.") s
      else if negb (Phase_eqb (phase room) ended)
      then emit (EError socket "Game is still in progress.") s
      else
        (* Reset room state to lobby *)
        let room := set_phase lobby room in
        let room := set_round 0%Z room in
        let room := set_started false room in
        let room := set_mafiaVotes [] room in
        let room := set_doctorSave None room in
        let room := set_detectiveTarget None room in
        let room := set_votes [] room in
        let room := set_nightActionsSubmitted [] room in
        let room := set_gameStartedAt None room in
        let s := clearRoomTimer room s in
        let room := set_timer None room in
        (* Reset all players *)
        let room :=
          set_players
            (map (fun kv =>
                    (fst kv,
                     set_chatWindowStart (clock s)
                       (set_chatCount 0%Z
                          (set_disconnectedAt None
                             (set_connected true
                                (set_role citizen (set_alive true (snd kv))))))))
                 (players room)) room in
        let s := touchRoom code (putRoom code room s) in
        emit (ERoomReset code) s
  end.

(** [data.text.replace(/[<>]/g, '').trim().slice(0, 300)] *)
Definition sanitizeText (text : string) : string :=
  let isAngle (c : ascii) :=
    (nat_of_ascii c =? 60) || (nat_of_ascii c =? 62) in
  string_of_list_ascii
    (firstn 300
       (trim (filter (fun c => negb (isAngle c)) (list_ascii_of_string text)))).

(** The [chat_message] handler.  [channel] is a field of the client's
    payload: any string can arrive, and the handler compares it with
    ['global'] and ['mafia']. *)
Definition on_chat_message (socket code text channel : string)
    (s : Server) : Server :=
  match getRoom code s with
  | None => s
  | Some room =>
      match JsMap.get socket (players room) with
      | None => s
      | Some player =>
          (* Spectators cannot chat in global, dead players can't speak *)
          if negb (alive player) && String.eqb channel "global"
          then emit (EError socket "Spectators cannot send messages.") s
          else
            (* Mafia chat: only if player is mafia and >1 mafia alive *)
            let mafiaGate : option string :=
              if String.eqb channel "mafia"
              then
                if negb (Role_eqb (role player) mafia)
                then Some "Only mafia can use mafia chat."
                else if length (getAliveMafia room) <=? 1
                then Some "Mafia chat disabled (only 1 mafia left)."
                else None
              else None in
            match mafiaGate with
            | Some message => emit (EError socket message) s
            | None =>
                (* Rate limit: max 10 messages per 5 seconds *)
                let now := clock s in
                let player :=
                  if (5000 <? now - chatWindowStart player)%Z
                  then set_chatWindowStart now (set_chatCount 0%Z player)
                  else player in
                let player := set_chatCount (chatCount player + 1)%Z player in
                let room := set_players (JsMap.set socket player (players room)) room in
                let s := putRoom code room s in
                if (10 <? chatCount player)%Z
                then emit (EError socket "Slow down! (rate limit)") s
                else
                  (* Sanitize text *)
                  let text := sanitizeText text in
                  if String.eqb text "" then s
                  else touchRoom code (emit (EChat code socket channel text) s)
            end
      end
  end.

(** [for (const player of room.players.values()) if (player.sessionId ===
    data.sessionId) { foundPlayer = player; break; }] *)
Definition findBySession (session : string) (room : Room) : option Player :=
  find (fun p => String.eqb (sessionId p) session) (JsMap.values (players room)).

Definition on_reconnect_player (socket session code : string) (s : Server)
    : Server :=
  match getRoom code s with
  | None => emit (EError socket "Room not found.") s
  | Some room =>
      match findBySession session room with
      | None => emit (EError socket "Session not found.") s
      | Some foundPlayer =>
          (* Check 30s reconnect window *)
          if truthyZ (disconnectedAt foundPlayer)
             && match disconnectedAt foundPlayer with
                | Some at_ => (30000 <? clock s - at_)%Z
                | None => false
                end
          then emit (EError socket "Reconnect window expired.") s
          else
            (* Transfer player to new socket *)
            let oldId := id foundPlayer in
            let room := set_players (JsMap.delete oldId (players room)) room in
            let s := set_socketToRoom (JsMap.delete oldId (socketToRoom s)) s in
            let foundPlayer :=
              set_disconnectedAt None (set_connected true (set_id socket foundPlayer)) in
            let room := set_players (JsMap.set socket foundPlayer (players room)) room in
            let s := set_socketToRoom (JsMap.set socket code (socketToRoom s)) s in
            (* Update host if needed *)
            let room :=
              if String.eqb (hostId room) oldId then set_hostId socket room else room in
            let s := registerSession session socket s in
            let s := emit (EReconnected socket code (role foundPlayer) (phase room)) s in
            touchRoom code (putRoom code room s)
      end
  end.

Definition on_leave_room (socket code : string) (s : Server) : Server :=
  set_socketToRoom (JsMap.delete socket (socketToRoom s)) s.

(** ** Disconnect handler *)

(** [room.hostId = room.players.keys().next().value] when the host left and
    somebody remains. *)
Definition promoteHost (socket : string) (room : Room) : Room :=
  if String.eqb (hostId room) socket && (0 <? JsMap.size (players room))
  then match JsMap.keys (players room) with
       | k :: _ => set_hostId k room
       | [] => room
       end
  else room.

(** The closure [handleDisconnect] hands to [setTimeout]. *)
Definition graceExpired (code socket session : string) (s : Server) : Server :=
  match getRoom code s with
  | None => s
  | Some updatedRoom =>
      match JsMap.get socket (players updatedRoom) with
      | None => s
      | Some updatedPlayer =>
          (* If still disconnected after grace period *)
          if negb (connected updatedPlayer)
          then
            if Phase_eqb (phase updatedRoom) lobby
            then
              (* Now remove from lobby *)
              let room :=
                set_players (JsMap.delete socket (players updatedRoom)) updatedRoom in
              let s := removeSession session s in
              let room := promoteHost socket room in
              let s := putRoom code room s in
              if JsMap.size (players room) =? 0 then deleteRoom code s else s
            else
              (* Mid-game: treat as eliminated *)
              let room := updPlayer socket (set_alive false) updatedRoom in
              let s := putRoom code room s in
              match checkWinCondition room with
              | Some win => endGame code win s
              | None => s
              end
          else s
      end
  end.

Definition handleDisconnect (socket code : string) (permanent : bool)
    (s : Server) : Server :=
  match getRoom code s with
  | None => s
  | Some room =>
      match JsMap.get socket (players room) with
      | None => s
      | Some player =>
          if permanent
          then
            (* Explicit leave - remove immediately *)
            let room := set_players (JsMap.delete socket (players room)) room in
            let s := removeSession (sessionId player) s in
            let room := promoteHost socket room in
            let s := putRoom code room s in
            if JsMap.size (players room) =? 0 then deleteRoom code s else s
          else
            (* Unintentional disconnect - always give a grace window *)
            let gracePeriodMs :=
              if Phase_eqb (phase room) lobby then 15000%Z else 30000%Z in
            let room :=
              updPlayer socket
                (fun p => set_disconnectedAt (Some (clock s)) (set_connected false p))
                room in
            let s := putRoom code room s in
            snd (setTimeout (CbGrace code socket (sessionId player)) gracePeriodMs s)
      end
  end.

(** The [disconnect] handler; the voice-channel bookkeeping is left out. *)
Definition on_disconnect (socket : string) (s : Server) : Server :=
  match JsMap.get socket (socketToRoom s) with
  | Some code =>
      let s := handleDisconnect socket code false s in
      set_socketToRoom (JsMap.delete socket (socketToRoom s)) s
  | None => s
  end.

(** The body of [startCleanupInterval]'s interval, run once. *)
Definition cleanupInactive (s : Server) : Server :=
  fold_left
    (fun s entry =>
       if (ROOM_INACTIVITY_MS <? clock s - lastActivity (snd entry))%Z
       then deleteRoom (fst entry) s else s)
    (rooms s) s.

(** ** The event loop *)

Inductive ClientMessage :=
| create_room (username : string) (av : Avatar) (codeDraws : list string)
              (uuid : string)
| join_room (code username : string) (av : Avatar) (uuid : string)
| start_game (code : string) (shuffled : list string)
| night_action (code : string) (action : NightAction) (target : string) (d : Draws)
| day_vote (code target : string)
| skip_discussion (code : string)
| play_again (code : string)
| chat_message (code text channel : string)
| reconnect_player (session code : string)
| leave_room (code : string).

(** One turn of the event loop: a socket connecting, a message from a connected
    socket, a socket disconnecting, a pending timer firing, or the cleanup
    interval. *)
Inductive Event :=
| Connect (socket : string)
| Message (socket : string) (m : ClientMessage)
| Disconnect (socket : string)
| Fire (t : TimerId) (d : Draws)
| CleanupTick.

Arguments Fire t%_nat d.

Definition handle (socket : string) (m : ClientMessage) (s : Server) : Server :=
  match m with
  | create_room username av codeDraws uuid =>
      on_create_room socket username av codeDraws uuid s
  | join_room code username av uuid => on_join_room socket code username av uuid s
  | start_game code shuffled => on_start_game socket code shuffled s
  | night_action code action target d => on_night_action socket code action target d s
  | day_vote code target => on_day_vote socket code target s
  | skip_discussion code => on_skip_discussion socket code s
  | play_again code => on_play_again socket code s
  | chat_message code text channel => on_chat_message socket code text channel s
  | reconnect_player session code => on_reconnect_player socket session code s
  | leave_room code => on_leave_room socket code s
  end.

Definition runCallback (cb : Callback) (d : Draws) (s : Server) : Server :=
  match cb with
  | CbStartNight code => startNightPhase code s
  | CbResolveNight code => resolveNightPhase code d s
  | CbStartDay code => startDayPhase code s
  | CbStartVote code => startVotePhase code s
  | CbResolveVote code => resolveVotePhase code s
  | CbGrace code socket session => graceExpired code socket session s
  end.

Definition findTimer (t : TimerId) (s : Server) : option (Z * Callback) :=
  option_map snd (find (fun e => fst e =? t) (pending s)).

(** [step now ev s]: the server after handling [ev] with [Date.now() = now].
    Socket ids are never reused, and only a connected socket delivers
    messages. *)
Definition step (now : Z) (ev : Event) (s : Server) : Server :=
  let s := set_clock now s in
  match ev with
  | Connect socket =>
      if set_has socket (everConnected s) then s
      else set_everConnected (socket :: everConnected s)
             (set_sockets (socket :: sockets s) s)
  | Message socket m =>
      if set_has socket (sockets s) then handle socket m s else s
  | Disconnect socket =>
      if set_has socket (sockets s)
      then set_sockets (filter (fun x => negb (String.eqb x socket)) (sockets s))
             (on_disconnect socket s)
      else s
  | Fire t d =>
      match findTimer t s with
      | Some (_, cb) => runCallback cb d (clearTimeout t s)
      | None => s
      end
  | CleanupTick => cleanupInactive s
  end.

Definition initialServer : Server :=
  {| rooms := []; sessionToSocket := []; socketToRoom := []; pending := [];
     nextTimer := 0; clock := 0%Z; sockets := []; everConnected := [];
     emitted := [] |}.

Definition run (trace : list (Z * Event)) (s : Server) : Server :=
  fold_left (fun s e => step (fst e) (snd e) s) trace s.

(* ================================================================== *)
(** * Vocabulary of the properties *)
(* ================================================================== *)

(** Living mafia and living town of a roster, counted directly. *)
Definition livingMafia (room : Room) : nat :=
  length (filter (fun p => alive p && Role_eqb (role p) mafia)
                 (JsMap.values (players room))).

Definition livingTown (room : Room) : nat :=
  length (filter (fun p => alive p && negb (Role_eqb (role p) mafia))
                 (JsMap.values (players room))).

(** How many entries of a role map carry role [r]. *)
Definition countRole (r : Role) (roleMap : list (option string * Role)) : nat :=
  length (filter (fun e => Role_eqb (snd e) r) roleMap).

(** Votes a candidate holds in a list of targets. *)
Definition votesIn (targets : list string) (c : string) : nat :=
  count_occ string_dec targets c.

(** Counting targets one by one: how often each target was named, in the
    order of first appearance. *)
Definition tallyCount (counts : list (string * nat)) (c : string) : nat :=
  match JsMap.get c counts with Some n => n | None => 0 end.

Definition countAdd (counts : list (string * nat)) (target : string)
    : list (string * nat) :=
  JsMap.set target (tallyCount counts target + 1) counts.

Definition countsOf (targets : list string) : list (string * nat) :=
  fold_left countAdd targets [].

(** A list of counts as a tally. *)
Definition asTally (counts : list (string * nat)) : list (string * TallyVal) :=
  map (fun kv => (fst kv, Count (snd kv))) counts.

(** Day votes for [c]. *)
Definition votesFor (room : Room) (c : string) : nat :=
  votesIn (JsMap.values (votes room)) c.




(** Between [s] and [s'] a night resolution ran and announced outcome [o]. *)
Definition narrated (code : string) (o : NightOutcome) (s s' : Server) : Prop :=
  exists pre rest, emitted s' = emitted s ++ pre ++ ENarrate code o :: rest.


(** Timer handle [t] is scheduled and has neither fired nor been cleared. *)
Definition isPending (t : TimerId) (s : Server) : Prop :=
  In t (map fst (pending s)).

(** The chat message of [socket] was accepted: it went out on [channel]. *)
Definition chatAccepted (socket code text channel : string)
    (s : Server) : Prop :=
  exists t, emitted (on_chat_message socket code text channel s)
            = emitted s ++ [EChat code socket channel t].

(** The players whose elimination by lynch was announced to room [code]. *)
Definition lynchNotices (code : string) (s : Server) : list string :=
  flat_map (fun e => match e with
                     | EPlayerEliminated c p cause =>
                         if String.eqb c code && String.eqb cause "lynch"
                         then [p] else []
                     | _ => []
                     end) (emitted s).

(** Alive flags of a roster, in order. *)
Definition aliveFlags (room : Room) : list (string * bool) :=
  map (fun kv => (fst kv, alive (snd kv))) (players room).

Definition sessionsOf (room : Room) : list string :=
  map sessionId (JsMap.values (players room)).

(** Every entry of [room.players] sits under its own [id]. *)
Definition keyedById (room : Room) : Prop :=
  Forall (fun kv => id (snd kv) = fst kv) (players room).

(** Well-formed roster: entries sit under their own id, one entry per key, at
    most [MAX_PLAYERS] of them. *)
Definition roomOK (room : Room) : Prop :=
  keyedById room
  /\ NoDup (JsMap.keys (players room))
  /\ length (players room) <= MAX_PLAYERS.

(** [r'] has the seats of [r] or fewer: every entry of [r'] is an entry of [r]
    under the same key, with the same id and session, and not disconnected on
    the way. *)
Definition shrinks (r r' : Room) : Prop :=
  (NoDup (JsMap.keys (players r)) -> NoDup (JsMap.keys (players r')))
  /\ length (players r') <= length (players r)
  /\ forall k p', In (k, p') (players r') ->
        exists p, In (k, p) (players r)
                  /\ id p' = id p /\ sessionId p' = sessionId p
                  /\ (connected p = true -> connected p' = true).

(** [s'] has the rooms of [s] or fewer, each with its seats or fewer, and the
    same sockets. *)
Definition evolves (s s' : Server) : Prop :=
  sockets s' = sockets s
  /\ everConnected s' = everConnected s
  /\ (NoDup (JsMap.keys (rooms s)) -> NoDup (JsMap.keys (rooms s')))
  /\ forall c r', In (c, r') (rooms s') ->
        exists r, In (c, r) (rooms s) /\ shrinks r r'.

(** The invariant of the event loop: room codes are distinct, every roster is
    well-formed, every seat belongs to a socket that once connected, and the
    seat of a connected socket is marked connected. *)
Definition serverOK (s : Server) : Prop :=
  NoDup (JsMap.keys (rooms s))
  /\ incl (sockets s) (everConnected s)
  /\ forall c r, In (c, r) (rooms s) ->
        roomOK r
        /\ forall k p, In (k, p) (players r) ->
              In k (everConnected s)
              /\ (In k (sockets s) -> connected p = true).

(** Between [s] and [s'] no started room gained a member. *)
Definition noNewMember (s s' : Server) : Prop :=
  forall c r r', In (c, r) (rooms s) -> In (c, r') (rooms s') ->
    started r = true ->
    length (players r') <= length (players r)
    /\ incl (sessionsOf r') (sessionsOf r).

(** The server is in a state the event loop can reach. *)
Definition reachable (s : Server) : Prop :=
  exists trace, s = run trace initialServer.

(* ================================================================== *)
(** * Scenarios *)
(* ================================================================== *)

Definition noDraw : Draws := mkDraws 0 0.

(** Five sockets connect; the host creates room ROOM42 and four players join. *)
Definition lobbyOfFive : list (Z * Event) :=
  [ (0%Z, Connect "sH"); (0%Z, Connect "sA"); (0%Z, Connect "sB");
    (0%Z, Connect "sC"); (0%Z, Connect "sD");
    (100%Z, Message "sH" (create_room "Hosty" "av" ["ROOM42"] "uH"));
    (200%Z, Message "sA" (join_room "room42 " "Alice" "av" "uA"));
    (300%Z, Message "sB" (join_room "ROOM42" "Bobby" "av" "uB"));
    (400%Z, Message "sC" (join_room "ROOM42" "Carol" "av" "uC"));
    (500%Z, Message "sD" (join_room "ROOM42" "David" "av" "uD")) ].

(** The room of [code] in [s], or an empty placeholder when there is none. *)
Definition roomAt (code : string) (s : Server) : Room :=
  match getRoom code s with
  | Some room => room
  | None => newRoom "" "" 0%Z
  end.

(** The game starts (Alice mafia, Bobby doctor, Carol detective), the night
    passes without actions, day and vote begin on their timers; four of the
    five then vote: three for Bobby, one for Carol. *)
Definition votingOpen : list (Z * Event) :=
  lobbyOfFive ++
  [ (1000%Z, Message "sH" (start_game "ROOM42" ["sA"; "sB"; "sC"; "sD"; "sH"]));
    (4000%Z, Fire 0 noDraw);      (* startNightPhase *)
    (64000%Z, Fire 1 noDraw);     (* resolveNightPhase: no kill *)
    (66000%Z, Fire 2 noDraw);     (* startDayPhase *)
    (156000%Z, Fire 3 noDraw);    (* startVotePhase *)
    (157000%Z, Message "sA" (day_vote "ROOM42" "sB"));
    (157100%Z, Message "sC" (day_vote "ROOM42" "sB"));
    (157200%Z, Message "sD" (day_vote "ROOM42" "sB"));
    (157300%Z, Message "sH" (day_vote "ROOM42" "sC")) ].

Definition stateVotingOpen : Server :=
  Eval vm_compute in run votingOpen initialServer.

Definition roomVotingOpen : Room :=
  Eval vm_compute in roomAt "ROOM42" stateVotingOpen.

(** Bobby casts the fifth vote; everybody living has voted, the vote resolves
    early and Bobby is lynched. *)
Definition firstLynch : list (Z * Event) :=
  votingOpen ++ [ (157400%Z, Message "sB" (day_vote "ROOM42" "sC")) ].

Definition stateFirstLynch : Server :=
  Eval vm_compute in run firstLynch initialServer.

(** One second later, before the 3 s timer to the next night fires, David
    changes his vote to Carol. *)
Definition secondLynch : list (Z * Event) :=
  firstLynch ++ [ (158000%Z, Message "sD" (day_vote "ROOM42" "sC")) ].

Definition stateSecondLynch : Server :=
  Eval vm_compute in run secondLynch initialServer.

(** In the open vote of five Bobby, who holds three of the four votes cast,
    drops and is back on a new socket at once: his seat moves from sB to
    sB2. *)
Definition voteRekey : list (Z * Event) :=
  votingOpen ++
  [ (157350%Z, Disconnect "sB");
    (157360%Z, Connect "sB2");
    (157370%Z, Message "sB2" (reconnect_player "uB" "ROOM42")) ].

Definition stateVoteRekey : Server :=
  Eval vm_compute in run voteRekey initialServer.

Definition roomVoteRekey : Room :=
  Eval vm_compute in roomAt "ROOM42" stateVoteRekey.

(** The first night of the same five: Alice, the mafia member, votes to kill
    David; David drops and is back on a new socket two seconds later: his seat
    moves from sD to sD2. *)
Definition nightRekey : list (Z * Event) :=
  lobbyOfFive ++
  [ (1000%Z, Message "sH" (start_game "ROOM42" ["sA"; "sB"; "sC"; "sD"; "sH"]));
    (4000%Z, Fire 0 noDraw);      (* startNightPhase *)
    (5000%Z, Message "sA" (night_action "ROOM42" kill "sD" noDraw));
    (6000%Z, Disconnect "sD");
    (8000%Z, Connect "sD2");
    (8100%Z, Message "sD2" (reconnect_player "uD" "ROOM42")) ].

Definition stateNightRekey : Server :=
  Eval vm_compute in run nightRekey initialServer.

Definition roomNightRekey : Room :=
  Eval vm_compute in roomAt "ROOM42" stateNightRekey.

(** The first night again: David drops and stays away; Alice votes to kill
    him and Bobby, the doctor, saves him; David's 30 s grace runs out during
    the night, which eliminates him. *)
Definition savedDeadTarget : list (Z * Event) :=
  lobbyOfFive ++
  [ (1000%Z, Message "sH" (start_game "ROOM42" ["sA"; "sB"; "sC"; "sD"; "sH"]));
    (4000%Z, Fire 0 noDraw);      (* startNightPhase *)
    (4500%Z, Disconnect "sD");
    (5000%Z, Message "sA" (night_action "ROOM42" kill "sD" noDraw));
    (6000%Z, Message "sB" (night_action "ROOM42" save "sD" noDraw));
    (34500%Z, Fire 2 noDraw) ].   (* David's grace expires *)

Definition stateSavedDeadTarget : Server :=
  Eval vm_compute in run savedDeadTarget initialServer.

Definition roomSavedDeadTarget : Room :=
  Eval vm_compute in roomAt "ROOM42" stateSavedDeadTarget.

(** Four players; Carol's socket drops in the lobby; the host starts the game
    13 s later with Carol drawn as the only mafia; her 15 s lobby grace runs
    out during the 3 s countdown and removes her; the night begins without a
    mafia member; the doctor (the host) saves Alice. *)
Definition nightWithoutMafia : list (Z * Event) :=
  [ (0%Z, Connect "sH"); (0%Z, Connect "sA"); (0%Z, Connect "sB");
    (0%Z, Connect "sC");
    (100%Z, Message "sH" (create_room "Hosty" "av" ["ROOM42"] "uH"));
    (200%Z, Message "sA" (join_room "ROOM42" "Alice" "av" "uA"));
    (300%Z, Message "sB" (join_room "ROOM42" "Bobby" "av" "uB"));
    (400%Z, Message "sC" (join_room "ROOM42" "Carol" "av" "uC"));
    (1000%Z, Disconnect "sC");
    (14000%Z, Message "sH" (start_game "ROOM42" ["sC"; "sH"; "sA"; "sB"]));
    (16000%Z, Fire 0 noDraw);     (* Carol's lobby grace expires *)
    (17000%Z, Fire 1 noDraw) ].   (* startNightPhase *)








(** Seven players, hence two mafia (Alice and Bobby); the night begins. *)
Definition nightOfSeven : list (Z * Event) :=
  [ (0%Z, Connect "sH"); (0%Z, Connect "sA"); (0%Z, Connect "sB");
    (0%Z, Connect "sC"); (0%Z, Connect "sD"); (0%Z, Connect "sE");
    (0%Z, Connect "sF");
    (100%Z, Message "sH" (create_room "Hosty" "av" ["ROOM42"] "uH"));
    (200%Z, Message "sA" (join_room "ROOM42" "Alice" "av" "uA"));
    (300%Z, Message "sB" (join_room "ROOM42" "Bobby" "av" "uB"));
    (400%Z, Message "sC" (join_room "ROOM42" "Carol" "av" "uC"));
    (500%Z, Message "sD" (join_room "ROOM42" "David" "av" "uD"));
    (600%Z, Message "sE" (join_room "ROOM42" "Erica" "av" "uE"));
    (700%Z, Message "sF" (join_room "ROOM42" "Frank" "av" "uF"));
    (1000%Z, Message "sH"
       (start_game "ROOM42" ["sA"; "sB"; "sC"; "sD"; "sE"; "sF"; "sH"]));
    (4000%Z, Fire 0 noDraw) ].

Definition stateNightOfSeven : Server :=
  Eval vm_compute in run nightOfSeven initialServer.

(** Alice, the first mafia member, votes to kill Carol. *)
Definition oneKillVote : list (Z * Event) :=
  nightOfSeven ++
  [ (5000%Z, Message "sA" (night_action "ROOM42" kill "sC" noDraw)) ].

Definition stateOneKillVote : Server :=
  Eval vm_compute in run oneKillVote initialServer.

Definition roomOneKillVote : Room :=
  Eval vm_compute in roomAt "ROOM42" stateOneKillVote.

(** Bobby, the second mafia member, votes to kill David. *)
Definition twoKillVotes : list (Z * Event) :=
  oneKillVote ++
  [ (6000%Z, Message "sB" (night_action "ROOM42" kill "sD" noDraw)) ].

Definition stateTwoKillVotes : Server :=
  Eval vm_compute in run twoKillVotes initialServer.

(** ... and then the doctor (Carol) saves Erica and the detective (David)
    investigates Alice: every living role-holder has acted. *)
Definition allRolesActed : list (Z * Event) :=
  twoKillVotes ++
  [ (7000%Z, Message "sC" (night_action "ROOM42" save "sE" noDraw));
    (8000%Z, Message "sD" (night_action "ROOM42" investigate "sA" noDraw)) ].

Definition stateAllRolesActed : Server :=
  Eval vm_compute in run allRolesActed initialServer.

Definition roomAllRolesActed : Room :=
  Eval vm_compute in roomAt "ROOM42" stateAllRolesActed.

(** David's socket drops in the lobby at 1 s: a 15 s grace timer starts. *)
Definition lobbyDrop : list (Z * Event) :=
  lobbyOfFive ++ [ (1000%Z, Disconnect "sD") ].

Definition stateLobbyDrop : Server :=
  Eval vm_compute in run lobbyDrop initialServer.

(** The game starts and the night begins before the grace runs out; at 16 s
    the grace timer fires mid-game; at 21 s David's browser is back on a new
    socket. *)
Definition lobbyDropThenStart : list (Z * Event) :=
  lobbyDrop ++
  [ (5000%Z, Message "sH" (start_game "ROOM42" ["sA"; "sB"; "sC"; "sD"; "sH"]));
    (8000%Z, Fire 1 noDraw);      (* startNightPhase *)
    (16000%Z, Fire 0 noDraw);     (* David's grace timer *)
    (21000%Z, Connect "sD2") ].

Definition stateLobbyDropThenStart : Server :=
  Eval vm_compute in run lobbyDropThenStart initialServer.

Definition roomLobbyDropThenStart : Room :=
  Eval vm_compute in roomAt "ROOM42" stateLobbyDropThenStart.

(** ... and asks to reconnect, 20 s after the drop. *)
Definition stateLateReconnect : Server :=
  Eval vm_compute in
    step 21000%Z (Message "sD2" (reconnect_player "uD" "ROOM42"))
         stateLobbyDropThenStart.

(** The night without mafia ends the game (town wins) when its timer fires;
    Alice's socket drops at 80 s (30 s grace); the host restarts the room at
    85 s; the grace timer fires at 110 s; at 200 s Alice's browser is back on a
    new socket. *)
Definition dropAfterEnd : list (Z * Event) :=
  nightWithoutMafia ++
  [ (77000%Z, Fire 2 noDraw);     (* resolveNightPhase: town wins *)
    (80000%Z, Disconnect "sA") ].

Definition stateDropAfterEnd : Server :=
  Eval vm_compute in run dropAfterEnd initialServer.

Definition dropThenPlayAgain : list (Z * Event) :=
  dropAfterEnd ++
  [ (85000%Z, Message "sH" (play_again "ROOM42"));
    (110000%Z, Fire 3 noDraw);    (* Alice's grace timer *)
    (200000%Z, Connect "sA2") ].

Definition stateDropThenPlayAgain : Server :=
  Eval vm_compute in run dropThenPlayAgain initialServer.

(** ... and asks to reconnect, 120 s after the drop. *)
Definition stateGhostReconnect : Server :=
  Eval vm_compute in
    step 200000%Z (Message "sA2" (reconnect_player "uA" "ROOM42"))
         stateDropThenPlayAgain.

(* ================================================================== *)
(** * More of the server *)
(* ================================================================== *)

(** ** gameLogic.ts: room codes *)

(** [generateRoomCode()]: six characters of the unambiguous alphabet;
    [draw i] is [Math.floor(Math.random() * chars.length)] of iteration [i],
    taken modulo the length like the other draws. *)
Definition codeChars : string := "ABCDEFGHJKLMNPQRSTUVWXYZ23456789".

Definition generateRoomCode (draw : nat -> nat) : string :=
  fold_left
    (fun code i =>
       (code ++ match String.get (draw i mod String.length codeChars) codeChars with
                | Some c => String c EmptyString
                | None => "undefined"
                end)%string)
    (seq 0 6) "".

(** ** Vocabulary and scenarios of the further properties *)

(** No two white-space characters in a row. *)
Fixpoint blanksApart (l : list ascii) : bool :=
  match l with
  | c :: l' =>
      match l' with
      | c' :: _ => negb (isSpace c && isSpace c') && blanksApart l'
      | [] => true
      end
  | [] => true
  end.

(** The character of the alphabet that draw [k] selects. *)
Definition codeChar (k : nat) : ascii :=
  nth (k mod 32) (list_ascii_of_string codeChars) "A"%char.

(** The chat lines of [socket] that went out to room [code] so far. *)
Definition chatsSent (socket code : string) (s : Server) : nat :=
  length (filter (fun e => match e with
                           | EChat c sender _ _ =>
                               String.eqb c code && String.eqb sender socket
                           | _ => false
                           end) (emitted s)).

(** A burst of chat messages from one socket: each entry is the time of
    arrival, the text and the channel. *)
Definition chatBurst (socket code : string) (msgs : list (Z * (string * string)))
    : list (Z * Event) :=
  map (fun m => (fst m, Message socket (chat_message code (fst (snd m)) (snd (snd m)))))
      msgs.

(** Right after the host's first chat line in the open vote. *)
Definition stateFirstChat : Server :=
  Eval vm_compute in
    step 157400%Z (Message "sH" (chat_message "ROOM42" "hello" "global"))
         stateVotingOpen.

(** The roles held in a roster, as a role map. *)
Definition rosterRoles (room : Room) : list (option string * Role) :=
  map (fun kv => (Some (fst kv), role (snd kv))) (players room).

(** The lobby of five, everybody seated. *)
Definition stateLobbyOfFive : Server :=
  Eval vm_compute in run lobbyOfFive initialServer.

(** The stored sender after a chat message that passed the gate: the counter
    restarted if the window had run out, then advanced by one. *)
Definition counted (now : Z) (player : Player) : Player :=
  let player :=
    if (5000 <? now - chatWindowStart player)%Z
    then set_chatWindowStart now (set_chatCount 0%Z player)
    else player in
  set_chatCount (chatCount player + 1)%Z player.

(* ================================================================== *)
(** * server.ts: WebRTC signalling *)
(* ================================================================== *)

(** The audio channels of a room: ['general'] and ['mafia']. *)
Inductive RtcChannel := rtc_general | rtc_mafia.

(** The entry of [rtcChannels] for a room: the socket ids in each channel.
    The field [mafia] of the source is [mafiaSet] here. *)
Record RtcRoom := mkRtcRoom { general : list string; mafiaSet : list string }.

Inductive RtcSignal := rtc_offer | rtc_answer | rtc_ice.

(** The signalling messages the server sends, each with the socket it goes
    to. *)
Inductive RtcEmit :=
| EPeerJoined (to peerId : string) (channel : RtcChannel)
| EPeerExists (to peerId : string) (channel : RtcChannel)
| EPeerLeft (to peerId : string)
| ESignal (kind : RtcSignal) (to from payload : string).

Record Voice := mkVoice
  { rtcChannels : Map RtcRoom;
    rtcEmitted : list RtcEmit }.

Definition set_rtcChannels (c : Map RtcRoom) (v : Voice) : Voice :=
  mkVoice c (rtcEmitted v).

Definition rtcEmit (e : RtcEmit) (v : Voice) : Voice :=
  mkVoice (rtcChannels v) (rtcEmitted v ++ [e]).

(** [io.sockets.sockets.get(peerId)?.emit(...)]: sent if the peer's socket is
    connected. *)
Definition rtcEmitTo (s : Server) (peerId : string) (e : RtcEmit) (v : Voice) : Voice :=
  if set_has peerId (sockets s) then rtcEmit e v else v.

(** [Set.prototype.delete] *)
Definition set_delete (x : string) (s : list string) : list string :=
  filter (fun y => negb (String.eqb y x)) s.

Definition ensureRtcRoom (code : string) (v : Voice) : RtcRoom * Voice :=
  match JsMap.get code (rtcChannels v) with
  | Some ch => (ch, v)
  | None =>
      (mkRtcRoom [] [],
       set_rtcChannels (JsMap.set code (mkRtcRoom [] []) (rtcChannels v)) v)
  end.

Definition rtcRemoveSocket (socketId code : string) (v : Voice) : Voice :=
  match JsMap.get code (rtcChannels v) with
  | None => v
  | Some ch =>
      set_rtcChannels
        (JsMap.set code
           (mkRtcRoom (set_delete socketId (general ch))
                      (set_delete socketId (mafiaSet ch)))
           (rtcChannels v)) v
  end.

(** The [rtc:join] handler. *)
Definition on_rtc_join (socket code : string) (channel : RtcChannel)
    (s : Server) (v : Voice) : Voice :=
  match getRoom code s with
  | None => v
  | Some room =>
      match JsMap.get socket (players room) with
      | None => v
      | Some player =>
          (* Enforce mafia-only channel *)
          if match channel with rtc_mafia => true | rtc_general => false end
             && negb (Role_eqb (role player) mafia)
          then v
          else
            let '(ch, v) := ensureRtcRoom code v in
            (* Remove from previous channel first *)
            let ch := mkRtcRoom (set_delete socket (general ch))
                                (set_delete socket (mafiaSet ch)) in
            let channelSet :=
              match channel with rtc_mafia => mafiaSet ch | rtc_general => general ch end in
            (* Tell all existing peers in this channel that we joined *)
            let v :=
              fold_left
                (fun v peerId =>
                   if String.eqb peerId socket then v
                   else
                     let v := rtcEmitTo s peerId (EPeerJoined peerId socket channel) v in
                     rtcEmit (EPeerExists socket peerId channel) v)
                channelSet v in
            let ch :=
              match channel with
              | rtc_mafia => mkRtcRoom (general ch) (set_add socket (mafiaSet ch))
              | rtc_general => mkRtcRoom (set_add socket (general ch)) (mafiaSet ch)
              end in
            set_rtcChannels (JsMap.set code ch (rtcChannels v)) v
      end
  end.

(** The [rtc:leave] handler. *)
Definition on_rtc_leave (socket code : string) (s : Server) (v : Voice) : Voice :=
  match JsMap.get code (rtcChannels v) with
  | None => v
  | Some ch =>
      let ch := mkRtcRoom (set_delete socket (general ch))
                          (set_delete socket (mafiaSet ch)) in
      let v := set_rtcChannels (JsMap.set code ch (rtcChannels v)) v in
      (* Notify all peers in this room *)
      fold_left (fun v peerId => rtcEmitTo s peerId (EPeerLeft peerId socket) v)
                (general ch ++ mafiaSet ch) v
  end.

(** The handlers [rtc:offer], [rtc:answer] and [rtc:ice]: a pure relay. *)
Definition on_rtc_signal (kind : RtcSignal) (socket to payload : string)
    (s : Server) (v : Voice) : Voice :=
  rtcEmitTo s to (ESignal kind to socket payload) v.

(** The voice part of the [disconnect] handler. *)
Definition on_rtc_disconnect (socket : string) (s : Server) (v : Voice) : Voice :=
  match JsMap.get socket (socketToRoom s) with
  | Some code =>
      let v := rtcRemoveSocket socket code v in
      (* Notify RTC peers *)
      match JsMap.get code (rtcChannels v) with
      | Some ch =>
          fold_left (fun v peerId => rtcEmitTo s peerId (EPeerLeft peerId socket) v)
                    (general ch ++ mafiaSet ch) v
      | None => v
      end
  | None => v
  end.

(** The voice events, each seen with the server state of its moment. *)
Inductive RtcEvent :=
| RtcJoin (socket code : string) (channel : RtcChannel)
| RtcLeave (socket code : string)
| RtcSignalTo (kind : RtcSignal) (socket to payload : string)
| RtcDisconnect (socket : string).

Definition voiceStep (s : Server) (ev : RtcEvent) (v : Voice) : Voice :=
  match ev with
  | RtcJoin socket code channel => on_rtc_join socket code channel s v
  | RtcLeave socket code => on_rtc_leave socket code s v
  | RtcSignalTo kind socket to payload => on_rtc_signal kind socket to payload s v
  | RtcDisconnect socket => on_rtc_disconnect socket s v
  end.

Definition initialVoice : Voice := mkVoice [] [].

Definition runVoice (trace : list (Server * RtcEvent)) (v : Voice) : Voice :=
  fold_left (fun v e => voiceStep (fst e) (snd e) v) trace v.

(** Every room's channels hold each socket at most once, and no socket in
    both. *)
Definition channelsApart (ch : RtcRoom) : Prop :=
  NoDup (general ch) /\ NoDup (mafiaSet ch)
  /\ forall x, In x (general ch) -> ~ In x (mafiaSet ch).

Definition voiceOK (v : Voice) : Prop :=
  NoDup (JsMap.keys (rtcChannels v))
  /\ forall code ch, In (code, ch) (rtcChannels v) -> channelsApart ch.

(** The peers of a room's channels. *)
Definition peersOf (code : string) (v : Voice) : list string :=
  match JsMap.get code (rtcChannels v) with
  | Some ch => general ch ++ mafiaSet ch
  | None => []
  end.

(** ** server.ts: the public view of a roster *)

(** [PublicPlayer]: what a broadcast shows of a player, the role left out. *)
Module PublicPlayer.
Record t := mk
  { id : string;
    name : string;
    avatar : Avatar;
    alive : bool;
    connected : bool;
    isHost : bool }.
End PublicPlayer.

(** [toPublicPlayers(room, hostId)] *)
Definition toPublicPlayers (room : option Room) (hostId : string)
    : list PublicPlayer.t :=
  match room with
  | None => []
  | Some room =>
      map (fun p => PublicPlayer.mk (id p) (name p) (avatar p) (alive p) (connected p)
                                    (String.eqb (id p) hostId))
          (JsMap.values (players room))
  end.

(** The payload of [room_updated], as [broadcastRoomUpdate] builds it. *)
Record RoomUpdatePayload := mkRoomUpdate
  { update_code : string;
    update_phase : Phase;
    update_round : Z;
    update_players : list PublicPlayer.t;
    update_started : bool }.

Definition roomUpdatePayload (c : string) (s : Server) : option RoomUpdatePayload :=
  match getRoom c s with
  | None => None
  | Some room =>
      Some (mkRoomUpdate (code room) (phase room) (round room)
                         (toPublicPlayers (Some room) (hostId room)) (started room))
  end.

(** ** Vocabulary of the invariants of rooms and messages *)

(** The seats of a room: the key and the name of each entry, in order. *)
Definition seatsOf (room : Room) : list (string * string) :=
  map (fun kv => (fst kv, name (snd kv))) (players room).

(** [r'] has the code, the host and the seats of [r]. *)
Definition sameSeats (r r' : Room) : Prop :=
  code r' = code r /\ hostId r' = hostId r /\ seatsOf r' = seatsOf r.

(** Every room of [s'] is a room of [s] with the same code, host and seats. *)
Definition settled (s s' : Server) : Prop :=
  forall c r', In (c, r') (rooms s') -> exists r, In (c, r) (rooms s) /\ sameSeats r r'.

(** The names of a roster, in lower case. *)
Definition lowerNames (room : Room) : list string :=
  map (fun p => toLowerCase (name p)) (JsMap.values (players room)).

(** A sound roster: the room carries the code it is stored under, its host is
    one of its players, and no two of its players share a name, letter case
    aside. *)
Definition rosterSound (c : string) (room : Room) : Prop :=
  code room = c
  /\ In (hostId room) (JsMap.keys (players room))
  /\ NoDup (lowerNames room).

Definition serverSound (s : Server) : Prop :=
  forall c r, In (c, r) (rooms s) -> rosterSound c r.

(** [sends P s s']: from [s] to [s'] the server sent messages that all satisfy
    [P], and took none back. *)
Definition sends (P : Emit -> Prop) (s s' : Server) : Prop :=
  exists new, emitted s' = emitted s ++ new /\ Forall P new.

(** The messages that tell one socket something the others must not learn:
    its role ([game_started], [reconnected]) or what an investigation found
    ([detective_result]). *)
Definition isPrivate (e : Emit) : bool :=
  match e with
  | EGameStarted _ _ | EDetectiveResult _ _ _ | EReconnected _ _ _ _ => true
  | _ => false
  end.

Definition discreet (s s' : Server) : Prop :=
  sends (fun e => isPrivate e = false) s s'.

(* ================================================================== *)
(** * Properties *)
(* ================================================================== *)

(** ** Keys and maps *)

#[export] Instance string_KeyLaws : KeyLaws string.
Proof. constructor. exact String.eqb_spec. Qed.

#[export] Instance undef_KeyLaws {K : Type} `{KeyLaws K} : KeyLaws (option K).
Proof.
  constructor. intros [a|] [b|]; simpl; try (constructor; congruence).
  destruct (keyb_spec a b); constructor; congruence.
Qed.

Section MapFacts.
Context {K V : Type} `{KeyLaws K}.
Implicit Types (k : K) (v : V) (m : list (K * V)).

Lemma keyb_refl k : keyb k k = true.
Proof. destruct (keyb_spec k k); congruence. Qed.

Lemma keyb_neq k k' : k <> k' -> keyb k k' = false.
Proof. intros; destruct (keyb_spec k k'); congruence. Qed.

Lemma keyb_eq k k' : keyb k k' = true -> k = k'.
Proof. intros; destruct (keyb_spec k k'); congruence. Qed.

Lemma get_set k k' v m :
  JsMap.get k (JsMap.set k' v m) = if keyb k k' then Some v else JsMap.get k m.
Proof.
  induction m as [|[k0 v0] m IH]; simpl.
  - destruct (keyb k k'); reflexivity.
  - destruct (keyb_spec k' k0) as [->|Hne]; simpl.
    + destruct (keyb k k0); reflexivity.
    + destruct (keyb_spec k k0) as [->|Hne'].
      * rewrite keyb_neq by congruence. reflexivity.
      * exact IH.
Qed.

Lemma get_set_same k v m : JsMap.get k (JsMap.set k v m) = Some v.
Proof. rewrite get_set, keyb_refl. reflexivity. Qed.

Lemma get_set_other k k' v m :
  k <> k' -> JsMap.get k (JsMap.set k' v m) = JsMap.get k m.
Proof. intros; rewrite get_set, keyb_neq by assumption. reflexivity. Qed.

Lemma get_In k v m : JsMap.get k m = Some v -> In (k, v) m.
Proof.
  induction m as [|[k0 v0] m IH]; simpl; [discriminate|].
  destruct (keyb_spec k k0) as [->|Hne]; intros E.
  - injection E as ->. now left.
  - right. auto.
Qed.

Lemma get_None_keys k m : JsMap.get k m = None <-> ~ In k (JsMap.keys m).
Proof.
  induction m as [|[k0 v0] m IH]; simpl; [tauto|].
  destruct (keyb_spec k k0) as [->|Hne]; split; intros E.
  - discriminate.
  - exfalso. apply E. now left.
  - intros [E'|E']; [congruence|]. now apply IH.
  - apply IH. tauto.
Qed.

Lemma In_get_some k v m : In (k, v) m -> exists v', JsMap.get k m = Some v'.
Proof.
  intros Hin. destruct (JsMap.get k m) eqn:E; [eauto|].
  apply get_None_keys in E. exfalso. apply E.
  unfold JsMap.keys. change k with (fst (k, v)). now apply in_map.
Qed.

Lemma set_fresh k v m : JsMap.get k m = None -> JsMap.set k v m = m ++ [(k, v)].
Proof.
  induction m as [|[k0 v0] m IH]; simpl; [reflexivity|].
  destruct (keyb k k0); [discriminate|]. intros E. now rewrite IH.
Qed.

Lemma In_set e k v m : In e (JsMap.set k v m) -> e = (k, v) \/ In e m.
Proof.
  induction m as [|[k0 v0] m IH]; simpl.
  - intros [<-|[]]. now left.
  - destruct (keyb k k0); simpl.
    + intros [<-|Hin]; auto.
    + intros [<-|Hin]; auto. destruct (IH Hin); auto.
Qed.

Lemma In_delete e k m : In e (JsMap.delete k m) -> In e m.
Proof.
  induction m as [|[k0 v0] m IH]; simpl; [tauto|].
  destruct (keyb k k0); simpl; [auto|]. intros [<-|Hin]; auto.
Qed.

Lemma length_set_present k v v0 m :
  JsMap.get k m = Some v0 -> length (JsMap.set k v m) = length m.
Proof.
  induction m as [|[k0 v1] m IH]; simpl; [discriminate|].
  destruct (keyb k k0); simpl; [reflexivity|]. intros E. now rewrite IH.
Qed.

Lemma length_set_le k v m : length (JsMap.set k v m) <= S (length m).
Proof.
  induction m as [|[k0 v1] m IH]; simpl; [lia|].
  destruct (keyb k k0); simpl; lia.
Qed.

Lemma length_delete_le k m : length (JsMap.delete k m) <= length m.
Proof.
  induction m as [|[k0 v1] m IH]; simpl; [lia|].
  destruct (keyb k k0); simpl; lia.
Qed.

Lemma length_delete_present k v0 m :
  JsMap.get k m = Some v0 -> S (length (JsMap.delete k m)) = length m.
Proof.
  induction m as [|[k0 v1] m IH]; simpl; [discriminate|].
  destruct (keyb k k0); simpl; [reflexivity|]. intros E. now rewrite IH.
Qed.

Lemma keys_set_present k v v0 m :
  JsMap.get k m = Some v0 -> JsMap.keys (JsMap.set k v m) = JsMap.keys m.
Proof.
  unfold JsMap.keys.
  induction m as [|[k0 v1] m IH]; simpl; [discriminate|].
  destruct (keyb_spec k k0) as [->|Hne]; simpl; [reflexivity|].
  intros E. now rewrite IH.
Qed.
End MapFacts.

(** ** Win condition *)

Lemma filter_filter_andb {A : Type} (f g : A -> bool) (l : list A) :
  filter g (filter f l) = filter (fun x => f x && g x) l.
Proof.
  induction l as [|x l IH]; simpl; [reflexivity|].
  destruct (f x); simpl; [destruct (g x)|]; now rewrite IH.
Qed.

Lemma checkWinCondition_counts (room : Room) :
  checkWinCondition room =
  if livingMafia room =? 0 then Some town_wins
  else if livingTown room <=? livingMafia room then Some mafia_wins
  else None.
Proof.
  unfold checkWinCondition, getAlivePlayers, livingMafia, livingTown.
  now rewrite !filter_filter_andb.
Qed.

(** C4. The win check reads the living roster only: no living mafia is a town
    win; otherwise living mafia at least as many as living non-mafia is a mafia
    win; otherwise there is no winner.  Two rooms with the same living players
    get the same verdict.  Two against two is a mafia win, one against two is
    no winner. *)
Theorem win_check_from_living_roster (room : Room) :
  (livingMafia room = 0 -> checkWinCondition room = Some town_wins)
  /\ (0 < livingMafia room -> livingTown room <= livingMafia room ->
      checkWinCondition room = Some mafia_wins)
  /\ (0 < livingMafia room -> livingMafia room < livingTown room ->
      checkWinCondition room = None)
  /\ (forall room', getAlivePlayers room' = getAlivePlayers room ->
                    checkWinCondition room' = checkWinCondition room)
  /\ (livingMafia room = 2 -> livingTown room = 2 ->
      checkWinCondition room = Some mafia_wins)
  /\ (livingMafia room = 1 -> livingTown room = 2 ->
      checkWinCondition room = None).
Proof.
  rewrite checkWinCondition_counts.
  repeat split.
  - intros ->. reflexivity.
  - intros Hm Ht. destruct (livingMafia room =? 0) eqn:E.
    + apply Nat.eqb_eq in E. lia.
    + apply Nat.leb_le in Ht. now rewrite Ht.
  - intros Hm Ht. destruct (livingMafia room =? 0) eqn:E.
    + apply Nat.eqb_eq in E. lia.
    + destruct (livingTown room <=? livingMafia room) eqn:E'; [|reflexivity].
      apply Nat.leb_le in E'. lia.
  - intros room' Hsame. rewrite <- checkWinCondition_counts.
    unfold checkWinCondition. now rewrite Hsame.
  - intros -> ->. reflexivity.
  - intros -> ->. reflexivity.
Qed.

(** ** Role assignment *)

Lemma keys_app {K V : Type} (a b : list (K * V)) :
  JsMap.keys (a ++ b) = JsMap.keys a ++ JsMap.keys b.
Proof. unfold JsMap.keys. apply map_app. Qed.

Lemma set_next_player (r : Role) (pre : list string) (x : string)
    (acc : list (option string * Role)) :
  ~ In x pre -> JsMap.keys acc = map Some pre ->
  JsMap.set (Some x) r acc = acc ++ [(Some x, r)]
  /\ JsMap.keys (acc ++ [(Some x, r)]) = map Some (pre ++ [x]).
Proof.
  intros Hx Hk. split.
  - apply set_fresh. apply get_None_keys. rewrite Hk.
    intros Hin. apply in_map_iff in Hin as (y & [= ->] & Hy). contradiction.
  - rewrite keys_app, Hk, map_app. reflexivity.
Qed.

Lemma nth_error_middle {A : Type} (pre : list A) (x : A) (post : list A) :
  nth_error (pre ++ x :: post) (length pre) = Some x.
Proof. induction pre; simpl; auto. Qed.

Lemma NoDup_middle_fresh {A : Type} (pre : list A) (x : A) (post : list A) :
  NoDup (pre ++ x :: post) -> ~ In x pre.
Proof.
  intros Hnd Hin. apply NoDup_remove_2 in Hnd. apply Hnd.
  apply in_or_app. now left.
Qed.

Lemma assignMafia_appends (shuffled : list string) :
  NoDup shuffled ->
  forall mid pre rest acc,
    shuffled = pre ++ mid ++ rest ->
    JsMap.keys acc = map Some pre ->
    assignMafia shuffled (length mid) (length pre) acc
    = (length pre + length mid, acc ++ map (fun x => (Some x, mafia)) mid).
Proof.
  intros Hnd mid. induction mid as [|x mid IH]; intros pre rest acc Hs Hk; simpl.
  - now rewrite Nat.add_0_r, app_nil_r.
  - assert (Hx : ~ In x pre).
    { rewrite Hs in Hnd. simpl in Hnd. now apply NoDup_middle_fresh in Hnd. }
    destruct (set_next_player mafia pre x acc Hx Hk) as [Hset Hk'].
    assert (Hn : nth_error shuffled (length pre) = Some x).
    { rewrite Hs. simpl. apply nth_error_middle. }
    rewrite Hn, Hset.
    replace (S (length pre)) with (length (pre ++ [x]))
      by (rewrite length_app; simpl; lia).
    rewrite (IH (pre ++ [x]) rest); [| rewrite Hs, <- app_assoc; reflexivity | exact Hk'].
    rewrite length_app, <- app_assoc. simpl. f_equal. lia.
Qed.

Lemma assignCitizens_appends (shuffled : list string) :
  NoDup shuffled ->
  forall mid pre acc fuel,
    shuffled = pre ++ mid ->
    JsMap.keys acc = map Some pre ->
    length mid <= fuel ->
    assignCitizens shuffled (length shuffled) fuel (length pre) acc
    = acc ++ map (fun x => (Some x, citizen)) mid.
Proof.
  intros Hnd mid. induction mid as [|x mid IH]; intros pre acc fuel Hs Hk Hf.
  - rewrite app_nil_r in Hs. subst pre. rewrite app_nil_r.
    destruct fuel; simpl; [reflexivity|]. now rewrite Nat.ltb_irrefl.
  - destruct fuel as [|fuel]; [simpl in Hf; lia|]. simpl.
    assert (Hlt : (length pre <? length shuffled) = true).
    { apply Nat.ltb_lt. rewrite Hs, length_app. simpl. lia. }
    rewrite Hlt.
    assert (Hx : ~ In x pre).
    { rewrite Hs in Hnd. now apply NoDup_middle_fresh in Hnd. }
    destruct (set_next_player citizen pre x acc Hx Hk) as [Hset Hk'].
    assert (Hn : nth_error shuffled (length pre) = Some x).
    { rewrite Hs. apply nth_error_middle. }
    rewrite Hn, Hset.
    replace (S (length pre)) with (length (pre ++ [x]))
      by (rewrite length_app; simpl; lia).
    rewrite (IH (pre ++ [x])); [| rewrite Hs, <- app_assoc; reflexivity
                                | exact Hk' | simpl in Hf; lia].
    rewrite <- app_assoc. reflexivity.
Qed.

Lemma countRole_app (r : Role) (a b : list (option string * Role)) :
  countRole r (a ++ b) = countRole r a + countRole r b.
Proof. unfold countRole. now rewrite filter_app, length_app. Qed.

Lemma countRole_entries (r r' : Role) (l : list string) :
  countRole r (map (fun x => (Some x, r')) l)
  = (if Role_eqb r' r then length l else 0).
Proof.
  unfold countRole. induction l as [|x l IH]; simpl.
  - now destruct (Role_eqb r' r).
  - destruct (Role_eqb r' r); simpl; now rewrite IH.
Qed.

(** The role map of a roster of at least four distinct players, spelled out:
    the first [max 1 (n * 33 / 100)] of the shuffled order are mafia, the
    next is the doctor, the next the detective when [n > 4], the rest
    citizens. *)
Lemma assignRoles_layout (playerIds shuffled : list string) :
  4 <= length playerIds -> NoDup playerIds -> Permutation playerIds shuffled ->
  exists mafias doc dets cits,
    shuffled = mafias ++ doc :: dets ++ cits
    /\ length mafias = Nat.max 1 (length playerIds * 33 / 100)
    /\ length dets = (if 4 <? length playerIds then 1 else 0)
    /\ assignRoles playerIds shuffled
       = map (fun x => (Some x, mafia)) mafias
         ++ (Some doc, doctor)
            :: map (fun x => (Some x, detective)) dets
            ++ map (fun x => (Some x, citizen)) cits.
Proof.
  intros Hn Hnd Hperm.
  assert (Hlen : length shuffled = length playerIds)
    by (symmetry; now apply Permutation_length).
  assert (Hnd' : NoDup shuffled) by (eapply Permutation_NoDup; eauto).
  set (n := length playerIds) in *.
  set (m := Nat.max 1 (n * 33 / 100)).
  assert (Hm : m + 2 <= n /\ (4 < n -> m + 3 <= n)).
  { assert (n * 33 / 100 * 100 <= n * 33)
      by (pose proof (Nat.Div0.mul_div_le (n * 33) 100); lia).
    unfold m. lia. }
  destruct Hm as [Hm Hm5].
  set (mafias := firstn m shuffled).
  assert (Hml : length mafias = m) by (unfold mafias; rewrite length_firstn; lia).
  destruct (skipn m shuffled) as [|doc rest] eqn:Hskip.
  { apply (f_equal (@length _)) in Hskip. rewrite length_skipn in Hskip.
    simpl in Hskip. lia. }
  assert (Hs : shuffled = mafias ++ doc :: rest).
  { unfold mafias. rewrite <- Hskip. symmetry. apply firstn_skipn. }
  assert (Hrl : length rest + m + 1 = n).
  { apply (f_equal (@length _)) in Hs. rewrite length_app in Hs. simpl in Hs. lia. }
  assert (Hmaf : assignMafia shuffled m 0 []
                 = (m, map (fun x => (Some x, mafia)) mafias)).
  { pose proof (assignMafia_appends shuffled Hnd' mafias [] (doc :: rest) []
                  Hs eq_refl) as Hrun.
    simpl in Hrun. now rewrite Hml in Hrun. }
  assert (Hkm : JsMap.keys (map (fun x => (Some x, mafia)) mafias) = map Some mafias).
  { unfold JsMap.keys. rewrite map_map. reflexivity. }
  assert (Hdoc : ~ In doc mafias).
  { rewrite Hs in Hnd'. now apply NoDup_middle_fresh in Hnd'. }
  destruct (set_next_player doctor mafias doc _ Hdoc Hkm) as [Hsetd Hkd].
  assert (Hnd_doc : nth_error shuffled m = Some doc).
  { rewrite Hs, <- Hml. apply nth_error_middle. }
  unfold assignRoles. fold n. unfold mafiaCountOf. fold m. rewrite Hmaf.
  assert (E1 : (m <? n) = true) by (apply Nat.ltb_lt; lia).
  rewrite E1. simpl andb. cbv iota. rewrite Hnd_doc, Hsetd.
  destruct (4 <? n) eqn:E4.
  - apply Nat.ltb_lt in E4. specialize (Hm5 E4).
    destruct rest as [|det cits]; [simpl in Hrl; lia|].
    assert (E2 : (S m <? n) = true) by (apply Nat.ltb_lt; lia).
    rewrite E2. simpl andb. cbv iota.
    assert (Hs2 : shuffled = (mafias ++ [doc]) ++ det :: cits)
      by (rewrite Hs, <- app_assoc; reflexivity).
    assert (Hdet : ~ In det (mafias ++ [doc])).
    { rewrite Hs2 in Hnd'. now apply NoDup_middle_fresh in Hnd'. }
    destruct (set_next_player detective _ det _ Hdet Hkd) as [Hsett Hkt].
    assert (Hnt : nth_error shuffled (S m) = Some det).
    { rewrite Hs2. replace (S m) with (length (mafias ++ [doc]))
        by (rewrite length_app; simpl; lia). apply nth_error_middle. }
    rewrite Hnt, Hsett.
    exists mafias, doc, [det], cits. repeat split; auto.
    replace (S (S m)) with (length ((mafias ++ [doc]) ++ [det]))
      by (rewrite !length_app; simpl; lia).
    fold n in Hlen. rewrite <- Hlen.
    rewrite (assignCitizens_appends shuffled Hnd' cits);
      [ | rewrite Hs, <- !app_assoc; reflexivity | exact Hkt
        | rewrite !length_app; simpl; simpl in Hrl; lia ].
    rewrite <- !app_assoc. reflexivity.
  - simpl andb. cbv iota.
    exists mafias, doc, [], rest. repeat split; auto.
    replace (S m) with (length (mafias ++ [doc]))
      by (rewrite length_app; simpl; lia).
    fold n in Hlen. rewrite <- Hlen.
    rewrite (assignCitizens_appends shuffled Hnd' rest);
      [ | rewrite Hs, <- !app_assoc; reflexivity | exact Hkd
        | rewrite !length_app; simpl; lia ].
    rewrite <- !app_assoc. reflexivity.
Qed.

(** C5. For at least four distinct players, [assignRoles] gives every player
    exactly one role: the keys of the role map are the players, each once; and
    it hands out exactly [max 1 (floor (n * 0.33))] mafia, one doctor, one
    detective when [n > 4] and none otherwise, and citizens for the rest. *)
Theorem assignRoles_exact_counts (playerIds shuffled : list string) :
  4 <= length playerIds -> NoDup playerIds -> Permutation playerIds shuffled ->
  let n := length playerIds in
  let roleMap := assignRoles playerIds shuffled in
  Permutation (JsMap.keys roleMap) (map Some playerIds)
  /\ NoDup (JsMap.keys roleMap)
  /\ (forall p, In p playerIds -> exists r, JsMap.get (Some p) roleMap = Some r)
  /\ countRole mafia roleMap = Nat.max 1 (n * 33 / 100)
  /\ countRole doctor roleMap = 1
  /\ countRole detective roleMap = (if 4 <? n then 1 else 0)
  /\ countRole citizen roleMap
     = n - Nat.max 1 (n * 33 / 100) - 1 - (if 4 <? n then 1 else 0).
Proof.
  intros Hn Hnd Hperm n roleMap.
  destruct (assignRoles_layout playerIds shuffled Hn Hnd Hperm)
    as (mafias & doc & dets & cits & Hs & Hm & Hd & Hrun).
  fold n in Hm, Hd. fold roleMap in Hrun.
  assert (Hkeys : JsMap.keys roleMap = map Some shuffled).
  { rewrite Hrun, Hs. unfold JsMap.keys.
    rewrite !map_app. simpl. rewrite !map_app, !map_map. reflexivity. }
  assert (Hpk : Permutation (JsMap.keys roleMap) (map Some playerIds)).
  { rewrite Hkeys. apply Permutation_map. now symmetry. }
  assert (Hlen : length shuffled = n) by (symmetry; now apply Permutation_length).
  assert (Hcits : length cits = n - length mafias - 1 - length dets).
  { rewrite <- Hlen, Hs. rewrite !length_app. simpl. rewrite length_app. lia. }
  split; [exact Hpk|]. split.
  { eapply Permutation_NoDup; [symmetry; exact Hpk|].
    apply Finite.Injective_map_NoDup; [intros a b [=]; assumption | exact Hnd]. }
  split.
  { intros p Hp. destruct (JsMap.get (Some p) roleMap) eqn:E; [eauto|].
    apply get_None_keys in E. exfalso. apply E.
    eapply Permutation_in; [symmetry; exact Hpk|]. now apply in_map. }
  rewrite Hrun.
  repeat (rewrite countRole_app
          || rewrite countRole_entries
          || (change ((Some doc, doctor)
                        :: map (fun x => (Some x, detective)) dets
                        ++ map (fun x => (Some x, citizen)) cits)
                with ([(Some doc, doctor)]
                        ++ map (fun x => (Some x, detective)) dets
                        ++ map (fun x => (Some x, citizen)) cits))).
  rewrite <- Hm, <- Hd. unfold countRole. simpl.
  repeat split; lia.
Qed.

(** A five-player roster, already in shuffled order. *)
Lemma assignRoles_exact_counts_witness :
  4 <= length ["a"; "b"; "c"; "d"; "e"]
  /\ NoDup ["a"; "b"; "c"; "d"; "e"]
  /\ countRole mafia (assignRoles ["a"; "b"; "c"; "d"; "e"] ["a"; "b"; "c"; "d"; "e"]) = 1
  /\ countRole doctor (assignRoles ["a"; "b"; "c"; "d"; "e"] ["a"; "b"; "c"; "d"; "e"]) = 1
  /\ countRole detective (assignRoles ["a"; "b"; "c"; "d"; "e"] ["a"; "b"; "c"; "d"; "e"]) = 1
  /\ countRole citizen (assignRoles ["a"; "b"; "c"; "d"; "e"] ["a"; "b"; "c"; "d"; "e"]) = 2.
Proof.
  assert (H4 : 4 <= length ["a"; "b"; "c"; "d"; "e"]) by (simpl; lia).
  assert (Hnd : NoDup ["a"; "b"; "c"; "d"; "e"]).
  { repeat constructor; simpl; intuition discriminate. }
  destruct (assignRoles_exact_counts _ _ H4 Hnd (Permutation_refl _))
    as (_ & _ & _ & Hm & Hd & Ht & Hc).
  repeat split; assumption.
Defined.

(** ** Tallies *)

Section MapNoDup.
Context {K V : Type} `{KeyLaws K}.

Lemma keys_set_incl (k k0 : K) (v : V) (m : list (K * V)) :
  In k0 (JsMap.keys (JsMap.set k v m)) -> k0 = k \/ In k0 (JsMap.keys m).
Proof.
  unfold JsMap.keys. intros Hin. apply in_map_iff in Hin as ([k1 v1] & <- & Hin).
  apply In_set in Hin as [[= -> ->]|Hin]; [now left|].
  right. change k1 with (fst (k1, v1)). now apply in_map.
Qed.

Lemma NoDup_keys_set (k : K) (v : V) (m : list (K * V)) :
  NoDup (JsMap.keys m) -> NoDup (JsMap.keys (JsMap.set k v m)).
Proof.
  induction m as [|[k0 v0] m IH]; simpl; intros Hnd.
  - repeat constructor. simpl. tauto.
  - inversion Hnd as [|? ? Hnotin Hnd']; subst.
    destruct (keyb_spec k k0) as [->|Hne]; simpl.
    + now constructor.
    + constructor; [|now apply IH].
      intros Hin. apply keys_set_incl in Hin as [->|Hin]; congruence.
Qed.

Lemma NoDup_keys_delete (k : K) (m : list (K * V)) :
  NoDup (JsMap.keys m) -> NoDup (JsMap.keys (JsMap.delete k m)).
Proof.
  induction m as [|[k0 v0] m IH]; simpl; intros Hnd; [constructor|].
  inversion Hnd as [|? ? Hnotin Hnd']; subst.
  destruct (keyb k k0); simpl; [assumption|].
  constructor; [|now apply IH].
  intros Hin. apply Hnotin. unfold JsMap.keys in *.
  apply in_map_iff in Hin as (e & <- & Hin). apply in_map.
  eapply In_delete; eauto.
Qed.

Lemma In_get_NoDup (k : K) (v : V) (m : list (K * V)) :
  NoDup (JsMap.keys m) -> In (k, v) m -> JsMap.get k m = Some v.
Proof.
  induction m as [|[k0 v0] m IH]; simpl; intros Hnd Hin; [contradiction|].
  inversion Hnd as [|? ? Hnotin Hnd']; subst.
  destruct Hin as [[= -> ->]|Hin].
  - now rewrite keyb_refl.
  - destruct (keyb_spec k k0) as [->|Hne]; [|now apply IH].
    exfalso. apply Hnotin. change k0 with (fst (k0, v)). now apply in_map.
Qed.
End MapNoDup.

Lemma tallyCount_add (tally : list (string * nat)) (x c : string) :
  tallyCount (countAdd tally x) c
  = tallyCount tally c + (if string_dec x c then 1 else 0).
Proof.
  unfold countAdd, tallyCount. rewrite get_set. simpl.
  destruct (String.eqb_spec c x) as [->|Hne].
  - destruct (string_dec x x); [|congruence].
    destruct (JsMap.get x tally); lia.
  - destruct (string_dec x c); [congruence|]. lia.
Qed.

Lemma tallyCount_fold (l : list string) (tally : list (string * nat)) (c : string) :
  tallyCount (fold_left countAdd l tally) c = tallyCount tally c + votesIn l c.
Proof.
  revert tally. induction l as [|x l IH]; intros tally; simpl; [lia|].
  rewrite IH, tallyCount_add. unfold votesIn. simpl.
  destruct (string_dec x c); lia.
Qed.

(** ** The server state under the basic operations *)

Lemma rooms_clearRoomTimer room s : rooms (clearRoomTimer room s) = rooms s.
Proof. unfold clearRoomTimer. now destruct (timer room). Qed.

Lemma clock_clearRoomTimer room s : clock (clearRoomTimer room s) = clock s.
Proof. unfold clearRoomTimer. now destruct (timer room). Qed.

Lemma sockets_clearRoomTimer room s : sockets (clearRoomTimer room s) = sockets s.
Proof. unfold clearRoomTimer. now destruct (timer room). Qed.

Lemma everConnected_clearRoomTimer room s :
  everConnected (clearRoomTimer room s) = everConnected s.
Proof. unfold clearRoomTimer. now destruct (timer room). Qed.

Lemma emitted_clearRoomTimer room s : emitted (clearRoomTimer room s) = emitted s.
Proof. unfold clearRoomTimer. now destruct (timer room). Qed.

Lemma getRoom_clearRoomTimer code room s :
  getRoom code (clearRoomTimer room s) = getRoom code s.
Proof. unfold getRoom. now rewrite rooms_clearRoomTimer. Qed.

Lemma getRoom_putRoom_same code room s :
  getRoom code (putRoom code room s) = Some room.
Proof. unfold getRoom, putRoom. simpl. apply get_set_same. Qed.

Lemma getRoom_putRoom_other code code' room s :
  code <> code' -> getRoom code (putRoom code' room s) = getRoom code s.
Proof. intros. unfold getRoom, putRoom. simpl. now apply get_set_other. Qed.

Lemma getRoom_emit code e s : getRoom code (emit e s) = getRoom code s.
Proof. reflexivity. Qed.

Lemma getRoom_setTimeout code cb delay s :
  getRoom code (snd (setTimeout cb delay s)) = getRoom code s.
Proof. reflexivity. Qed.

Create Rewrite HintDb server.

#[local] Hint Rewrite rooms_clearRoomTimer clock_clearRoomTimer
  sockets_clearRoomTimer everConnected_clearRoomTimer emitted_clearRoomTimer
  getRoom_clearRoomTimer getRoom_putRoom_same getRoom_emit getRoom_setTimeout
  : server.


(** ** Day vote *)


(** C3. The strict top candidate is not lynched when the candidate has
    reconnected since the votes were cast.  In the open vote of five Bobby,
    seated under sB, holds three of the four votes; he reconnects and sits
    under sB2; the votes still name sB, and so does the result of
    [resolveDayVote]; when the vote timer fires nobody is seated under sB:
    nobody is lynched, and no lynch is announced. *)
Theorem lynch_lost_on_reconnect :
  stateVoteRekey = run voteRekey initialServer
  /\ getRoom "ROOM42" stateVoteRekey = Some roomVoteRekey
  /\ phase roomVoteRekey = vote
  /\ option_map (fun p => (name p, sessionId p))
                (JsMap.get "sB" (players roomVotingOpen)) = Some ("Bobby", "uB")
  /\ votes roomVoteRekey = [("sA", "sB"); ("sC", "sB"); ("sD", "sB"); ("sH", "sC")]
  /\ resolveDayVote roomVoteRekey = mkLynchResult (Some "sB")
  /\ JsMap.get "sB" (players roomVoteRekey) = None
  /\ option_map (fun p => (name p, sessionId p, alive p))
                (JsMap.get "sB2" (players roomVoteRekey))
     = Some ("Bobby", "uB", true)
  /\ findTimer 4 stateVoteRekey = Some (186000%Z, CbResolveVote "ROOM42")
  /\ (let s' := step 186000%Z (Fire 4 noDraw) stateVoteRekey in
      aliveFlags (roomAt "ROOM42" s')
      = [("sH", true); ("sA", true); ("sC", true); ("sD", true); ("sB2", true)]
      /\ lynchNotices "ROOM42" s' = []).
Proof. repeat split; vm_compute; reflexivity. Qed.

(** ** Night resolution *)



(** C2. Two nights that do not resolve as specified.  In the first, Alice has
    voted to kill David, nobody is saved, and David, alive, has reconnected
    since: he sits under sD2 while the vote names sD; when the night timer
    fires the outcome is [no_kill] and David stays alive.  In the second, David
    is the target and the doctor's save, and his grace has run out during the
    night, so he is dead already; when the night timer fires the outcome is
    [saved], with the cutscene of a rescue, and David stays dead. *)
Theorem night_resolution_misses_target :
  (stateNightRekey = run nightRekey initialServer
   /\ getRoom "ROOM42" stateNightRekey = Some roomNightRekey
   /\ phase roomNightRekey = night
   /\ option_map (fun p => (name p, sessionId p))
                 (JsMap.get "sD" (players (roomAt "ROOM42" stateLobbyOfFive)))
      = Some ("David", "uD")
   /\ mafiaVotes roomNightRekey = [mkMafiaVote "sA" "sD"]
   /\ doctorSave roomNightRekey = None
   /\ JsMap.get "sD" (players roomNightRekey) = None
   /\ option_map (fun p => (name p, sessionId p, alive p))
                 (JsMap.get "sD2" (players roomNightRekey))
      = Some ("David", "uD", true)
   /\ findTimer 1 stateNightRekey = Some (64000%Z, CbResolveNight "ROOM42")
   /\ (let s' := step 64000%Z (Fire 1 noDraw) stateNightRekey in
       narrated "ROOM42" outcome_no_kill stateNightRekey s'
       /\ aliveFlags (roomAt "ROOM42" s')
          = [("sH", true); ("sA", true); ("sB", true); ("sC", true);
             ("sD2", true)]))
  /\ (stateSavedDeadTarget = run savedDeadTarget initialServer
      /\ getRoom "ROOM42" stateSavedDeadTarget = Some roomSavedDeadTarget
      /\ phase roomSavedDeadTarget = night
      /\ mafiaVotes roomSavedDeadTarget = [mkMafiaVote "sA" "sD"]
      /\ doctorSave roomSavedDeadTarget = Some "sD"
      /\ option_map (fun p => (name p, alive p))
                    (JsMap.get "sD" (players roomSavedDeadTarget))
         = Some ("David", false)
      /\ findTimer 1 stateSavedDeadTarget
         = Some (64000%Z, CbResolveNight "ROOM42")
      /\ (let s' := step 64000%Z (Fire 1 noDraw) stateSavedDeadTarget in
          narrated "ROOM42" outcome_saved stateSavedDeadTarget s'
          /\ In (ECutscene "ROOM42" back_alley (Some "sD") true) (emitted s')
          /\ option_map alive (JsMap.get "sD" (players (roomAt "ROOM42" s')))
             = Some false)).
Proof.
  split.
  - repeat (split; [vm_compute; reflexivity|]). split; [|vm_compute; reflexivity].
    exists [], []. vm_compute. reflexivity.
  - repeat (split; [vm_compute; reflexivity|]).
    split; [|split; [|vm_compute; reflexivity]].
    + exists [ECutscene "ROOM42" back_alley (Some "sD") true], [].
      vm_compute. reflexivity.
    + vm_compute. repeat first [left; reflexivity | right].
Qed.

(** ** Night actions *)

Lemma Role_eqb_eq (a b : Role) : Role_eqb a b = true <-> a = b.
Proof. destruct a, b; simpl; split; intros E; congruence. Qed.

Lemma Role_eqb_neq (a b : Role) : Role_eqb a b = false <-> a <> b.
Proof. destruct a, b; simpl; split; intros E; congruence. Qed.



Lemma not_pending_clearTimeout (t : TimerId) (s : Server) :
  ~ isPending t (clearTimeout t s).
Proof.
  unfold isPending, clearTimeout. simpl. intros Hin.
  apply in_map_iff in Hin as (e & He & Hin). apply filter_In in Hin as [_ Hne].
  subst t. rewrite Nat.eqb_refl in Hne. discriminate.
Qed.






(** C7. The kill vote of a second mafia member is accepted and dropped.  In
    the night of seven Alice and Bobby are the living mafia; Alice has voted
    to kill Carol; Bobby, who has not submitted yet, votes to kill David: he
    is accepted and marked as submitted, but the list still holds Alice's vote
    only, one entry after two members voted.  The doctor and the detective act
    as well, so that every living role-holder has submitted; yet the check
    that looks for every living mafia member among the voters of the list
    finds the night incomplete, and the night waits for its timer. *)
Theorem second_kill_vote_not_recorded :
  stateOneKillVote = run oneKillVote initialServer
  /\ getRoom "ROOM42" stateOneKillVote = Some roomOneKillVote
  /\ option_map (fun p => (role p, alive p))
             (JsMap.get "sB" (players roomOneKillVote)) = Some (mafia, true)
  /\ set_has "sB" (nightActionsSubmitted roomOneKillVote) = false
  /\ recordNightAction "sB" "ROOM42" kill "sD" (set_clock 6000%Z stateOneKillVote)
     = inr stateTwoKillVotes
  /\ step 6000%Z (Message "sB" (night_action "ROOM42" kill "sD" noDraw))
          stateOneKillVote = stateTwoKillVotes
  /\ mafiaVotes (roomAt "ROOM42" stateTwoKillVotes) = [mkMafiaVote "sA" "sC"]
  /\ mafiaVotes (roomAt "ROOM42" stateTwoKillVotes)
     <> mafiaVotes roomOneKillVote ++ [mkMafiaVote "sB" "sD"]
  /\ nightActionsSubmitted (roomAt "ROOM42" stateTwoKillVotes) = ["sA"; "sB"]
  /\ length (mafiaVotes (roomAt "ROOM42" stateTwoKillVotes)) = 1
  /\ stateAllRolesActed = run allRolesActed initialServer
  /\ getRoom "ROOM42" stateAllRolesActed = Some roomAllRolesActed
  /\ map (fun kv => (fst kv, role (snd kv), alive (snd kv)))
         (players roomAllRolesActed)
     = [("sH", citizen, true); ("sA", mafia, true); ("sB", mafia, true);
        ("sC", doctor, true); ("sD", detective, true); ("sE", citizen, true);
        ("sF", citizen, true)]
  /\ nightActionsSubmitted roomAllRolesActed = ["sA"; "sB"; "sC"; "sD"]
  /\ mafiaVotes roomAllRolesActed = [mkMafiaVote "sA" "sC"]
  /\ nightActionsComplete roomAllRolesActed = false
  /\ phase roomAllRolesActed = night
  /\ pending stateAllRolesActed = [(1, (64000%Z, CbResolveNight "ROOM42"))].
Proof.
  repeat split; try (vm_compute; reflexivity). discriminate.
Qed.

(** ** Chat gate *)

Lemma app_one_inj {A : Type} (l : list A) (x y : A) : l ++ [x] = l ++ [y] -> x = y.
Proof. intros E. apply app_inv_head in E. now injection E. Qed.

Lemma app_nil_absurd {A : Type} (l : list A) (x : A) : l <> l ++ [x].
Proof.
  intros E. apply (f_equal (@length _)) in E. rewrite length_app in E.
  simpl in E. lia.
Qed.

(** The handler, case by case: what it takes for the chat line to go out, and
    that a sender who fails the gate leaves the rooms untouched. *)
Lemma chat_handler_gate (socket code text channel : string)
    (s : Server) :
  (chatAccepted socket code text channel s ->
   exists room player,
     getRoom code s = Some room
     /\ JsMap.get socket (players room) = Some player
     /\ (channel = "global" -> alive player = true)
     /\ (channel = "mafia" ->
         role player = mafia /\ 1 < length (getAliveMafia room)))
  /\ (forall room,
        getRoom code s = Some room ->
        (JsMap.get socket (players room) = None
         \/ exists player,
              JsMap.get socket (players room) = Some player
              /\ ((channel = "global" /\ alive player = false)
                  \/ (channel = "mafia"
                      /\ (role player <> mafia
                          \/ length (getAliveMafia room) <= 1)))) ->
        rooms (on_chat_message socket code text channel s) = rooms s
        /\ ~ chatAccepted socket code text channel s)
  /\ (getRoom code s = None -> on_chat_message socket code text channel s = s).
Proof.
  unfold chatAccepted, on_chat_message.
  destruct (getRoom code s) as [room|] eqn:Hget.
  2:{ split; [|split; [discriminate|reflexivity]].
      intros (t & E). now apply app_nil_absurd in E. }
  destruct (JsMap.get socket (players room)) as [player|] eqn:Hp.
  2:{ split; [|split; [|discriminate]].
      - intros (t & E). now apply app_nil_absurd in E.
      - intros room0 [= <-] _. split; [reflexivity|].
        intros (t & E). now apply app_nil_absurd in E. }
  assert (Hrej : forall (e : Emit) (s0 : Server),
             emitted s0 = emitted s -> (forall t, e <> EChat code socket channel t) ->
             ~ exists t, emitted (emit e s0) = emitted s ++ [EChat code socket channel t]).
  { intros e s0 Hs0 He (t & E). unfold emit in E. simpl in E. rewrite Hs0 in E.
    apply app_one_inj in E. now apply (He t). }
  split; [|split; [|discriminate]].
  - (* accepted: the gate was passed *)
    intros Hacc. exists room, player. split; [reflexivity|]. split; [exact Hp|].
    split.
    + intros ->. destruct (alive player); [reflexivity|]. simpl in Hacc.
      exfalso. apply (Hrej _ s eq_refl) in Hacc; [assumption | discriminate].
    + intros ->. rewrite andb_false_r in Hacc.
      destruct (Role_eqb (role player) mafia) eqn:Hrole; simpl in Hacc.
      * destruct (Nat.leb_spec (length (getAliveMafia room)) 1) as [Hle|Hgt].
        -- exfalso. apply (Hrej _ s eq_refl) in Hacc; [assumption | discriminate].
        -- apply Role_eqb_eq in Hrole. auto.
      * exfalso. apply (Hrej _ s eq_refl) in Hacc; [assumption | discriminate].
  - (* the gate fails: rooms untouched, nothing goes out *)
    intros room0 [= <-] Hfail. rewrite Hp in Hfail.
    destruct Hfail as [Hnone|(p & [= <-] & [[-> Hdead]|[-> Hm]])]; [discriminate| |].
    + rewrite Hdead. simpl. split; [reflexivity|].
      apply (Hrej _ s eq_refl). discriminate.
    + rewrite andb_false_r.
      destruct (Role_eqb (role player) mafia) eqn:Hrole; simpl.
      * destruct (Nat.leb_spec (length (getAliveMafia room)) 1) as [Hle|Hgt].
        -- split; [reflexivity|]. apply (Hrej _ s eq_refl). discriminate.
        -- apply Role_eqb_eq in Hrole. destruct Hm as [Hm|Hm]; [contradiction|lia].
      * split; [reflexivity|]. apply (Hrej _ s eq_refl). discriminate.
Qed.

(** ** Rosters that only shrink *)

Lemma shrinks_refl (r : Room) : shrinks r r.
Proof. unfold shrinks. repeat split; eauto 10. Qed.

Lemma shrinks_trans (r1 r2 r3 : Room) :
  shrinks r1 r2 -> shrinks r2 r3 -> shrinks r1 r3.
Proof.
  intros (Hn1 & Hl1 & Hm1) (Hn2 & Hl2 & Hm2). unfold shrinks.
  split; [auto|]. split; [lia|].
  intros k p3 Hin. destruct (Hm2 _ _ Hin) as (p2 & Hin2 & Hi2 & Hs2 & Hc2).
  destruct (Hm1 _ _ Hin2) as (p1 & Hin1 & Hi1 & Hs1 & Hc1).
  exists p1. repeat split; auto; congruence.
Qed.

Lemma shrinks_same_players (r r' : Room) : players r' = players r -> shrinks r r'.
Proof.
  intros E. unfold shrinks. rewrite E. repeat split; eauto 10.
Qed.

Lemma shrinks_set_present (r r' : Room) (k : string) (p p' : Player) :
  JsMap.get k (players r) = Some p ->
  id p' = id p -> sessionId p' = sessionId p ->
  (connected p = true -> connected p' = true) ->
  players r' = JsMap.set k p' (players r) ->
  shrinks r r'.
Proof.
  intros Hget Hid Hsess Hconn E. unfold shrinks. rewrite E.
  split; [apply NoDup_keys_set|].
  split; [rewrite (length_set_present _ _ _ _ Hget); lia|].
  intros k0 p0 Hin. apply In_set in Hin as [[= -> ->]|Hin].
  - exists p. split; [now apply get_In|]. auto.
  - exists p0. auto.
Qed.

Lemma shrinks_updPlayer (r : Room) (k : string) (f : Player -> Player) :
  (forall p, id (f p) = id p /\ sessionId (f p) = sessionId p
             /\ (connected p = true -> connected (f p) = true)) ->
  shrinks r (updPlayer k f r).
Proof.
  intros Hf. unfold updPlayer.
  destruct (JsMap.get k (players r)) as [p|] eqn:Hget; [|apply shrinks_refl].
  destruct (Hf p) as (Hi & Hs & Hc).
  eapply shrinks_set_present; eauto.
Qed.

Lemma shrinks_delete (r r' : Room) (k : string) :
  players r' = JsMap.delete k (players r) -> shrinks r r'.
Proof.
  intros E. unfold shrinks. rewrite E.
  split; [apply NoDup_keys_delete|]. split; [apply length_delete_le|].
  intros k0 p0 Hin. apply In_delete in Hin. exists p0. auto.
Qed.

Lemma shrinks_map (r r' : Room) (g : string * Player -> Player) :
  (forall kv, id (g kv) = id (snd kv) /\ sessionId (g kv) = sessionId (snd kv)
              /\ (connected (snd kv) = true -> connected (g kv) = true)) ->
  players r' = map (fun kv => (fst kv, g kv)) (players r) ->
  shrinks r r'.
Proof.
  intros Hg E. unfold shrinks. rewrite E. split; [|split].
  - unfold JsMap.keys. now rewrite map_map.
  - now rewrite length_map.
  - intros k p' Hin. apply in_map_iff in Hin as ([k0 p] & [= <- <-] & Hin).
    exists p. destruct (Hg (k0, p)) as (? & ? & ?). auto.
Qed.

Lemma shrinks_applyRoles (roleMap : list (option string * Role)) (r : Room) :
  shrinks r (applyRoles roleMap r).
Proof.
  unfold applyRoles. revert r.
  induction roleMap as [|[[k|] role0] roleMap IH]; intros r; simpl.
  - apply shrinks_refl.
  - eapply shrinks_trans; [|apply IH].
    apply shrinks_updPlayer. intros p. simpl. auto.
  - apply IH.
Qed.

Lemma players_promoteHost (socket : string) (r : Room) :
  players (promoteHost socket r) = players r.
Proof.
  unfold promoteHost.
  destruct (String.eqb (hostId r) socket && (0 <? JsMap.size (players r)));
    [|reflexivity].
  now destruct (JsMap.keys (players r)).
Qed.

Lemma shrinks_promoteHost (socket : string) (r : Room) :
  shrinks r (promoteHost socket r).
Proof. apply shrinks_same_players, players_promoteHost. Qed.

(** ** Servers whose rooms only shrink *)

Lemma evolves_refl (s : Server) : evolves s s.
Proof.
  unfold evolves. repeat split; auto. intros c r Hin. exists r.
  split; [assumption | apply shrinks_refl].
Qed.

Lemma evolves_trans (s1 s2 s3 : Server) :
  evolves s1 s2 -> evolves s2 s3 -> evolves s1 s3.
Proof.
  intros (Hs1 & He1 & Hn1 & Hr1) (Hs2 & He2 & Hn2 & Hr2). unfold evolves.
  split; [congruence|]. split; [congruence|]. split; [auto|].
  intros c r3 Hin. destruct (Hr2 _ _ Hin) as (r2 & Hin2 & Hsh2).
  destruct (Hr1 _ _ Hin2) as (r1 & Hin1 & Hsh1).
  exists r1. split; [assumption | eapply shrinks_trans; eauto].
Qed.

Lemma evolves_frame (s s' : Server) :
  rooms s' = rooms s -> sockets s' = sockets s ->
  everConnected s' = everConnected s -> evolves s s'.
Proof.
  intros Hr Hs He. unfold evolves. rewrite Hr. repeat split; auto.
  intros c r Hin. exists r. split; [assumption | apply shrinks_refl].
Qed.

Lemma evolves_putRoom (code : string) (r r' : Room) (s : Server) :
  getRoom code s = Some r -> shrinks r r' -> evolves s (putRoom code r' s).
Proof.
  intros Hget Hsh. unfold evolves, putRoom. simpl.
  split; [reflexivity|]. split; [reflexivity|].
  split; [apply NoDup_keys_set|].
  intros c x Hin. apply In_set in Hin as [[= -> ->]|Hin].
  - exists r. split; [now apply get_In | assumption].
  - exists x. split; [assumption | apply shrinks_refl].
Qed.

(** The usual shape of a handler's effect: some bookkeeping that leaves the
    rooms alone, then the mutated room written back. *)
Lemma evolves_put (code : string) (r r' : Room) (s s0 : Server) :
  getRoom code s = Some r -> shrinks r r' ->
  rooms s0 = rooms s -> sockets s0 = sockets s ->
  everConnected s0 = everConnected s ->
  evolves s (putRoom code r' s0).
Proof.
  intros Hget Hsh Hr Hs He.
  apply (evolves_trans s s0); [now apply evolves_frame|].
  apply (evolves_putRoom code r); [|assumption].
  unfold getRoom. now rewrite Hr.
Qed.

Lemma evolves_deleteRoom (code : string) (s : Server) :
  evolves s (deleteRoom code s).
Proof.
  unfold deleteRoom.
  set (s0 := match getRoom code s with
             | Some room => clearRoomTimer room s
             | None => s
             end).
  assert (H0 : rooms s0 = rooms s /\ sockets s0 = sockets s
               /\ everConnected s0 = everConnected s).
  { unfold s0. destruct (getRoom code s); autorewrite with server; auto. }
  destruct H0 as (Hr & Hs & He).
  unfold evolves. simpl. rewrite Hr, Hs, He.
  split; [reflexivity|]. split; [reflexivity|].
  split; [apply NoDup_keys_delete|].
  intros c r Hin. apply In_delete in Hin. exists r.
  split; [assumption | apply shrinks_refl].
Qed.

Lemma evolves_touchRoom (code : string) (s : Server) : evolves s (touchRoom code s).
Proof.
  unfold touchRoom. destruct (getRoom code s) as [room|] eqn:Hget;
    [|apply evolves_refl].
  apply (evolves_putRoom code room); [assumption|].
  now apply shrinks_same_players.
Qed.

Ltac frame :=
  repeat (simpl rooms; simpl sockets; simpl everConnected;
          autorewrite with server);
  try reflexivity.

Ltac evolve_put Hget :=
  eapply evolves_put; [exact Hget | | frame | frame | frame].

Lemma evolves_endGame (code : string) (winner : Winner) (s : Server) :
  evolves s (endGame code winner s).
Proof.
  unfold endGame. destruct (getRoom code s) as [room|] eqn:Hget;
    [|apply evolves_refl].
  eapply evolves_trans; [|apply evolves_touchRoom].
  evolve_put Hget. now apply shrinks_same_players.
Qed.

Lemma evolves_startDayPhase (code : string) (s : Server) :
  evolves s (startDayPhase code s).
Proof.
  unfold startDayPhase. destruct (getRoom code s) as [room|] eqn:Hget;
    [|apply evolves_refl].
  unfold setTimeout. evolve_put Hget. now apply shrinks_same_players.
Qed.

Lemma evolves_startVotePhase (code : string) (s : Server) :
  evolves s (startVotePhase code s).
Proof.
  unfold startVotePhase. destruct (getRoom code s) as [room|] eqn:Hget;
    [|apply evolves_refl].
  unfold setTimeout. evolve_put Hget. now apply shrinks_same_players.
Qed.

Lemma evolves_startNightPhase (code : string) (s : Server) :
  evolves s (startNightPhase code s).
Proof.
  unfold startNightPhase. destruct (getRoom code s) as [room|] eqn:Hget;
    [|apply evolves_refl].
  unfold setTimeout. evolve_put Hget. now apply shrinks_same_players.
Qed.

Lemma shrinks_kill (o : option string) (b : bool) (room : Room) :
  shrinks room
    (if b then match o with
               | Some k => updPlayer k (set_alive false) room
               | None => room
               end
     else room).
Proof.
  destruct b; [|apply shrinks_refl]. destruct o; [|apply shrinks_refl].
  apply shrinks_updPlayer. intros p. simpl. auto.
Qed.

Lemma evolves_resolveNightPhase (code : string) (d : Draws) (s : Server) :
  evolves s (resolveNightPhase code d s).
Proof.
  unfold resolveNightPhase. destruct (getRoom code s) as [room|] eqn:Hget;
    [|apply evolves_refl].
  destruct (negb (Phase_eqb (phase room) night)); [apply evolves_refl|].
  set (result := resolveNight room d).
  set (room1 := applyNightResult result room).
  match goal with
  | |- context [putRoom code room1 ?s0] => set (s1 := putRoom code room1 s0)
  end.
  assert (H1 : evolves s s1).
  { unfold s1. eapply evolves_put; [exact Hget | apply shrinks_kill | | | ];
      destruct (cutsceneVariant result);
      destruct (truthy (killedPlayerId result) && negb (saved result));
      try destruct (lookupPlayer (killedPlayerId result) room); reflexivity. }
  assert (Hget1 : getRoom code s1 = Some room1)
    by (unfold s1; now autorewrite with server).
  eapply evolves_trans; [exact H1|].
  destruct (checkWinCondition room1); [apply evolves_endGame|].
  unfold setTimeout. evolve_put Hget1. now apply shrinks_same_players.
Qed.

Lemma evolves_resolveVotePhase (code : string) (s : Server) :
  evolves s (resolveVotePhase code s).
Proof.
  unfold resolveVotePhase. destruct (getRoom code s) as [room|] eqn:Hget;
    [|apply evolves_refl].
  destruct (negb (Phase_eqb (phase room) vote)); [apply evolves_refl|].
  set (result := resolveDayVote room).
  set (room1 := applyLynch result room).
  match goal with
  | |- context [putRoom code room1 ?s0] => set (s1 := putRoom code room1 s0)
  end.
  assert (H1 : evolves s s1).
  { unfold s1. eapply evolves_put; [exact Hget | apply shrinks_kill | | | ];
      destruct (truthy (lynchedPlayerId result));
      try destruct (lookupPlayer (lynchedPlayerId result) room); reflexivity. }
  assert (Hget1 : getRoom code s1 = Some room1)
    by (unfold s1; now autorewrite with server).
  eapply evolves_trans; [exact H1|].
  destruct (checkWinCondition room1); [apply evolves_endGame|].
  unfold setTimeout. evolve_put Hget1. now apply shrinks_same_players.
Qed.

Lemma evolves_clearRoomTimer (room : Room) (s : Server) :
  evolves s (clearRoomTimer room s).
Proof. apply evolves_frame; now autorewrite with server. Qed.

Lemma evolves_emit (e : Emit) (s : Server) : evolves s (emit e s).
Proof. now apply evolves_frame. Qed.

Lemma evolves_checkNightActionsComplete (code : string) (d : Draws) (s : Server) :
  evolves s (checkNightActionsComplete code d s).
Proof.
  unfold checkNightActionsComplete. destruct (getRoom code s) as [room|];
    [|apply evolves_refl].
  destruct (negb (Phase_eqb (phase room) night)); [apply evolves_refl|].
  destruct (nightActionsComplete room); [|apply evolves_refl].
  eapply evolves_trans; [apply evolves_clearRoomTimer|].
  apply evolves_resolveNightPhase.
Qed.

Lemma evolves_recordNightAction socket code action target s :
  evolves s (match recordNightAction socket code action target s with
             | inl rejected => rejected
             | inr s1 => s1
             end).
Proof.
  unfold recordNightAction. destruct (getRoom code s) as [room|] eqn:Hget;
    [|apply evolves_emit].
  destruct (negb (Phase_eqb (phase room) night)); [apply evolves_emit|].
  destruct (JsMap.get socket (players room)) as [player|]; [|apply evolves_emit].
  destruct (negb (alive player)); [apply evolves_emit|].
  destruct (set_has socket (nightActionsSubmitted room)); [apply evolves_emit|].
  destruct (JsMap.get target (players room)) as [tp|]; [|apply evolves_emit].
  destruct (negb (alive tp)); [apply evolves_emit|].
  destruct action.
  - destruct (negb (Role_eqb (role player) mafia)); [apply evolves_emit|].
    destruct (String.eqb target socket); [apply evolves_emit|].
    destruct (length (mafiaVotes room) =? 0);
      (evolve_put Hget; now apply shrinks_same_players).
  - destruct (negb (Role_eqb (role player) doctor)); [apply evolves_emit|].
    evolve_put Hget; now apply shrinks_same_players.
  - destruct (negb (Role_eqb (role player) detective)); [apply evolves_emit|].
    evolve_put Hget; now apply shrinks_same_players.
Qed.

Lemma evolves_on_night_action socket code action target d s :
  evolves s (on_night_action socket code action target d s).
Proof.
  unfold on_night_action.
  pose proof (evolves_recordNightAction socket code action target s) as H.
  destruct (recordNightAction socket code action target s); [exact H|].
  eapply evolves_trans; [exact H|]. apply evolves_checkNightActionsComplete.
Qed.

Lemma evolves_on_day_vote socket code target s :
  evolves s (on_day_vote socket code target s).
Proof.
  unfold on_day_vote. destruct (getRoom code s) as [room|] eqn:Hget;
    [|apply evolves_emit].
  destruct (negb (Phase_eqb (phase room) vote)); [apply evolves_emit|].
  destruct (JsMap.get socket (players room)) as [voter|]; [|apply evolves_emit].
  destruct (negb (alive voter)); [apply evolves_emit|].
  destruct (JsMap.get target (players room)) as [tp|]; [|apply evolves_emit].
  destruct (negb (alive tp)); [apply evolves_emit|].
  destruct (String.eqb target socket); [apply evolves_emit|].
  match goal with
  | |- context [putRoom code ?r s] =>
      assert (H1 : evolves s (emit (EVoteUpdated code (voteUpdatePayload r))
                                   (putRoom code r s)))
        by (eapply evolves_trans; [|apply evolves_emit];
            evolve_put Hget; now apply shrinks_same_players)
  end.
  match goal with
  | |- evolves s (if ?c then _ else _) => destruct c; [|exact H1]
  end.
  eapply evolves_trans; [exact H1|].
  eapply evolves_trans; [apply evolves_clearRoomTimer|].
  apply evolves_resolveVotePhase.
Qed.

Lemma evolves_on_skip_discussion socket code s :
  evolves s (on_skip_discussion socket code s).
Proof.
  unfold on_skip_discussion. destruct (getRoom code s) as [room|];
    [|apply evolves_emit].
  destruct (negb (String.eqb (hostId room) socket)); [apply evolves_emit|].
  destruct (negb (Phase_eqb (phase room) day)); [apply evolves_emit|].
  eapply evolves_trans; [apply evolves_clearRoomTimer|].
  apply evolves_startVotePhase.
Qed.

Lemma evolves_on_play_again socket code s :
  evolves s (on_play_again socket code s).
Proof.
  unfold on_play_again. destruct (getRoom code s) as [room|] eqn:Hget;
    [|apply evolves_emit].
  destruct (negb (String.eqb (hostId room) socket)); [apply evolves_emit|].
  destruct (negb (Phase_eqb (phase room) ended)); [apply evolves_emit|].
  eapply evolves_trans; [|apply evolves_emit].
  eapply evolves_trans; [|apply evolves_touchRoom].
  evolve_put Hget.
  eapply shrinks_map; cycle 1; [reflexivity | intros p; simpl; auto].
Qed.

Lemma evolves_on_chat_message socket code text channel s :
  evolves s (on_chat_message socket code text channel s).
Proof.
  unfold on_chat_message. destruct (getRoom code s) as [room|] eqn:Hget;
    [|apply evolves_refl].
  destruct (JsMap.get socket (players room)) as [player|] eqn:Hp;
    [|apply evolves_refl].
  match goal with
  | |- evolves s (if ?c then _ else _) => destruct c; [apply evolves_emit|]
  end.
  match goal with
  | |- evolves s (match ?g with Some _ => _ | None => _ end) =>
      destruct g; [apply evolves_emit|]
  end.
  match goal with
  | |- context [putRoom code ?r s] =>
      assert (H1 : evolves s (putRoom code r s))
  end.
  { evolve_put Hget. eapply shrinks_set_present; [exact Hp| | | |reflexivity];
      destruct (5000 <? clock s - chatWindowStart player)%Z; simpl; auto. }
  match goal with
  | |- evolves s (if ?c then _ else _) => destruct c
  end.
  - eapply evolves_trans; [exact H1 | apply evolves_emit].
  - destruct (String.eqb (sanitizeText text) ""); [exact H1|].
    eapply evolves_trans; [exact H1|].
    eapply evolves_trans; [apply evolves_emit | apply evolves_touchRoom].
Qed.

Lemma gameStarted_emits_frame (l : list Player) (s : Server) :
  let s' := fold_left
              (fun s p => if set_has (id p) (sockets s)
                          then emit (EGameStarted (id p) (role p)) s else s) l s in
  rooms s' = rooms s /\ sockets s' = sockets s
  /\ everConnected s' = everConnected s /\ clock s' = clock s.
Proof.
  revert s. induction l as [|p l IH]; intros s; simpl; [auto|].
  destruct (set_has (id p) (sockets s)).
  - destruct (IH (emit (EGameStarted (id p) (role p)) s)) as (? & ? & ? & ?). auto.
  - apply IH.
Qed.

Lemma evolves_on_start_game socket code shuffled s :
  evolves s (on_start_game socket code shuffled s).
Proof.
  unfold on_start_game. destruct (getRoom code s) as [room|] eqn:Hget;
    [|apply evolves_emit].
  destruct (negb (String.eqb (hostId room) socket)); [apply evolves_emit|].
  destruct (started room); [apply evolves_emit|].
  destruct (JsMap.size (players room) <? MIN_PLAYERS); [apply evolves_emit|].
  match goal with
  | |- context [fold_left ?f ?l s] =>
      destruct (gameStarted_emits_frame l s) as (Hr & Hs & He & _);
      set (s0 := fold_left f l s) in *
  end.
  eapply evolves_trans; [|apply evolves_frame; reflexivity].
  eapply evolves_trans; [|apply evolves_touchRoom].
  eapply evolves_put; [exact Hget | | exact Hr | exact Hs | exact He].
  apply (shrinks_trans room (set_started true room));
    [now apply shrinks_same_players|].
  eapply shrinks_trans; [apply shrinks_applyRoles|].
  now apply shrinks_same_players.
Qed.

Lemma evolves_on_leave_room socket code s : evolves s (on_leave_room socket code s).
Proof. now apply evolves_frame. Qed.

Lemma evolves_graceExpired code socket session s :
  evolves s (graceExpired code socket session s).
Proof.
  unfold graceExpired. destruct (getRoom code s) as [room|] eqn:Hget;
    [|apply evolves_refl].
  destruct (JsMap.get socket (players room)) as [player|]; [|apply evolves_refl].
  destruct (negb (connected player)); [|apply evolves_refl].
  destruct (Phase_eqb (phase room) lobby).
  - match goal with
    | |- context [putRoom code ?r ?s0] =>
        assert (H1 : evolves s (putRoom code r s0))
    end.
    { evolve_put Hget. eapply shrinks_trans; [|apply shrinks_promoteHost].
      now apply (shrinks_delete _ _ socket). }
    match goal with
    | |- evolves s (if ?c then _ else _) => destruct c; [|exact H1]
    end.
    eapply evolves_trans; [exact H1 | apply evolves_deleteRoom].
  - match goal with
    | |- context [putRoom code ?r s] =>
        assert (H1 : evolves s (putRoom code r s))
    end.
    { evolve_put Hget. apply shrinks_updPlayer. intros p. simpl. auto. }
    match goal with
    | |- evolves s (match ?c with Some _ => _ | None => _ end) =>
        destruct c; [|exact H1]
    end.
    eapply evolves_trans; [exact H1 | apply evolves_endGame].
Qed.

Lemma evolves_cleanup_fold (l : list (string * Room)) (s : Server) :
  evolves s
    (fold_left
       (fun s entry =>
          if (ROOM_INACTIVITY_MS <? clock s - lastActivity (snd entry))%Z
          then deleteRoom (fst entry) s else s) l s).
Proof.
  revert s. induction l as [|e l IH]; intros s; simpl; [apply evolves_refl|].
  eapply evolves_trans; [|apply IH].
  destruct (ROOM_INACTIVITY_MS <? clock s - lastActivity (snd e))%Z;
    [apply evolves_deleteRoom | apply evolves_refl].
Qed.

Lemma evolves_cleanupInactive (s : Server) : evolves s (cleanupInactive s).
Proof. apply evolves_cleanup_fold. Qed.

Lemma evolves_runCallback (cb : Callback) (d : Draws) (s : Server) :
  evolves s (runCallback cb d s).
Proof.
  destruct cb; simpl.
  - apply evolves_startNightPhase.
  - apply evolves_resolveNightPhase.
  - apply evolves_startDayPhase.
  - apply evolves_startVotePhase.
  - apply evolves_resolveVotePhase.
  - apply evolves_graceExpired.
Qed.

(** ** The invariant of the event loop *)

Lemma keyed_shrinks (r r' : Room) : shrinks r r' -> keyedById r -> keyedById r'.
Proof.
  intros (_ & _ & Hm) Hk. unfold keyedById in *. rewrite Forall_forall in *.
  intros [k p'] Hin. simpl. destruct (Hm _ _ Hin) as (p & Hp & Hid & _).
  rewrite Hid. exact (Hk _ Hp).
Qed.

Lemma roomOK_shrinks (r r' : Room) : shrinks r r' -> roomOK r -> roomOK r'.
Proof.
  intros Hsh (Hk & Hn & Hl). split; [eapply keyed_shrinks; eauto|].
  destruct Hsh as (Hn' & Hl' & _). split; [auto | lia].
Qed.

Lemma serverOK_evolves (s s' : Server) : evolves s s' -> serverOK s -> serverOK s'.
Proof.
  intros (Hs & He & Hn & Hr) (Hnd & Hincl & Hrooms). unfold serverOK.
  rewrite Hs, He. split; [auto|]. split; [assumption|].
  intros c r' Hin. destruct (Hr _ _ Hin) as (r & Hinr & Hsh).
  destruct (Hrooms _ _ Hinr) as (Hok & Hseats).
  split; [eapply roomOK_shrinks; eauto|].
  intros k p' Hp'. destruct Hsh as (_ & _ & Hm).
  destruct (Hm _ _ Hp') as (p & Hp & _ & _ & Hconn).
  destruct (Hseats _ _ Hp) as (Hever & Hlive). auto.
Qed.

Lemma sessionsOf_shrinks (r r' : Room) :
  shrinks r r' -> incl (sessionsOf r') (sessionsOf r).
Proof.
  intros (_ & _ & Hm) x Hx. unfold sessionsOf, JsMap.values in *.
  rewrite map_map in *. apply in_map_iff in Hx as ([k p'] & <- & Hin).
  destruct (Hm _ _ Hin) as (p & Hp & _ & Hs & _). simpl. rewrite Hs.
  apply in_map_iff. exists (k, p). auto.
Qed.

Lemma noNewMember_evolves (s s' : Server) :
  NoDup (JsMap.keys (rooms s)) -> evolves s s' -> noNewMember s s'.
Proof.
  intros Hnd (_ & _ & _ & Hr) c r r' Hin Hin' _.
  destruct (Hr _ _ Hin') as (r0 & Hin0 & Hsh).
  assert (r0 = r).
  { apply (In_get_NoDup _ _ _ Hnd) in Hin. apply (In_get_NoDup _ _ _ Hnd) in Hin0.
    congruence. }
  subst r0. split; [apply Hsh | now apply sessionsOf_shrinks].
Qed.

Lemma set_has_In (x : string) (l : list string) : set_has x l = true <-> In x l.
Proof.
  unfold set_has. rewrite existsb_exists. split.
  - intros (y & Hy & E). apply String.eqb_eq in E. now subst.
  - intros Hin. exists x. split; [assumption | apply String.eqb_refl].
Qed.

(** One room written (new or replaced), everything else as before. *)
Lemma serverOK_set (s s1 : Server) (code : string) (r' : Room) :
  serverOK s ->
  roomOK r' ->
  (forall k p, In (k, p) (players r') ->
               In k (everConnected s) /\ (In k (sockets s) -> connected p = true)) ->
  rooms s1 = JsMap.set code r' (rooms s) ->
  sockets s1 = sockets s -> everConnected s1 = everConnected s ->
  serverOK s1.
Proof.
  intros (Hnd & Hincl & Hrooms) Hok Hseats Hr Hs He. unfold serverOK.
  rewrite Hr, Hs, He. split; [now apply NoDup_keys_set|]. split; [assumption|].
  intros c r Hin. apply In_set in Hin as [[= -> ->]|Hin]; [auto|].
  exact (Hrooms _ _ Hin).
Qed.

Lemma noNewMember_set (s s1 : Server) (code : string) (r' : Room) :
  NoDup (JsMap.keys (rooms s)) ->
  rooms s1 = JsMap.set code r' (rooms s) ->
  (forall r, getRoom code s = Some r -> started r = true ->
             length (players r') <= length (players r)
             /\ incl (sessionsOf r') (sessionsOf r)) ->
  noNewMember s s1.
Proof.
  intros Hnd Hr Hle c r r0 Hin Hin0 Hst. rewrite Hr in Hin0.
  apply In_set in Hin0 as [[= -> ->]|Hin0].
  - apply Hle; [|assumption]. now apply In_get_NoDup.
  - assert (r0 = r).
    { apply (In_get_NoDup _ _ _ Hnd) in Hin. apply (In_get_NoDup _ _ _ Hnd) in Hin0.
      congruence. }
    subst. split; [lia | apply incl_refl].
Qed.

Lemma noNewMember_same_rooms (s s' : Server) :
  NoDup (JsMap.keys (rooms s)) -> rooms s' = rooms s -> noNewMember s s'.
Proof.
  intros Hnd Hr c r r' Hin Hin' _. rewrite Hr in Hin'.
  assert (r' = r).
  { apply (In_get_NoDup _ _ _ Hnd) in Hin. apply (In_get_NoDup _ _ _ Hnd) in Hin'.
    congruence. }
  subst. split; [lia | apply incl_refl].
Qed.

Lemma noNewMember_then_evolves (s s1 s2 : Server) :
  noNewMember s s1 -> evolves s1 s2 -> noNewMember s s2.
Proof.
  intros H1 (_ & _ & _ & Hr) c r r2 Hin Hin2 Hst.
  destruct (Hr _ _ Hin2) as (r1 & Hin1 & Hsh).
  destruct (H1 _ _ _ Hin Hin1 Hst) as [Hl Hi].
  split; [destruct Hsh as (_ & Hl' & _); lia|].
  exact (incl_tran (sessionsOf_shrinks _ _ Hsh) Hi).
Qed.

Lemma roomOK_In_seat (s : Server) (c : string) (r : Room) :
  serverOK s -> getRoom c s = Some r ->
  roomOK r
  /\ forall k p, In (k, p) (players r) ->
                 In k (everConnected s) /\ (In k (sockets s) -> connected p = true).
Proof. intros (_ & _ & Hrooms) Hget. apply (Hrooms c). now apply get_In. Qed.

(** *** create_room *)

Lemma on_create_room_cases socket username av draws uuid s :
  evolves s (on_create_room socket username av draws uuid s)
  \/ exists uname code s1,
       getRoom code s = None
       /\ rooms s1
          = JsMap.set code
              (set_players
                 (JsMap.set socket (createPlayer socket uname av uuid (clock s)) [])
                 (newRoom code socket (clock s)))
              (rooms s)
       /\ sockets s1 = sockets s /\ everConnected s1 = everConnected s
       /\ evolves s1 (on_create_room socket username av draws uuid s).
Proof.
  unfold on_create_room.
  destruct (sanitizeUsername username) as [uname|]; [|left; apply evolves_emit].
  destruct (firstFreeCode draws s) as [code|] eqn:Hcode; [|left; apply evolves_refl].
  right. exists uname, code.
  exists (putRoom code
            (set_players
               (JsMap.set socket (createPlayer socket uname av uuid (clock s)) [])
               (newRoom code socket (clock s))) s).
  split; [|split; [reflexivity|]].
  - clear -Hcode. induction draws as [|c draws IH]; simpl in Hcode; [discriminate|].
    unfold JsMap.has in Hcode. destruct (JsMap.get c (rooms s)) eqn:E; [auto|].
    injection Hcode as <-. exact E.
  - split; [reflexivity|]. split; [reflexivity|]. now apply evolves_frame.
Qed.

Lemma createPlayer_roomOK socket uname av uuid now code :
  roomOK (set_players (JsMap.set socket (createPlayer socket uname av uuid now) [])
                      (newRoom code socket now)).
Proof.
  unfold roomOK, keyedById. simpl. repeat split.
  - repeat constructor.
  - repeat constructor. simpl. tauto.
  - unfold MAX_PLAYERS. lia.
Qed.

Lemma serverOK_on_create_room socket username av draws uuid s :
  serverOK s -> In socket (sockets s) ->
  serverOK (on_create_room socket username av draws uuid s)
  /\ noNewMember s (on_create_room socket username av draws uuid s).
Proof.
  intros Hok Hlive.
  destruct (on_create_room_cases socket username av draws uuid s)
    as [Hev|(uname & code & s1 & Hnone & Hr & Hs & He & Hev)].
  - split; [eapply serverOK_evolves; eauto|].
    apply noNewMember_evolves; [apply Hok | assumption].
  - assert (Hok1 : serverOK s1).
    { eapply serverOK_set; eauto; [apply createPlayer_roomOK|].
      intros k p [[= <- <-]|[]]. split; [|reflexivity].
      destruct Hok as (_ & Hincl & _). now apply Hincl. }
    split; [eapply serverOK_evolves; eauto|].
    eapply noNewMember_then_evolves; [|exact Hev].
    eapply noNewMember_set; [apply Hok | exact Hr|].
    intros r Hget. congruence.
Qed.

(** *** Seating a player *)

Lemma roomOK_seat (r : Room) (k : string) (p : Player) :
  roomOK r -> id p = k -> length (players r) < MAX_PLAYERS ->
  roomOK (set_players (JsMap.set k p (players r)) r).
Proof.
  intros (Hk & Hn & Hl) Hid Hlt. unfold roomOK, keyedById in *. simpl.
  split; [|split].
  - rewrite Forall_forall in *. intros e Hin.
    apply In_set in Hin as [->|Hin]; [exact Hid | now apply Hk].
  - now apply NoDup_keys_set.
  - pose proof (length_set_le k p (players r)). lia.
Qed.

Lemma seats_seat (s : Server) (m : Map Player) (k : string) (p : Player) :
  (forall k0 p0, In (k0, p0) m ->
                 In k0 (everConnected s) /\ (In k0 (sockets s) -> connected p0 = true)) ->
  In k (everConnected s) -> connected p = true ->
  forall k0 p0, In (k0, p0) (JsMap.set k p m) ->
                In k0 (everConnected s) /\ (In k0 (sockets s) -> connected p0 = true).
Proof.
  intros Hseats Hk Hc k0 p0 Hin. apply In_set in Hin as [[= -> ->]|Hin]; auto.
Qed.

(** *** join_room *)

Lemma on_join_room_rejects socket code username av uuid s room :
  getRoom (normalizeCode code) s = Some room ->
  started room = true \/ MAX_PLAYERS <= JsMap.size (players room) ->
  exists message,
    on_join_room socket code username av uuid s = emit (EError socket message) s.
Proof.
  intros Hget Hfull. unfold on_join_room. rewrite Hget.
  destruct (started room); [eauto|].
  destruct Hfull as [|Hfull]; [discriminate|].
  apply Nat.leb_le in Hfull. rewrite Hfull. eauto.
Qed.

Lemma on_join_room_cases socket code username av uuid s :
  evolves s (on_join_room socket code username av uuid s)
  \/ exists room uname s1,
       getRoom (normalizeCode code) s = Some room
       /\ started room = false
       /\ length (players room) < MAX_PLAYERS
       /\ rooms s1
          = JsMap.set (normalizeCode code)
              (set_players
                 (JsMap.set socket (createPlayer socket uname av uuid (clock s))
                            (players room)) room)
              (rooms s)
       /\ sockets s1 = sockets s /\ everConnected s1 = everConnected s
       /\ evolves s1 (on_join_room socket code username av uuid s).
Proof.
  unfold on_join_room.
  destruct (getRoom (normalizeCode code) s) as [room|] eqn:Hget;
    [|left; apply evolves_emit].
  destruct (started room) eqn:Hst; [left; apply evolves_emit|].
  destruct (Nat.leb_spec MAX_PLAYERS (JsMap.size (players room))) as [|Hlt];
    [left; apply evolves_emit|].
  destruct (sanitizeUsername username) as [uname|]; [|left; apply evolves_emit].
  match goal with
  | |- context [if ?c then emit _ s else _] => destruct c; [left; apply evolves_emit|]
  end.
  right. exists room, uname.
  exists (putRoom (normalizeCode code)
            (set_players
               (JsMap.set socket (createPlayer socket uname av uuid (clock s))
                          (players room)) room) s).
  repeat (split; [reflexivity || assumption|]).
  eapply evolves_trans; [|apply evolves_emit].
  eapply evolves_trans; [|apply evolves_touchRoom].
  now apply evolves_frame.
Qed.

Lemma serverOK_on_join_room socket code username av uuid s :
  serverOK s -> In socket (sockets s) ->
  serverOK (on_join_room socket code username av uuid s)
  /\ noNewMember s (on_join_room socket code username av uuid s).
Proof.
  intros Hok Hlive.
  destruct (on_join_room_cases socket code username av uuid s)
    as [Hev|(room & uname & s1 & Hget & Hst & Hlt & Hr & Hs & He & Hev)].
  - split; [eapply serverOK_evolves; eauto|].
    apply noNewMember_evolves; [apply Hok | assumption].
  - destruct (roomOK_In_seat s _ room Hok Hget) as [Hrok Hseats].
    assert (Hever : In socket (everConnected s)).
    { destruct Hok as (_ & Hincl & _). now apply Hincl. }
    assert (Hok1 : serverOK s1).
    { refine (serverOK_set s s1 _ _ Hok _ _ Hr Hs He).
      - now apply roomOK_seat.
      - simpl. now apply seats_seat. }
    split; [eapply serverOK_evolves; eauto|].
    eapply noNewMember_then_evolves; [|exact Hev].
    eapply noNewMember_set; [apply Hok | exact Hr|].
    intros r Hget'. congruence.
Qed.

(** *** reconnect_player *)

Lemma findBySession_In (session : string) (room : Room) (p : Player) :
  findBySession session room = Some p ->
  exists k, In (k, p) (players room) /\ sessionId p = session.
Proof.
  unfold findBySession. intros Hfind. apply find_some in Hfind as [Hin Hs].
  apply String.eqb_eq in Hs. unfold JsMap.values in Hin.
  apply in_map_iff in Hin as ([k q] & <- & Hin). eauto.
Qed.

Lemma on_reconnect_player_cases socket session code s :
  evolves s (on_reconnect_player socket session code s)
  \/ exists room found s1,
       getRoom code s = Some room
       /\ findBySession session room = Some found
       /\ rooms s1
          = JsMap.set code
              ((if String.eqb (hostId room) (id found)
                then set_hostId socket else fun r => r)
                 (set_players
                    (JsMap.set socket
                       (set_disconnectedAt None
                          (set_connected true (set_id socket found)))
                       (JsMap.delete (id found) (players room))) room))
              (rooms s)
       /\ sockets s1 = sockets s /\ everConnected s1 = everConnected s
       /\ evolves s1 (on_reconnect_player socket session code s).
Proof.
  unfold on_reconnect_player.
  destruct (getRoom code s) as [room|] eqn:Hget; [|left; apply evolves_emit].
  destruct (findBySession session room) as [found|] eqn:Hfind;
    [|left; apply evolves_emit].
  match goal with
  | |- context [if ?c then emit _ s else _] => destruct c; [left; apply evolves_emit|]
  end.
  right. exists room, found.
  match goal with
  | |- context [touchRoom code (putRoom code ?r ?s0)] => exists (putRoom code r s0)
  end.
  split; [reflexivity|]. split; [exact Hfind|].
  split; [simpl; now destruct (String.eqb (hostId room) (id found))|].
  split; [reflexivity|]. split; [reflexivity|].
  apply evolves_touchRoom.
Qed.

Lemma serverOK_on_reconnect_player socket session code s :
  serverOK s -> In socket (sockets s) ->
  serverOK (on_reconnect_player socket session code s)
  /\ noNewMember s (on_reconnect_player socket session code s).
Proof.
  intros Hok Hlive.
  destruct (on_reconnect_player_cases socket session code s)
    as [Hev|(room & found & s1 & Hget & Hfind & Hr & Hs & He & Hev)].
  - split; [eapply serverOK_evolves; eauto|].
    apply noNewMember_evolves; [apply Hok | assumption].
  - destruct (roomOK_In_seat s _ room Hok Hget) as [Hrok Hseats].
    assert (Hever : In socket (everConnected s)).
    { destruct Hok as (_ & Hincl & _). now apply Hincl. }
    destruct (findBySession_In _ _ _ Hfind) as (k & Hin & Hsess).
    assert (Hk : k = id found).
    { destruct Hrok as (Hkeyed & _). unfold keyedById in Hkeyed.
      rewrite Forall_forall in Hkeyed. symmetry. exact (Hkeyed _ Hin). }
    subst k.
    assert (Hgetf : JsMap.get (id found) (players room) = Some found).
    { apply In_get_NoDup; [apply Hrok | assumption]. }
    set (rdel := set_players (JsMap.delete (id found) (players room)) room).
    assert (Hdel : shrinks room rdel) by now apply (shrinks_delete _ _ (id found)).
    assert (Hlen : S (length (players rdel)) = length (players room)).
    { unfold rdel. simpl. eapply length_delete_present; eauto. }
    set (found' := set_disconnectedAt None (set_connected true (set_id socket found))).
    set (r1 := set_players (JsMap.set socket found' (players rdel)) rdel).
    assert (Hr1 : roomOK r1).
    { apply roomOK_seat; [eapply roomOK_shrinks; eauto | reflexivity |].
      destruct Hrok as (_ & _ & Hle). lia. }
    assert (Hseats1 : forall k p, In (k, p) (players r1) ->
              In k (everConnected s) /\ (In k (sockets s) -> connected p = true)).
    { unfold r1. simpl. apply seats_seat; auto.
      intros k0 p0 Hin0. apply In_delete in Hin0. now apply Hseats. }
    assert (Hsame : forall f : Room -> Room,
               (forall r, players (f r) = players r) ->
               roomOK (f r1)
               /\ (forall k p, In (k, p) (players (f r1)) ->
                     In k (everConnected s) /\ (In k (sockets s) -> connected p = true))
               /\ length (players (f r1)) <= length (players room)
               /\ incl (sessionsOf (f r1)) (sessionsOf room)).
    { intros f Hf. unfold roomOK, keyedById, sessionsOf. rewrite !Hf.
      split; [exact Hr1|]. split; [exact Hseats1|]. split.
      - pose proof (length_set_le socket found' (players rdel)) as Hset.
        unfold r1. simpl in *. lia.
      - intros x Hx. unfold JsMap.values in *. rewrite map_map in *.
        apply in_map_iff in Hx as ([k0 p0] & <- & Hin0). unfold r1 in Hin0.
        simpl in Hin0. apply In_set in Hin0 as [[= -> ->]|Hin0].
        + apply in_map_iff. exists (id found, found). auto.
        + apply In_delete in Hin0. apply in_map_iff. exists (k0, p0). auto. }
    assert (H1 : exists r', rooms s1 = JsMap.set code r' (rooms s)
                 /\ roomOK r'
                 /\ (forall k p, In (k, p) (players r') ->
                       In k (everConnected s) /\ (In k (sockets s) -> connected p = true))
                 /\ length (players r') <= length (players room)
                 /\ incl (sessionsOf r') (sessionsOf room)).
    { eexists. split; [exact Hr|].
      destruct (String.eqb (hostId room) (id found)).
      - apply (Hsame (set_hostId socket)). reflexivity.
      - apply (Hsame (fun r => r)). reflexivity. }
    destruct H1 as (r' & Hr' & Hrok' & Hseats' & Hlen' & Hincl').
    assert (Hok1 : serverOK s1)
      by exact (serverOK_set s s1 _ _ Hok Hrok' Hseats' Hr' Hs He).
    split; [eapply serverOK_evolves; eauto|].
    eapply noNewMember_then_evolves; [|exact Hev].
    eapply noNewMember_set; [apply Hok | exact Hr'|].
    intros r Hget'. rewrite Hget in Hget'. injection Hget' as <-. auto.
Qed.

(** *** disconnect *)

Lemma on_disconnect_cases (socket : string) (s : Server) :
  sockets (on_disconnect socket s) = sockets s
  /\ everConnected (on_disconnect socket s) = everConnected s
  /\ (rooms (on_disconnect socket s) = rooms s
      \/ exists code room player,
           getRoom code s = Some room
           /\ JsMap.get socket (players room) = Some player
           /\ rooms (on_disconnect socket s)
              = JsMap.set code
                  (set_players
                     (JsMap.set socket
                        (set_disconnectedAt (Some (clock s))
                           (set_connected false player))
                        (players room)) room)
                  (rooms s)).
Proof.
  unfold on_disconnect.
  destruct (JsMap.get socket (socketToRoom s)) as [code|]; [|auto].
  unfold handleDisconnect.
  destruct (getRoom code s) as [room|] eqn:Hget; [|auto].
  destruct (JsMap.get socket (players room)) as [player|] eqn:Hp; [|auto].
  split; [reflexivity|]. split; [reflexivity|].
  right. exists code, room, player. split; [exact Hget|]. split; [exact Hp|].
  unfold updPlayer. rewrite Hp. reflexivity.
Qed.

Lemma In_filter_neq (socket k : string) (l : list string) :
  In k (filter (fun x => negb (String.eqb x socket)) l) <-> In k l /\ k <> socket.
Proof.
  rewrite filter_In. split; intros [Hin Hne]; split; auto.
  - intros ->. rewrite String.eqb_refl in Hne. discriminate.
  - destruct (String.eqb_spec k socket); [contradiction|reflexivity].
Qed.

Lemma serverOK_disconnect (socket : string) (s : Server) :
  serverOK s ->
  serverOK (set_sockets (filter (fun x => negb (String.eqb x socket)) (sockets s))
                        (on_disconnect socket s))
  /\ noNewMember s
       (set_sockets (filter (fun x => negb (String.eqb x socket)) (sockets s))
                    (on_disconnect socket s)).
Proof.
  intros Hok. pose proof Hok as (Hnd & Hincl & Hrooms).
  destruct (on_disconnect_cases socket s) as (Hs & He & Hr).
  assert (Hold : forall c r k p, In (c, r) (rooms s) -> In (k, p) (players r) ->
            In k (everConnected s)
            /\ (In k (filter (fun x => negb (String.eqb x socket)) (sockets s)) ->
                connected p = true)).
  { intros c r k p Hin Hp. destruct (Hrooms _ _ Hin) as [_ Hseats].
    destruct (Hseats _ _ Hp) as [Hever Hlive]. split; [assumption|].
    intros Hk. apply In_filter_neq in Hk as [Hk _]. auto. }
  assert (Hincl' : incl (filter (fun x => negb (String.eqb x socket)) (sockets s))
                        (everConnected s)).
  { intros k Hk. apply In_filter_neq in Hk as [Hk _]. auto. }
  destruct Hr as [Hr|(code & room & player & Hget & Hp & Hr)].
  - split.
    + unfold serverOK. simpl. rewrite Hr, He.
      split; [assumption|]. split; [assumption|].
      intros c r Hin. split; [apply (Hrooms _ _ Hin)|]. intros k p. now apply (Hold c r).
    + now apply noNewMember_same_rooms.
  - set (player' := set_disconnectedAt (Some (clock s)) (set_connected false player)) in *.
    set (room' := set_players (JsMap.set socket player' (players room)) room) in *.
    destruct (roomOK_In_seat s _ room Hok Hget) as [(Hkeyed & Hndp & Hlen) Hseats].
    assert (Hinp : In (socket, player) (players room)) by now apply get_In.
    assert (Hrok' : roomOK room').
    { unfold roomOK, keyedById, room'. simpl. split; [|split].
      - unfold keyedById in Hkeyed. rewrite Forall_forall in *. intros e Hin.
        apply In_set in Hin as [->|Hin]; [|now apply Hkeyed].
        simpl. exact (Hkeyed _ Hinp).
      - now apply NoDup_keys_set.
      - now rewrite (length_set_present _ _ _ _ Hp). }
    split.
    + unfold serverOK. simpl. rewrite Hr, He.
      split; [now apply NoDup_keys_set|]. split; [assumption|].
      intros c r Hin. apply In_set in Hin as [[= -> ->]|Hin].
      * split; [exact Hrok'|]. intros k p Hkp. unfold room' in Hkp. simpl in Hkp.
        apply In_set in Hkp as [[= -> ->]|Hkp].
        -- split; [apply (Hseats _ _ Hinp)|].
           intros Hk. apply In_filter_neq in Hk as [_ Hk]. congruence.
        -- apply (Hold code room); [now apply get_In | assumption].
      * split; [apply (Hrooms _ _ Hin)|]. intros k p. now apply (Hold c r).
    + apply (noNewMember_set s _ code room'); [assumption | exact Hr|].
      intros r Hget' _. rewrite Hget in Hget'. injection Hget' as <-.
      unfold room'. simpl. rewrite (length_set_present _ _ _ _ Hp).
      split; [lia|].
      intros x Hx. unfold sessionsOf, JsMap.values in *. rewrite map_map in *.
      apply in_map_iff in Hx as ([k0 p0] & <- & Hin0). simpl in Hin0.
      apply In_set in Hin0 as [[= -> ->]|Hin0]; apply in_map_iff.
      * exists (socket, player). auto.
      * exists (k0, p0). auto.
Qed.

(** *** One turn of the event loop *)

Lemma serverOK_set_clock (now : Z) (s : Server) : serverOK s -> serverOK (set_clock now s).
Proof. apply serverOK_evolves. now apply evolves_frame. Qed.

Lemma serverOK_handle socket m s :
  serverOK s -> In socket (sockets s) ->
  serverOK (handle socket m s) /\ noNewMember s (handle socket m s).
Proof.
  intros Hok Hlive.
  assert (Hev : forall s', evolves s s' -> serverOK s' /\ noNewMember s s').
  { intros s' H. split; [eapply serverOK_evolves; eauto|].
    apply noNewMember_evolves; [apply Hok | assumption]. }
  destruct m; simpl.
  - now apply serverOK_on_create_room.
  - now apply serverOK_on_join_room.
  - apply Hev, evolves_on_start_game.
  - apply Hev, evolves_on_night_action.
  - apply Hev, evolves_on_day_vote.
  - apply Hev, evolves_on_skip_discussion.
  - apply Hev, evolves_on_play_again.
  - apply Hev, evolves_on_chat_message.
  - now apply serverOK_on_reconnect_player.
  - apply Hev, evolves_on_leave_room.
Qed.

Lemma serverOK_step (now : Z) (ev : Event) (s : Server) :
  serverOK s ->
  serverOK (step now ev s) /\ noNewMember s (step now ev s).
Proof.
  intros Hok0.
  assert (Hok : serverOK (set_clock now s)) by now apply serverOK_set_clock.
  assert (Hmem : forall s', noNewMember (set_clock now s) s' -> noNewMember s s').
  { intros s' H c r r'. exact (H c r r'). }
  assert (Hev : forall s', evolves (set_clock now s) s' ->
                           serverOK s' /\ noNewMember s s').
  { intros s' H. split; [eapply serverOK_evolves; eauto|].
    apply Hmem. apply noNewMember_evolves; [apply Hok | assumption]. }
  unfold step. set (s0 := set_clock now s) in *.
  destruct ev as [socket|socket m|socket|t d|].
  - (* Connect *)
    destruct (set_has socket (everConnected s0)) eqn:Hseen;
      [apply Hev, evolves_refl|].
    assert (Hnew : ~ In socket (everConnected s0)).
    { intros Hin. apply set_has_In in Hin. congruence. }
    destruct Hok as (Hnd & Hincl & Hrooms). split.
    + unfold serverOK. simpl. split; [assumption|]. split.
      * intros x [->|Hx]; [now left | right; now apply Hincl].
      * intros c r Hin. destruct (Hrooms _ _ Hin) as [Hrok Hseats].
        split; [assumption|]. intros k p Hkp.
        destruct (Hseats _ _ Hkp) as [Hever Hlive]. split; [now right|].
        intros [->|Hk]; [contradiction | auto].
    + apply Hmem. now apply noNewMember_same_rooms.
  - (* Message *)
    destruct (set_has socket (sockets s0)) eqn:Hlive; [|apply Hev, evolves_refl].
    apply set_has_In in Hlive.
    destruct (serverOK_handle socket m s0 Hok Hlive). auto.
  - (* Disconnect *)
    destruct (set_has socket (sockets s0)); [|apply Hev, evolves_refl].
    destruct (serverOK_disconnect socket s0 Hok). auto.
  - (* Fire *)
    destruct (findTimer t s0) as [[due cb]|]; [|apply Hev, evolves_refl].
    apply Hev. eapply evolves_trans; [|apply evolves_runCallback].
    now apply evolves_frame.
  - apply Hev, evolves_cleanupInactive.
Qed.

Lemma serverOK_initial : serverOK initialServer.
Proof.
  unfold serverOK, initialServer. simpl. split; [constructor|].
  split; [intros x []|]. intros c r [].
Qed.

Lemma serverOK_run (trace : list (Z * Event)) (s : Server) :
  serverOK s -> serverOK (run trace s).
Proof.
  unfold run. revert s. induction trace as [|[now ev] trace IH]; intros s Hok;
    simpl; [assumption|].
  apply IH. now apply serverOK_step.
Qed.

Lemma serverOK_reachable (s : Server) : reachable s -> serverOK s.
Proof. intros (trace & ->). apply serverOK_run, serverOK_initial. Qed.

(** C10. A join into a room that already holds 12 players, or whose game has
    started, is rejected with an error and leaves every room as it was.  In
    every state the event loop reaches no room holds more than 12 players; and
    no turn of the event loop (socket message, disconnect, timer, cleanup)
    gives a started room a new member: its roster does not grow and every
    session seated afterwards was seated before. *)
Theorem join_guard_and_roster_bounds :
  (forall socket code username av uuid s room,
      getRoom (normalizeCode code) s = Some room ->
      MAX_PLAYERS <= JsMap.size (players room) \/ started room = true ->
      rooms (on_join_room socket code username av uuid s) = rooms s
      /\ exists message,
           emitted (on_join_room socket code username av uuid s)
           = emitted s ++ [EError socket message])
  /\ (forall trace code room,
         getRoom code (run trace initialServer) = Some room ->
         JsMap.size (players room) <= 12)
  /\ (forall trace now ev code room room',
         getRoom code (run trace initialServer) = Some room ->
         started room = true ->
         getRoom code (step now ev (run trace initialServer)) = Some room' ->
         JsMap.size (players room') <= JsMap.size (players room)
         /\ incl (sessionsOf room') (sessionsOf room)).
Proof.
  split; [|split].
  - intros socket code username av uuid s room Hget Hfull.
    destruct (on_join_room_rejects socket code username av uuid s room Hget)
      as (message & ->); [tauto|].
    split; [reflexivity|]. exists message. reflexivity.
  - intros trace code room Hget.
    pose proof (serverOK_run trace _ serverOK_initial) as Hok.
    destruct (roomOK_In_seat _ _ _ Hok Hget) as [(_ & _ & Hlen) _]. exact Hlen.
  - intros trace now ev code room room' Hget Hst Hget'.
    pose proof (serverOK_run trace _ serverOK_initial) as Hok.
    destruct (serverOK_step now ev _ Hok) as [_ Hmem].
    apply (Hmem code room room'); auto; now apply get_In.
Qed.

(** The gate as far as it goes, over every state the event loop reaches: a
    chat message goes out only if its sender's socket is connected and seated
    in the room with the seat marked connected; sent with the channel
    ['global'] the sender is alive; sent with the channel ['mafia'] the
    sender's role is mafia and more than one mafia member is alive.  A sender
    failing any of these gets nothing out, and the rooms stay exactly as they
    were. *)
Theorem chat_gate (trace : list (Z * Event)) (now : Z)
    (socket code text channel : string) :
  let s := run trace initialServer in
  let s' := step now (Message socket (chat_message code text channel)) s in
  ((exists t, emitted s' = emitted s ++ [EChat code socket channel t]) ->
   In socket (sockets s)
   /\ exists room player,
        getRoom code s = Some room
        /\ JsMap.get socket (players room) = Some player
        /\ connected player = true
        /\ (channel = "global" -> alive player = true)
        /\ (channel = "mafia" ->
            role player = mafia /\ 1 < length (getAliveMafia room)))
  /\ (forall room,
        getRoom code s = Some room ->
        (~ In socket (sockets s)
         \/ JsMap.get socket (players room) = None
         \/ exists player,
              JsMap.get socket (players room) = Some player
              /\ ((channel = "global" /\ alive player = false)
                  \/ (channel = "mafia"
                      /\ (role player <> mafia
                          \/ length (getAliveMafia room) <= 1)))) ->
        rooms s' = rooms s
        /\ ~ exists t, emitted s' = emitted s ++ [EChat code socket channel t]).
Proof.
  intros s s'.
  assert (Hok : serverOK s) by apply serverOK_run, serverOK_initial.
  unfold s', step. set (s0 := set_clock now s).
  destruct (chat_handler_gate socket code text channel s0) as (Hacc & Hrej & _).
  unfold chatAccepted in Hacc, Hrej.
  change (emitted s0) with (emitted s) in Hacc, Hrej.
  change (getRoom code s0) with (getRoom code s) in Hacc, Hrej.
  change (rooms s0) with (rooms s) in Hrej.
  change (sockets s0) with (sockets s).
  destruct (set_has socket (sockets s)) eqn:Hlive.
  - apply set_has_In in Hlive. simpl handle. split.
    + intros Hout. split; [exact Hlive|].
      destruct (Hacc Hout) as (room & player & Hget & Hp & Hg & Hm).
      exists room, player. repeat (split; [assumption|]).
      split; [|auto].
      destruct (roomOK_In_seat _ _ _ Hok Hget) as [_ Hseats].
      apply (Hseats socket player); [now apply get_In | exact Hlive].
    + intros room Hget [Hdead|Hfail]; [contradiction|]. now apply (Hrej room).
  - assert (Hquiet : ~ exists t, emitted s0 = emitted s ++ [EChat code socket channel t]).
    { intros (t & E). now apply app_nil_absurd in E. }
    split.
    + intros Hout. contradiction.
    + intros room _ _. split; [reflexivity | exact Hquiet].
Qed.

(** C9. A dead sender is heard by the room when the message names a channel
    that is neither ['global'] nor ['mafia'].  After the first lynch Bobby is
    dead, and connected; his message sent with the channel ['dead'] passes
    both gates and goes out to the room, while the same message sent with
    ['global'] is turned away. *)
Theorem dead_sender_heard_on_other_channel :
  stateFirstLynch = run firstLynch initialServer
  /\ In "sB" (sockets stateFirstLynch)
  /\ option_map (fun p => (name p, role p, alive p, connected p))
                (JsMap.get "sB" (players (roomAt "ROOM42" stateFirstLynch)))
     = Some ("Bobby", doctor, false, true)
  /\ emitted (step 158000%Z
                 (Message "sB" (chat_message "ROOM42" "it was Alice" "dead"))
                 stateFirstLynch)
     = emitted stateFirstLynch ++ [EChat "ROOM42" "sB" "dead" "it was Alice"]
  /\ emitted (step 158000%Z
                 (Message "sB" (chat_message "ROOM42" "it was Alice" "global"))
                 stateFirstLynch)
     = emitted stateFirstLynch
       ++ [EError "sB" "Spectators cannot send messages."].
Proof.
  repeat split; try (vm_compute; reflexivity). vm_compute. tauto.
Qed.

(** ** Reconnection *)

Section MapDelete.
Context {K V : Type} `{KeyLaws K}.

Lemma get_delete_other (k k' : K) (m : list (K * V)) :
  k <> k' -> JsMap.get k (JsMap.delete k' m) = JsMap.get k m.
Proof.
  intros Hne. induction m as [|[k0 v0] m IH]; simpl; [reflexivity|].
  destruct (keyb_spec k' k0) as [->|Hne'].
  - now rewrite keyb_neq.
  - simpl. now rewrite IH.
Qed.

Lemma get_delete_same (k : K) (m : list (K * V)) :
  NoDup (JsMap.keys m) -> JsMap.get k (JsMap.delete k m) = None.
Proof.
  induction m as [|[k0 v0] m IH]; simpl; intros Hnd; [reflexivity|].
  inversion Hnd as [|? ? Hnotin Hnd']; subst.
  destruct (keyb_spec k k0) as [->|Hne].
  - now apply get_None_keys.
  - simpl. rewrite keyb_neq by assumption. now apply IH.
Qed.
End MapDelete.

Lemma find_none_all {A : Type} (f : A -> bool) (l : list A) :
  (forall x, In x l -> f x = false) -> find f l = None.
Proof.
  induction l as [|a l IH]; simpl; intros Hall; [reflexivity|].
  rewrite (Hall a) by now left. apply IH. intros x Hx. apply Hall. now right.
Qed.

Lemma getRoom_deleteRoom (code : string) (s : Server) :
  NoDup (JsMap.keys (rooms s)) -> getRoom code (deleteRoom code s) = None.
Proof.
  intros Hnd. unfold deleteRoom, getRoom. simpl.
  destruct (JsMap.get code (rooms s)); autorewrite with server;
    now apply get_delete_same.
Qed.

(** The accepted branch of the handler, as an equation. *)
Lemma on_reconnect_player_accepts socket session code s room found :
  getRoom code s = Some room ->
  findBySession session room = Some found ->
  (forall at_, disconnectedAt found = Some at_ -> at_ <> 0%Z ->
               (clock s - at_ <= 30000)%Z) ->
  getRoom code (on_reconnect_player socket session code s)
  = Some (set_lastActivity (clock s)
            ((if String.eqb (hostId room) (id found)
              then set_hostId socket else fun r => r)
               (set_players
                  (JsMap.set socket
                     (set_disconnectedAt None
                        (set_connected true (set_id socket found)))
                     (JsMap.delete (id found) (players room))) room)))
  /\ pending (on_reconnect_player socket session code s) = pending s.
Proof.
  intros Hget Hfind Hwin. unfold on_reconnect_player. rewrite Hget, Hfind.
  assert (Hcheck : truthyZ (disconnectedAt found)
                   && match disconnectedAt found with
                      | Some at_ => (30000 <? clock s - at_)%Z
                      | None => false
                      end = false).
  { destruct (disconnectedAt found) as [at_|] eqn:E; [|reflexivity].
    simpl. destruct (Z.eqb_spec at_ 0) as [|Hnz]; [reflexivity|]. simpl.
    specialize (Hwin at_ eq_refl Hnz). apply Z.ltb_ge. lia. }
  rewrite Hcheck. unfold touchRoom.
  autorewrite with server. split; [|reflexivity].
  simpl. destruct (String.eqb (hostId room) (id found)); reflexivity.
Qed.

Lemma found_is_keyed (room : Room) (session : string) (found : Player) :
  roomOK room -> findBySession session room = Some found ->
  JsMap.get (id found) (players room) = Some found /\ sessionId found = session.
Proof.
  intros (Hkeyed & Hnd & _) Hfind.
  destruct (findBySession_In _ _ _ Hfind) as (k & Hin & Hsess).
  split; [|assumption]. apply In_get_NoDup; [assumption|].
  unfold keyedById in Hkeyed. rewrite Forall_forall in Hkeyed.
  specialize (Hkeyed _ Hin). simpl in Hkeyed. now subst k.
Qed.

(** C8, as amended. In a well-formed server, a [reconnect_player] request
    carrying the session of a seated player, from a transport id not yet
    seated in the room, arriving no later than 30 s after the recorded
    disconnect time (whatever the phase, and also when no disconnect time is
    recorded), seats the very same record (id aside: session, name, avatar,
    role and alive status unchanged; marked connected) under the new
    transport id and no longer under the old one, hands over the host id if
    the player was host, and leaves the other seats, the phase, round, votes,
    night state, timer and pending timers untouched.  A request more than
    30 s after the recorded disconnect time is rejected.  And once a
    disconnected lobby player's grace timer has fired with the room still in
    lobby, the player (whose session no other seat shares) is gone and the
    request is rejected too. *)
Theorem reconnect_restores_record (code : string) (s : Server) (room : Room) :
  serverOK s -> getRoom code s = Some room ->
  (forall socket session found,
      findBySession session room = Some found ->
      JsMap.get socket (players room) = None ->
      ((forall at_, disconnectedAt found = Some at_ -> at_ <> 0%Z ->
                    (clock s - at_ <= 30000)%Z) ->
       exists room' restored,
         getRoom code (on_reconnect_player socket session code s) = Some room'
         /\ JsMap.get socket (players room') = Some restored
         /\ id restored = socket
         /\ sessionId restored = sessionId found
         /\ name restored = name found
         /\ avatar restored = avatar found
         /\ role restored = role found
         /\ alive restored = alive found
         /\ connected restored = true
         /\ disconnectedAt restored = None
         /\ JsMap.get (id found) (players room') = None
         /\ (forall k, k <> socket -> k <> id found ->
                       JsMap.get k (players room') = JsMap.get k (players room))
         /\ (hostId room = id found -> hostId room' = socket)
         /\ (hostId room <> id found -> hostId room' = hostId room)
         /\ phase room' = phase room
         /\ round room' = round room
         /\ mafiaVotes room' = mafiaVotes room
         /\ doctorSave room' = doctorSave room
         /\ detectiveTarget room' = detectiveTarget room
         /\ votes room' = votes room
         /\ timer room' = timer room
         /\ nightActionsSubmitted room' = nightActionsSubmitted room
         /\ started room' = started room
         /\ pending (on_reconnect_player socket session code s) = pending s)
      /\ ((exists at_, disconnectedAt found = Some at_ /\ at_ <> 0%Z
                       /\ (30000 < clock s - at_)%Z) ->
          on_reconnect_player socket session code s
          = emit (EError socket "Reconnect window expired.") s))
  /\ (forall sock p newSocket,
        phase room = lobby ->
        JsMap.get sock (players room) = Some p ->
        connected p = false ->
        (forall q, In q (JsMap.values (players room)) ->
                   sessionId q = sessionId p -> q = p) ->
        exists message,
          on_reconnect_player newSocket (sessionId p) code
            (graceExpired code sock (sessionId p) s)
          = emit (EError newSocket message) (graceExpired code sock (sessionId p) s)).
Proof.
  intros Hok Hget.
  destruct (roomOK_In_seat _ _ _ Hok Hget) as [Hrok _].
  pose proof Hrok as (Hkeyed & Hnd & _).
  split.
  - intros socket session found Hfind Hfresh.
    destruct (found_is_keyed _ _ _ Hrok Hfind) as [Hgetf Hsess].
    assert (Hne : id found <> socket) by (intros E; rewrite E in Hgetf; congruence).
    split.
    + intros Hwin.
      destruct (on_reconnect_player_accepts socket session code s room found
                  Hget Hfind Hwin) as [Hres Hpend].
      eexists. exists (set_disconnectedAt None (set_connected true (set_id socket found))).
      split; [exact Hres|].
      assert (Hplayers : forall f : Room -> Room,
                 (forall r, players (f r) = players r) ->
                 players (set_lastActivity (clock s)
                            (f (set_players
                                  (JsMap.set socket
                                     (set_disconnectedAt None
                                        (set_connected true (set_id socket found)))
                                     (JsMap.delete (id found) (players room))) room)))
                 = JsMap.set socket
                     (set_disconnectedAt None (set_connected true (set_id socket found)))
                     (JsMap.delete (id found) (players room))).
      { intros f Hf. simpl. now rewrite Hf. }
      assert (Hpl : players
                      (set_lastActivity (clock s)
                         ((if String.eqb (hostId room) (id found)
                           then set_hostId socket else fun r => r)
                            (set_players
                               (JsMap.set socket
                                  (set_disconnectedAt None
                                     (set_connected true (set_id socket found)))
                                  (JsMap.delete (id found) (players room))) room)))
                    = JsMap.set socket
                        (set_disconnectedAt None (set_connected true (set_id socket found)))
                        (JsMap.delete (id found) (players room))).
      { destruct (String.eqb (hostId room) (id found)); apply Hplayers; reflexivity. }
      rewrite Hpl.
      split; [apply get_set_same|].
      repeat (split; [reflexivity|]).
      split; [rewrite get_set_other by assumption; now apply get_delete_same|].
      split.
      { intros k Hk1 Hk2. rewrite get_set_other by assumption.
        now apply get_delete_other. }
      destruct (String.eqb_spec (hostId room) (id found)) as [Hh|Hh]; simpl;
        repeat split; auto; try contradiction; congruence.
    + intros (at_ & Hat & Hnz & Hlate). unfold on_reconnect_player.
      rewrite Hget, Hfind, Hat. simpl.
      destruct (Z.eqb_spec at_ 0); [contradiction|]. simpl.
      apply Z.ltb_lt in Hlate. now rewrite Hlate.
  - intros sock p newSocket Hlobby Hp Hdisc Huniq.
    destruct Hok as (Hndr & _ & _).
    unfold graceExpired. rewrite Hget, Hp, Hdisc, Hlobby. simpl negb. cbv iota.
    simpl Phase_eqb. cbv iota.
    set (room1 := promoteHost sock
                    (set_players (JsMap.delete sock (players room)) room)).
    set (s1 := putRoom code room1 (removeSession (sessionId p) s)).
    assert (Hpl1 : players room1 = JsMap.delete sock (players room)).
    { unfold room1. now rewrite players_promoteHost. }
    destruct (JsMap.size (players room1) =? 0).
    + exists "Room not found.". unfold on_reconnect_player.
      rewrite getRoom_deleteRoom; [reflexivity|].
      unfold s1, putRoom. simpl. now apply NoDup_keys_set.
    + exists "Session not found.". unfold on_reconnect_player.
      assert (Hget1 : getRoom code s1 = Some room1)
        by (unfold s1; apply getRoom_putRoom_same).
      rewrite Hget1.
      assert (Hnone : findBySession (sessionId p) room1 = None).
      { unfold findBySession. apply find_none_all. intros q Hq.
        destruct (String.eqb_spec (sessionId q) (sessionId p)) as [E|]; [|reflexivity].
        exfalso. rewrite Hpl1 in Hq. unfold JsMap.values in Hq.
        apply in_map_iff in Hq as ([k q'] & Hq' & Hin). simpl in Hq'. subst q'.
        assert (Hin0 : In (k, q) (players room)) by (eapply In_delete; eauto).
        assert (q = p).
        { apply Huniq; [|assumption]. unfold JsMap.values.
          change q with (snd (k, q)). now apply in_map. }
        subst q.
        assert (k = sock).
        { apply (In_get_NoDup _ _ _ Hnd) in Hin0.
          unfold keyedById in Hkeyed. rewrite Forall_forall in Hkeyed.
          pose proof (Hkeyed _ (get_In _ _ _ Hin0)) as E1.
          pose proof (Hkeyed _ (get_In _ _ _ Hp)) as E2. simpl in *. congruence. }
        subst k.
        assert (Hdel : JsMap.get sock (JsMap.delete sock (players room)) = None)
          by now apply get_delete_same.
        apply get_None_keys in Hdel. apply Hdel. unfold JsMap.keys.
        change sock with (fst (sock, p)). now apply in_map. }
      rewrite Hnone. reflexivity.
Qed.

(** David reconnects 20 s after his drop, inside the handler's 30 s: seated
    again under the new socket, with the record as it stood (eliminated when
    his grace timer fired mid-game). *)
Lemma reconnect_restores_record_witness :
  exists room' restored,
    getRoom "ROOM42"
      (on_reconnect_player "sD2" "uD" "ROOM42"
         (set_clock 21000%Z stateLobbyDropThenStart)) = Some room'
    /\ JsMap.get "sD2" (players room') = Some restored
    /\ sessionId restored = "uD"
    /\ role restored = citizen
    /\ connected restored = true
    /\ JsMap.get "sD" (players room') = None
    /\ phase room' = night.
Proof.
  assert (Hok : serverOK (set_clock 21000%Z stateLobbyDropThenStart)).
  { apply serverOK_set_clock, serverOK_reachable. exists lobbyDropThenStart.
    reflexivity. }
  destruct (reconnect_restores_record "ROOM42" _ roomLobbyDropThenStart Hok eq_refl)
    as [Hreq _].
  assert (Hfind : findBySession "uD" roomLobbyDropThenStart
                  = Some (mkPlayer "sD" "uD" "David" "av" citizen false false
                                   (Some 1000%Z) 0%Z 500%Z)) by reflexivity.
  destruct (Hreq "sD2" "uD" _ Hfind eq_refl) as [Hacc _].
  assert (Hwin : forall at_,
             disconnectedAt (mkPlayer "sD" "uD" "David" "av" citizen false false
                                      (Some 1000%Z) 0%Z 500%Z) = Some at_ ->
             at_ <> 0%Z ->
             (clock (set_clock 21000%Z stateLobbyDropThenStart) - at_ <= 30000)%Z).
  { intros at_ [= <-] _. simpl. lia. }
  destruct (Hacc Hwin)
    as (room' & restored & Hget & Hseat & _ & Hsess & _ & _ & Hrole & _ & Hconn & _
        & Hold & _ & _ & _ & Hphase & _).
  exists room', restored. repeat split; assumption.
Defined.

(** The grace windows do not bound the acceptance.  First: David's socket
    drops while the room is in lobby, which starts the 15 s grace; the game
    starts meanwhile, and his request 20 s after the drop is accepted.
    Second: Alice's socket drops after the game ended; the host's restart
    clears her disconnect time; her request 120 s after the drop, with the
    room in lobby, is accepted. *)
Lemma reconnect_accepted_after_window :
  (stateLobbyDrop = run lobbyDrop initialServer
   /\ phase (roomAt "ROOM42" stateLobbyDrop) = lobby
   /\ pending stateLobbyDrop = [(0, (16000%Z, CbGrace "ROOM42" "sD" "uD"))]
   /\ option_map disconnectedAt
        (JsMap.get "sD" (players (roomAt "ROOM42" stateLobbyDrop)))
      = Some (Some 1000%Z)
   /\ stateLobbyDropThenStart = run lobbyDropThenStart initialServer
   /\ step 21000%Z (Message "sD2" (reconnect_player "uD" "ROOM42"))
           stateLobbyDropThenStart = stateLateReconnect
   /\ emitted stateLateReconnect
      = emitted stateLobbyDropThenStart ++ [EReconnected "sD2" "ROOM42" citizen night]
   /\ option_map sessionId
        (JsMap.get "sD2" (players (roomAt "ROOM42" stateLateReconnect)))
      = Some "uD")
  /\ (stateDropAfterEnd = run dropAfterEnd initialServer
      /\ phase (roomAt "ROOM42" stateDropAfterEnd) = ended
      /\ pending stateDropAfterEnd = [(3, (110000%Z, CbGrace "ROOM42" "sA" "uA"))]
      /\ option_map disconnectedAt
           (JsMap.get "sA" (players (roomAt "ROOM42" stateDropAfterEnd)))
         = Some (Some 80000%Z)
      /\ stateDropThenPlayAgain = run dropThenPlayAgain initialServer
      /\ phase (roomAt "ROOM42" stateDropThenPlayAgain) = lobby
      /\ step 200000%Z (Message "sA2" (reconnect_player "uA" "ROOM42"))
              stateDropThenPlayAgain = stateGhostReconnect
      /\ emitted stateGhostReconnect
         = emitted stateDropThenPlayAgain
           ++ [EReconnected "sA2" "ROOM42" citizen lobby]
      /\ option_map sessionId
           (JsMap.get "sA2" (players (roomAt "ROOM42" stateGhostReconnect)))
         = Some "uA").
Proof. repeat split; reflexivity. Qed.

(** ** Phase timers *)

(** Entering a phase cancels the room's previous timer and leaves the new one
    pending under the room's handle. *)
Lemma phase_entry_cancels_prior_timer (code : string) (s : Server) (room : Room)
    (t : TimerId) :
  getRoom code s = Some room -> timer room = Some t -> t < nextTimer s ->
  forall enter, In enter [startNightPhase; startDayPhase; startVotePhase] ->
    ~ isPending t (enter code s)
    /\ exists t', timer (roomAt code (enter code s)) = Some t'
                  /\ isPending t' (enter code s).
Proof.
  intros Hget Htimer Hlt enter Hin.
  assert (Hclear : forall cb due,
             ~ In t (map fst (filter (fun e => negb (fst e =? t)) (pending s)
                              ++ [(nextTimer s, (due, cb))]))).
  { intros cb due Hp. rewrite map_app in Hp. apply in_app_or in Hp as [Hp|[Hp|[]]].
    - apply in_map_iff in Hp as (e & He & Hp). apply filter_In in Hp as [_ Hne].
      subst t. rewrite Nat.eqb_refl in Hne. discriminate.
    - simpl in Hp. lia. }
  simpl in Hin.
  destruct Hin as [<-|[<-|[<-|[]]]].
  - unfold startNightPhase, roomAt, isPending. rewrite Hget.
    unfold setTimeout, clearRoomTimer. simpl. rewrite Htimer. simpl.
    rewrite getRoom_putRoom_same. simpl. split; [apply Hclear|].
    eexists. split; [reflexivity|]. rewrite map_app. apply in_or_app. right.
    now left.
  - unfold startDayPhase, roomAt, isPending. rewrite Hget.
    unfold setTimeout, clearRoomTimer. simpl. rewrite Htimer. simpl.
    rewrite getRoom_putRoom_same. simpl. split; [apply Hclear|].
    eexists. split; [reflexivity|]. rewrite map_app. apply in_or_app. right.
    now left.
  - unfold startVotePhase, roomAt, isPending. rewrite Hget.
    unfold setTimeout, clearRoomTimer. simpl. rewrite Htimer. simpl.
    rewrite getRoom_putRoom_same. simpl. split; [apply Hclear|].
    eexists. split; [reflexivity|]. rewrite map_app. apply in_or_app. right.
    now left.
Qed.

(** A resolution that finds no winner schedules the next phase but leaves the
    room in the phase it just resolved, so the handlers of that phase keep
    accepting actions until the delay timer fires. *)
Lemma resolution_leaves_phase (code : string) (s : Server) (room : Room) :
  getRoom code s = Some room ->
  (phase room = vote ->
   checkWinCondition (applyLynch (resolveDayVote room) room) = None ->
   phase (roomAt code (resolveVotePhase code s)) = vote)
  /\ (forall d, phase room = night ->
                checkWinCondition (applyNightResult (resolveNight room d) room) = None ->
                phase (roomAt code (resolveNightPhase code d s)) = night).
Proof.
  intros Hget. split.
  - intros Hphase Hwin. unfold resolveVotePhase, roomAt.
    rewrite Hget, Hphase, Hwin. simpl negb. cbv iota.
    unfold setTimeout. rewrite getRoom_putRoom_same.
    unfold applyLynch. simpl.
    destruct (truthy (lynchedPlayerId (resolveDayVote room))); [|assumption].
    destruct (lynchedPlayerId (resolveDayVote room)) as [k|]; [|assumption].
    unfold updPlayer. now destruct (JsMap.get k (players room)).
  - intros d Hphase Hwin. unfold resolveNightPhase, roomAt.
    rewrite Hget, Hphase, Hwin. simpl negb. cbv iota.
    unfold setTimeout. rewrite getRoom_putRoom_same.
    unfold applyNightResult. simpl.
    destruct (truthy (killedPlayerId (resolveNight room d))
              && negb (saved (resolveNight room d))); [|assumption].
    destruct (killedPlayerId (resolveNight room d)) as [k|]; [|assumption].
    unfold updPlayer. now destruct (JsMap.get k (players room)).
Qed.

(** C1, the defect.  The timers are cancelled on every path, yet a phase is
    resolved twice: after the vote of round 1 resolved early and lynched Bobby,
    the room stays in the vote phase for the 3 s until the next night; David's
    changed vote in that window passes the handler's checks, cancels the
    pending timer and resolves the same vote phase again, and Carol is lynched
    as well. *)
Lemma vote_phase_resolved_twice :
  stateFirstLynch = run firstLynch initialServer
  /\ phase (roomAt "ROOM42" stateFirstLynch) = vote
  /\ round (roomAt "ROOM42" stateFirstLynch) = 1%Z
  /\ lynchNotices "ROOM42" stateFirstLynch = ["sB"]
  /\ pending stateFirstLynch = [(5, (160400%Z, CbStartNight "ROOM42"))]
  /\ step 158000%Z (Message "sD" (day_vote "ROOM42" "sC")) stateFirstLynch
     = stateSecondLynch
  /\ phase (roomAt "ROOM42" stateSecondLynch) = vote
  /\ round (roomAt "ROOM42" stateSecondLynch) = 1%Z
  /\ lynchNotices "ROOM42" stateSecondLynch = ["sB"; "sC"]
  /\ aliveFlags (roomAt "ROOM42" stateSecondLynch)
     = [("sH", true); ("sA", true); ("sB", false); ("sC", false); ("sD", true)]
  /\ pending stateSecondLynch = [(6, (161000%Z, CbStartNight "ROOM42"))].
Proof. repeat split; reflexivity. Qed.

(* ================================================================== *)
(** * More of the server: properties *)
(* ================================================================== *)

(** ** Usernames *)

Lemma dropSpaces_suffix (l : list ascii) :
  exists a, l = a ++ dropSpaces l /\ Forall (fun c => isSpace c = true) a.
Proof.
  induction l as [|c l IH]; simpl.
  - exists []. auto.
  - destruct (isSpace c) eqn:E.
    + destruct IH as (a & Hl & Ha). exists (c :: a). split.
      * simpl. now f_equal.
      * now constructor.
    + exists []. auto.
Qed.

Lemma dropSpaces_head (l : list ascii) : dropSpaces (dropSpaces l) = dropSpaces l.
Proof.
  induction l as [|c l IH]; simpl; [reflexivity|].
  destruct (isSpace c) eqn:E; [exact IH|]. simpl. now rewrite E.
Qed.

Lemma dropSpaces_fixed (l : list ascii) :
  match l with c :: _ => isSpace c = false | [] => True end -> dropSpaces l = l.
Proof. destruct l as [|c l]; simpl; [auto|]. now intros ->. Qed.

Lemma dropSpaces_fixed_inv (l : list ascii) :
  dropSpaces l = l -> match l with c :: _ => isSpace c = false | [] => True end.
Proof.
  destruct l as [|c l]; simpl; [auto|]. destruct (isSpace c) eqn:E; [|auto].
  intros H. destruct (dropSpaces_suffix l) as (a & Hl & _).
  rewrite H in Hl. apply (f_equal (@length ascii)) in Hl.
  rewrite length_app in Hl. simpl in Hl. lia.
Qed.

(** [trim] cuts white space off both ends and nothing else. *)
Lemma trim_infix (l : list ascii) :
  exists a b, l = a ++ trim l ++ b
              /\ Forall (fun c => isSpace c = true) a
              /\ Forall (fun c => isSpace c = true) b.
Proof.
  unfold trim.
  destruct (dropSpaces_suffix l) as (a & Hl & Ha).
  destruct (dropSpaces_suffix (rev (dropSpaces l))) as (b & Hr & Hb).
  exists a, (rev b). split; [|split; [assumption|]].
  - rewrite Hl at 1. f_equal. rewrite <- rev_app_distr, <- Hr.
    now rewrite rev_involutive.
  - apply Forall_rev. exact Hb.
Qed.

Lemma trim_ends (l : list ascii) :
  dropSpaces (trim l) = trim l /\ dropSpaces (rev (trim l)) = rev (trim l).
Proof.
  unfold trim. set (m := dropSpaces l).
  assert (Hm : dropSpaces m = m) by apply dropSpaces_head.
  set (t := dropSpaces (rev m)).
  assert (Ht : dropSpaces t = t) by apply dropSpaces_head.
  split; [|now rewrite rev_involutive].
  apply dropSpaces_fixed.
  destruct (rev t) as [|c u] eqn:Erev; [exact I|].
  (* the first character of [rev t] is the first of [m] *)
  destruct (dropSpaces_suffix (rev m)) as (b & Hr & _). fold t in Hr.
  apply (f_equal (@rev ascii)) in Hr. rewrite rev_involutive, rev_app_distr in Hr.
  rewrite Erev in Hr. simpl in Hr.
  apply dropSpaces_fixed_inv in Hm. rewrite Hr in Hm. exact Hm.
Qed.

Lemma blanksApart_app (a b : list ascii) :
  blanksApart (a ++ b) = true -> blanksApart a = true /\ blanksApart b = true.
Proof.
  induction a as [|c a IH]; simpl; [auto|].
  destruct a as [|c' a]; simpl in *.
  - destruct b as [|c' b]; [auto|].
    intros H. apply andb_prop in H as [_ H]. auto.
  - intros H. apply andb_prop in H as [H1 H2]. destruct (IH H2) as [Ha Hb].
    rewrite H1, Ha. auto.
Qed.

Lemma collapseSpaces_head (l : list ascii) :
  match collapseSpaces l, l with
  | c :: _, c0 :: _ => isSpace c = isSpace c0
  | [], [] => True
  | _, _ => False
  end.
Proof.
  induction l as [|c l IH]; simpl; [exact I|].
  destruct (isSpace c) eqn:E.
  - destruct l as [|c' l]; [reflexivity|].
    destruct (isSpace c') eqn:E'.
    + destruct (collapseSpaces (c' :: l)) as [|d u]; [contradiction|].
      now rewrite IH.
    + reflexivity.
  - now rewrite E.
Qed.

(** After [.replace(/\s+/g, ' ')] every white-space character is a single
    blank, and what is not white space came from the input. *)
Lemma collapseSpaces_shape (P : ascii -> Prop) (l : list ascii) :
  P " "%char -> Forall P l ->
  Forall P (collapseSpaces l)
  /\ Forall (fun c => isSpace c = true -> c = " "%char) (collapseSpaces l)
  /\ blanksApart (collapseSpaces l) = true.
Proof.
  intros Hblank. induction l as [|c l IH]; intros Hall; simpl; [auto|].
  inversion Hall as [|? ? Hc Hl]; subst. destruct (IH Hl) as (H1 & H2 & H3).
  pose proof (collapseSpaces_head l) as Hhead.
  destruct (isSpace c) eqn:E.
  - destruct l as [|c' l]; [repeat split; repeat constructor; auto|].
    destruct (isSpace c') eqn:E'; [auto|].
    split; [now constructor|]. split; [now constructor|].
    destruct (collapseSpaces (c' :: l)) as [|d u] eqn:Ecol; [reflexivity|].
    change (blanksApart (" "%char :: d :: u))
      with (negb (isSpace " "%char && isSpace d) && blanksApart (d :: u)).
    rewrite H3, Hhead. reflexivity.
  - split; [now constructor|]. split; [constructor; [congruence | assumption]|].
    destruct (collapseSpaces l) as [|d u] eqn:Ecol; [reflexivity|].
    change (blanksApart (c :: d :: u))
      with (negb (isSpace c && isSpace d) && blanksApart (d :: u)).
    now rewrite H3, E.
Qed.

Lemma collapseSpaces_fixed (l : list ascii) :
  Forall (fun c => isSpace c = true -> c = " "%char) l ->
  blanksApart l = true -> collapseSpaces l = l.
Proof.
  induction l as [|c l IH]; intros Hall Hap; simpl; [reflexivity|].
  inversion Hall as [|? ? Hc Hl]; subst.
  assert (Hap' : blanksApart l = true).
  { destruct l as [|c' l]; [reflexivity|].
    change (negb (isSpace c && isSpace c') && blanksApart (c' :: l) = true) in Hap.
    now apply andb_prop in Hap. }
  destruct (isSpace c) eqn:E.
  - rewrite (Hc eq_refl). destruct l as [|c' l]; [reflexivity|].
    change (negb (isSpace c && isSpace c') && blanksApart (c' :: l) = true) in Hap.
    rewrite E in Hap. simpl in Hap.
    destruct (isSpace c'); [discriminate|]. now rewrite IH.
  - now rewrite IH.
Qed.

Lemma filter_fixed {A : Type} (f : A -> bool) (l : list A) :
  Forall (fun x => f x = true) l -> filter f l = l.
Proof.
  induction 1 as [|x l Hx _ IH]; simpl; [reflexivity|]. now rewrite Hx, IH.
Qed.

Lemma Forall_infix {A : Type} (P : A -> Prop) (a m b : list A) :
  Forall P (a ++ m ++ b) -> Forall P m.
Proof.
  intros H. apply Forall_app in H as [_ H]. now apply Forall_app in H as [H _].
Qed.

(** The cleaned character list [sanitizeUsername] measures. *)
Lemma cleaned_shape (raw : list ascii) :
  let cleaned := trim (collapseSpaces (filter (fun c => negb (isHtmlChar c)) raw)) in
  Forall (fun c => isHtmlChar c = false) cleaned
  /\ Forall (fun c => isSpace c = true -> c = " "%char) cleaned
  /\ blanksApart cleaned = true
  /\ dropSpaces cleaned = cleaned
  /\ dropSpaces (rev cleaned) = rev cleaned.
Proof.
  intros cleaned. unfold cleaned.
  set (kept := filter (fun c => negb (isHtmlChar c)) raw).
  assert (Hkept : Forall (fun c => isHtmlChar c = false) kept).
  { apply Forall_forall. intros c Hin. apply filter_In in Hin as [_ Hc].
    now apply negb_true_iff in Hc. }
  destruct (collapseSpaces_shape (fun c => isHtmlChar c = false) kept eq_refl Hkept)
    as (H1 & H2 & H3).
  destruct (trim_infix (collapseSpaces kept)) as (a & b & Hab & _ & _).
  rewrite Hab in H1, H2, H3.
  split; [eapply Forall_infix; eauto|]. split; [eapply Forall_infix; eauto|].
  split.
  { apply blanksApart_app in H3 as [_ H3]. now apply blanksApart_app in H3 as [H3 _]. }
  apply trim_ends.
Qed.

(** X1. An accepted username has 3 to 16 characters, none of them one of the
    stripped HTML characters; its only white space is single blanks between
    other characters, never at either end. *)
Theorem sanitizeUsername_accepts_clean_names (raw uname : string) :
  sanitizeUsername raw = Some uname ->
  let l := list_ascii_of_string uname in
  3 <= length l <= 16
  /\ Forall (fun c => isHtmlChar c = false) l
  /\ Forall (fun c => isSpace c = true -> c = " "%char) l
  /\ blanksApart l = true
  /\ dropSpaces l = l
  /\ dropSpaces (rev l) = rev l.
Proof.
  intros H l. unfold sanitizeUsername in H.
  set (cleaned := trim _) in H.
  destruct ((length cleaned <? 3) || (16 <? length cleaned)) eqn:Elen; [discriminate|].
  injection H as <-. unfold l. rewrite list_ascii_of_string_of_list_ascii.
  apply orb_false_elim in Elen as [E3 E16].
  apply Nat.ltb_ge in E3, E16.
  split; [lia|]. apply cleaned_shape.
Qed.

Lemma sanitizeUsername_accepts_clean_names_witness :
  sanitizeUsername "  <b>Al   the  Kid</b> " = Some "bAl the Kidb"
  /\ blanksApart (list_ascii_of_string "bAl the Kidb") = true.
Proof.
  assert (H : sanitizeUsername "  <b>Al   the  Kid</b> " = Some "bAl the Kidb") by reflexivity.
  split; [exact H|].
  exact (proj1 (proj2 (proj2 (proj2
           (sanitizeUsername_accepts_clean_names _ _ H))))).
Defined.

(** X2. Sanitising is idempotent: an accepted username passes unchanged when
    it is sanitised again. *)
Theorem sanitizeUsername_idempotent (raw uname : string) :
  sanitizeUsername raw = Some uname -> sanitizeUsername uname = Some uname.
Proof.
  unfold sanitizeUsername at 1. intros H.
  set (cleaned := trim _) in H.
  pose proof (cleaned_shape (list_ascii_of_string raw)) as Hshape.
  simpl in Hshape. fold cleaned in Hshape.
  destruct Hshape as (Hhtml & Hblank & Hapart & Hhead & Hlast).
  destruct ((length cleaned <? 3) || (16 <? length cleaned)) eqn:Elen; [discriminate|].
  injection H as <-.
  assert (Hfix : trim (collapseSpaces
                         (filter (fun c => negb (isHtmlChar c)) cleaned)) = cleaned).
  { rewrite (filter_fixed _ cleaned).
    2:{ eapply Forall_impl; [|exact Hhtml]. simpl. now intros c ->. }
    rewrite (collapseSpaces_fixed cleaned Hblank Hapart).
    unfold trim. now rewrite Hhead, Hlast, rev_involutive. }
  unfold sanitizeUsername. rewrite list_ascii_of_string_of_list_ascii.
  now rewrite Hfix, Elen.
Qed.

Lemma sanitizeUsername_idempotent_witness :
  sanitizeUsername "bAl the Kidb" = Some "bAl the Kidb".
Proof.
  apply (sanitizeUsername_idempotent "  <b>Al   the  Kid</b> "). reflexivity.
Defined.

(** ** Room codes *)

Lemma below_32 (P : nat -> bool) :
  forallb P (seq 0 32) = true -> forall k, P (k mod 32) = true.
Proof.
  intros H k. rewrite forallb_forall in H. apply H. apply in_seq.
  pose proof (Nat.mod_upper_bound k 32). lia.
Qed.

Lemma codeChars_get (k : nat) :
  String.get (k mod String.length codeChars) codeChars = Some (codeChar k).
Proof.
  unfold codeChar. change (String.length codeChars) with 32.
  pose proof (below_32
    (fun i => match String.get i codeChars with
              | Some c => Ascii.eqb c (nth i (list_ascii_of_string codeChars) "A"%char)
              | None => false
              end) eq_refl k) as H.
  cbv beta in H. destruct (String.get (k mod 32) codeChars) as [c|]; [|discriminate].
  apply Ascii.eqb_eq in H. now rewrite H.
Qed.

Lemma generateRoomCode_chars (draw : nat -> nat) :
  generateRoomCode draw
  = string_of_list_ascii (map (fun i => codeChar (draw i)) (seq 0 6)).
Proof.
  unfold generateRoomCode. cbn [fold_left seq]. now rewrite !codeChars_get.
Qed.

Lemma codeChar_facts (k : nat) :
  In (codeChar k) (list_ascii_of_string codeChars)
  /\ isSpace (codeChar k) = false
  /\ upperChar (codeChar k) = codeChar k
  /\ upperChar (lowerChar (codeChar k)) = codeChar k.
Proof.
  unfold codeChar.
  set (chars := list_ascii_of_string codeChars).
  pose proof (below_32
    (fun i => let c := nth i chars "A"%char in
              existsb (Ascii.eqb c) chars
              && negb (isSpace c)
              && Ascii.eqb (upperChar c) c
              && Ascii.eqb (upperChar (lowerChar c)) c) eq_refl k) as H.
  cbv beta zeta in H.
  apply andb_prop in H as [H H4]. apply andb_prop in H as [H H3].
  apply andb_prop in H as [H1 H2].
  apply Ascii.eqb_eq in H3, H4. apply negb_true_iff in H2.
  apply existsb_exists in H1 as (c & Hin & Hc). apply Ascii.eqb_eq in Hc.
  split; [now rewrite Hc|]. auto.
Qed.

(** X3. A generated room code has six characters, each of the 32-character
    alphabet: capital letters without I and O, digits without 0 and 1. *)
Theorem generateRoomCode_alphabet (draw : nat -> nat) :
  String.length (generateRoomCode draw) = 6
  /\ Forall (fun c => In c (list_ascii_of_string "ABCDEFGHJKLMNPQRSTUVWXYZ23456789"))
            (list_ascii_of_string (generateRoomCode draw)).
Proof.
  rewrite generateRoomCode_chars. split; [reflexivity|].
  rewrite list_ascii_of_string_of_list_ascii. apply Forall_forall.
  intros c Hin. apply in_map_iff in Hin as (i & <- & _). apply codeChar_facts.
Qed.

Lemma list_ascii_of_string_app (a b : string) :
  list_ascii_of_string (a ++ b) = list_ascii_of_string a ++ list_ascii_of_string b.
Proof. induction a as [|c a IH]; simpl; [reflexivity|]. now rewrite IH. Qed.

Lemma dropSpaces_blank_prefix (a l : list ascii) :
  Forall (fun c => isSpace c = true) a -> dropSpaces (a ++ l) = dropSpaces l.
Proof. induction 1 as [|c a Hc _ IH]; simpl; [reflexivity|]. now rewrite Hc. Qed.

(** [trim] gives back what stands between the white space. *)
Lemma trim_strips (a m b : list ascii) :
  Forall (fun c => isSpace c = true) a -> Forall (fun c => isSpace c = true) b ->
  m <> [] -> dropSpaces m = m -> dropSpaces (rev m) = rev m ->
  trim (a ++ m ++ b) = m.
Proof.
  intros Ha Hb Hne Hm Hr. unfold trim.
  rewrite (dropSpaces_blank_prefix a _ Ha).
  assert (E : dropSpaces (m ++ b) = m ++ b).
  { apply dropSpaces_fixed. apply dropSpaces_fixed_inv in Hm.
    destruct m; [congruence | exact Hm]. }
  rewrite E, rev_app_distr.
  rewrite (dropSpaces_blank_prefix (rev b)) by now apply Forall_rev.
  now rewrite Hr, rev_involutive.
Qed.

Lemma upperChar_space (c : ascii) : isSpace c = true -> upperChar c = c.
Proof.
  unfold isSpace, upperChar. set (n := nat_of_ascii c). intros H.
  destruct (97 <=? n) eqn:E; [|reflexivity]. apply Nat.leb_le in E.
  repeat (apply orb_prop in H as [H|H]); apply Nat.eqb_eq in H; lia.
Qed.

Lemma map_upperChar_blanks (a : list ascii) :
  Forall (fun c => isSpace c = true) a -> map upperChar a = a.
Proof.
  induction 1 as [|c a Hc _ IH]; simpl; [reflexivity|].
  now rewrite IH, upperChar_space.
Qed.

Lemma normalizeCode_padded (pre post : string) (l m : list ascii) :
  Forall (fun c => isSpace c = true) (list_ascii_of_string pre) ->
  Forall (fun c => isSpace c = true) (list_ascii_of_string post) ->
  map upperChar l = m -> m <> [] ->
  Forall (fun c => isSpace c = false) m ->
  normalizeCode (pre ++ string_of_list_ascii l ++ post) = string_of_list_ascii m.
Proof.
  intros Hpre Hpost Hup Hne Hm. unfold normalizeCode, toUpperCase.
  rewrite !list_ascii_of_string_app, !list_ascii_of_string_of_list_ascii.
  rewrite !map_app, Hup, (map_upperChar_blanks _ Hpre), (map_upperChar_blanks _ Hpost).
  rewrite trim_strips; auto.
  - apply dropSpaces_fixed. destruct m as [|c m]; [exact I|].
    now inversion Hm.
  - apply dropSpaces_fixed. apply Forall_rev in Hm.
    destruct (rev m) as [|c u]; [exact I|]. now inversion Hm.
Qed.

(** X4. The normalisation [join_room] applies to the code it is given
    (upper-casing and trimming) leads back to the generated code, whether the
    code is typed as generated or in lower case, with or without white space
    around it. *)
Theorem room_code_survives_join_normalisation (draw : nat -> nat) (pre post : string) :
  Forall (fun c => isSpace c = true) (list_ascii_of_string pre) ->
  Forall (fun c => isSpace c = true) (list_ascii_of_string post) ->
  normalizeCode (pre ++ generateRoomCode draw ++ post) = generateRoomCode draw
  /\ normalizeCode (pre ++ toLowerCase (generateRoomCode draw) ++ post)
     = generateRoomCode draw.
Proof.
  intros Hpre Hpost. rewrite generateRoomCode_chars.
  set (cs := map (fun i => codeChar (draw i)) (seq 0 6)).
  assert (Hcs : Forall (fun c => isSpace c = false /\ upperChar c = c
                                 /\ upperChar (lowerChar c) = c) cs).
  { apply Forall_forall. intros c Hin. apply in_map_iff in Hin as (i & <- & _).
    apply codeChar_facts. }
  assert (Hne : cs <> []) by discriminate.
  assert (Hsp : Forall (fun c => isSpace c = false) cs).
  { eapply Forall_impl; [|exact Hcs]. simpl. tauto. }
  split.
  - apply normalizeCode_padded; auto.
    clear -Hcs. induction Hcs as [|c cs (_ & Hc & _) _ IH]; simpl; congruence.
  - unfold toLowerCase. rewrite list_ascii_of_string_of_list_ascii.
    apply normalizeCode_padded; auto.
    rewrite map_map.
    clear -Hcs. induction Hcs as [|c cs (_ & _ & Hc) _ IH]; simpl; congruence.
Qed.

Lemma room_code_survives_join_normalisation_witness :
  normalizeCode ("  " ++ toLowerCase (generateRoomCode (fun i => 7 * i + 3)) ++ " ")
  = generateRoomCode (fun i => 7 * i + 3).
Proof.
  apply (room_code_survives_join_normalisation (fun i => 7 * i + 3) "  " " ");
    repeat constructor.
Defined.

(** ** The vote tally broadcast *)

(** On a plain key a plain object is written and read like a [Map]. *)
Lemma plainKey_set {V : Type} (k : string) (v : V) (o : list (string * V)) :
  JsObject.plainKey k = true -> JsObject.set k v o = JsMap.set k v o.
Proof.
  unfold JsObject.plainKey, JsObject.set, JsMap.has. intros H.
  apply andb_prop in H as [H Hproto]. apply andb_prop in H as [Hidx _].
  destruct (JsMap.get k o) eqn:Hget; [reflexivity|].
  destruct (String.eqb k "__proto__"); [discriminate|].
  destruct (JsObject.arrayIndex k); [discriminate|].
  symmetry. now apply set_fresh.
Qed.

Lemma plainKey_get {V : Type} (k : string) (o : list (string * V)) :
  JsObject.plainKey k = true ->
  JsObject.get k o = match JsMap.get k o with
                     | Some v => JsObject.Own v
                     | None => JsObject.Undefined
                     end.
Proof.
  unfold JsObject.plainKey, JsObject.get. intros H.
  apply andb_prop in H as [H Hproto]. apply andb_prop in H as [_ Hmeth].
  destruct (JsMap.get k o); [reflexivity|].
  destruct (set_has k JsObject.prototypeMethods); [discriminate|].
  destruct (String.eqb k "__proto__"); [discriminate | reflexivity].
Qed.

Lemma get_asTally (k : string) (counts : list (string * nat)) :
  JsMap.get k (asTally counts) = option_map Count (JsMap.get k counts).
Proof.
  induction counts as [|[k0 n] counts IH]; simpl; [reflexivity|].
  change (@keyb string string_Key k k0) with (String.eqb k k0).
  destruct (String.eqb k k0); [reflexivity | exact IH].
Qed.

Lemma set_asTally (k : string) (n : nat) (counts : list (string * nat)) :
  JsMap.set k (Count n) (asTally counts) = asTally (JsMap.set k n counts).
Proof.
  induction counts as [|[k0 n0] counts IH]; simpl; [reflexivity|].
  change (@keyb string string_Key k k0) with (String.eqb k k0).
  destruct (String.eqb k k0); simpl; [reflexivity|]. f_equal. exact IH.
Qed.

(** On plain keys the tally is the list of counts. *)
Lemma tallyAdd_plain (counts : list (string * nat)) (k : string) :
  JsObject.plainKey k = true ->
  tallyAdd (asTally counts) k = asTally (countAdd counts k).
Proof.
  intros Hk. unfold tallyAdd, countAdd, tallyCount.
  rewrite (plainKey_set _ _ _ Hk), (plainKey_get _ _ Hk), get_asTally.
  destruct (JsMap.get k counts); simpl; apply set_asTally.
Qed.

Lemma tally_fold_plain (l : list string) (counts : list (string * nat)) :
  Forall (fun k => JsObject.plainKey k = true) l ->
  fold_left tallyAdd l (asTally counts) = asTally (fold_left countAdd l counts).
Proof.
  revert counts. induction l as [|k l IH]; intros counts Hl; simpl; [reflexivity|].
  inversion Hl as [|? ? Hk Hl']; subst. rewrite (tallyAdd_plain _ _ Hk). now apply IH.
Qed.

Lemma counts_positive (l : list string) (counts : list (string * nat)) :
  Forall (fun e => 0 < snd e) counts ->
  Forall (fun e => 0 < snd e) (fold_left countAdd l counts).
Proof.
  revert counts. induction l as [|x l IH]; intros counts Hpos; simpl; [auto|].
  apply IH. apply Forall_forall. intros e Hin. unfold countAdd in Hin.
  apply In_set in Hin as [->|Hin]; [simpl; lia|].
  rewrite Forall_forall in Hpos. now apply Hpos.
Qed.

Lemma payload_fold (l : list (string * string)) (p : VoteUpdatePayload) :
  let f := fun payload (entry : string * string) =>
             mkVoteUpdate (JsObject.set (fst entry) (snd entry) (payloadVotes payload))
                          (tallyAdd (payloadTally payload) (snd entry)) in
  payloadVotes (fold_left f l p)
  = fold_left (fun m e => JsObject.set (fst e) (snd e) m) l (payloadVotes p)
  /\ payloadTally (fold_left f l p)
     = fold_left tallyAdd (JsMap.values l) (payloadTally p).
Proof.
  intros f. revert p. induction l as [|e l IH]; intros p; simpl; [auto|].
  destruct (IH (f p e)) as [H1 H2]. now rewrite H1, H2.
Qed.

Lemma set_all_fresh {V : Type} (l acc : list (string * V)) :
  NoDup (JsMap.keys (acc ++ l)) ->
  fold_left (fun m e => JsMap.set (fst e) (snd e) m) l acc = acc ++ l.
Proof.
  revert acc. induction l as [|[k v] l IH]; intros acc Hnd; simpl.
  - now rewrite app_nil_r.
  - rewrite set_fresh.
    + rewrite IH; rewrite <- app_assoc; [reflexivity | exact Hnd].
    + apply get_None_keys. rewrite keys_app in Hnd. simpl in Hnd.
      now apply NoDup_middle_fresh in Hnd.
Qed.

Lemma object_set_all_plain {V : Type} (l acc : list (string * V)) :
  Forall (fun e => JsObject.plainKey (fst e) = true) l ->
  fold_left (fun m e => JsObject.set (fst e) (snd e) m) l acc
  = fold_left (fun m e => JsMap.set (fst e) (snd e) m) l acc.
Proof.
  revert acc. induction l as [|e l IH]; intros acc Hl; simpl; [reflexivity|].
  inversion Hl as [|? ? Hk Hl']; subst. rewrite (plainKey_set _ _ _ Hk). now apply IH.
Qed.

Lemma list_sum_set (tally : list (string * nat)) (x : string) (v : nat) :
  list_sum (JsMap.values (JsMap.set x v tally)) + tallyCount tally x
  = list_sum (JsMap.values tally) + v.
Proof.
  unfold tallyCount. induction tally as [|[k c] tally IH]; simpl; [lia|].
  change (@keyb string string_Key x k) with (String.eqb x k).
  destruct (String.eqb x k); simpl; unfold JsMap.values in *; lia.
Qed.

Lemma list_sum_countAdd (tally : list (string * nat)) (x : string) :
  list_sum (JsMap.values (countAdd tally x)) = list_sum (JsMap.values tally) + 1.
Proof.
  pose proof (list_sum_set tally x (tallyCount tally x + 1)) as H.
  unfold countAdd. lia.
Qed.

Lemma list_sum_counts_fold (l : list string) (tally : list (string * nat)) :
  list_sum (JsMap.values (fold_left countAdd l tally))
  = list_sum (JsMap.values tally) + length l.
Proof.
  revert tally. induction l as [|x l IH]; intros tally; simpl; [lia|].
  rewrite IH, list_sum_countAdd. lia.
Qed.

(** X5. For votes whose voter and target ids are plain keys, as socket ids
    are, the vote tally that is broadcast accounts for every recorded vote
    exactly once: it repeats the votes as recorded; under a player's id it
    holds the number of votes that name the player, and nothing under the id of
    a player nobody named; and its entries are counts that add up to the
    number of votes. *)
Theorem vote_tally_accounts_for_every_vote (room : Room) :
  NoDup (JsMap.keys (votes room)) ->
  Forall (fun vote => JsObject.plainKey (fst vote) = true
                      /\ JsObject.plainKey (snd vote) = true) (votes room) ->
  let payload := voteUpdatePayload room in
  payloadVotes payload = votes room
  /\ (forall c, JsMap.get c (payloadTally payload)
                = if votesFor room c =? 0 then None
                  else Some (Count (votesFor room c)))
  /\ (exists counts,
        JsMap.values (payloadTally payload) = map Count counts
        /\ list_sum counts = JsMap.size (votes room)).
Proof.
  intros Hnd Hplain payload. unfold payload, voteUpdatePayload.
  destruct (payload_fold (votes room) (mkVoteUpdate [] [])) as [Hv Ht].
  simpl in Hv, Ht. rewrite Hv, Ht.
  assert (Hvoters : Forall (fun e => JsObject.plainKey (fst e) = true) (votes room))
    by (eapply Forall_impl; [|exact Hplain]; now intros e [H _]).
  assert (Htargets : Forall (fun k => JsObject.plainKey k = true)
                            (JsMap.values (votes room))).
  { unfold JsMap.values. apply Forall_map.
    eapply Forall_impl; [|exact Hplain]. now intros e [_ H]. }
  change (@nil (string * TallyVal)) with (asTally []).
  rewrite (tally_fold_plain _ _ Htargets). fold (countsOf (JsMap.values (votes room))).
  split; [|split].
  - rewrite object_set_all_plain by exact Hvoters.
    now apply (set_all_fresh (votes room) []).
  - intros c. rewrite get_asTally.
    pose proof (tallyCount_fold (JsMap.values (votes room)) [] c) as Hc.
    fold (countsOf (JsMap.values (votes room))) in Hc.
    unfold tallyCount in Hc. simpl in Hc. fold (votesFor room c) in Hc.
    pose proof (counts_positive (JsMap.values (votes room)) [] (Forall_nil _)) as Hpos.
    fold (countsOf (JsMap.values (votes room))) in Hpos.
    destruct (JsMap.get c (countsOf (JsMap.values (votes room)))) as [n|] eqn:Hget;
      simpl.
    + apply get_In in Hget. rewrite Forall_forall in Hpos.
      specialize (Hpos _ Hget). simpl in Hpos. subst n.
      destruct (Nat.eqb_spec (votesFor room c) 0); [lia | reflexivity].
    + now rewrite <- Hc.
  - exists (JsMap.values (countsOf (JsMap.values (votes room)))). split.
    + unfold asTally, JsMap.values. rewrite !map_map. reflexivity.
    + unfold countsOf. rewrite list_sum_counts_fold. simpl.
      unfold JsMap.values, JsMap.size. now rewrite length_map.
Qed.

(** ** Eliminations and the win check *)

Lemma count_after_set (f : Player -> bool) (k : string) (p p' : Player)
    (m : Map Player) :
  JsMap.get k m = Some p ->
  length (filter f (JsMap.values (JsMap.set k p' m))) + (if f p then 1 else 0)
  = length (filter f (JsMap.values m)) + (if f p' then 1 else 0).
Proof.
  induction m as [|[k0 q] m IH]; simpl; [discriminate|].
  change (@keyb string string_Key k k0) with (String.eqb k k0).
  destruct (String.eqb k k0); simpl.
  - intros [= ->]. unfold JsMap.values. destruct (f p), (f p'); simpl; lia.
  - intros Hget. specialize (IH Hget). unfold JsMap.values in *.
    destruct (f q); simpl; lia.
Qed.

(** X6. While nobody has won, eliminating a living mafia member never makes
    the mafia win, and eliminating a living town member never makes the town
    win. *)
Theorem elimination_never_helps_own_side (room : Room) (k : string) (p : Player) :
  JsMap.get k (players room) = Some p -> alive p = true ->
  checkWinCondition room = None ->
  let room' := updPlayer k (set_alive false) room in
  (role p = mafia -> checkWinCondition room' <> Some mafia_wins)
  /\ (role p <> mafia -> checkWinCondition room' <> Some town_wins).
Proof.
  intros Hget Halive Hnone room'.
  rewrite checkWinCondition_counts in Hnone.
  unfold room', updPlayer. rewrite Hget. rewrite !checkWinCondition_counts.
  unfold livingMafia, livingTown in *. simpl players.
  pose proof (count_after_set (fun p => alive p && Role_eqb (role p) mafia)
                k p (set_alive false p) _ Hget) as Hm.
  pose proof (count_after_set (fun p => alive p && negb (Role_eqb (role p) mafia))
                k p (set_alive false p) _ Hget) as Ht.
  simpl in Hm, Ht. rewrite Halive in Hm, Ht. simpl in Hm, Ht.
  set (m' := length (filter (fun p => alive p && Role_eqb (role p) mafia)
                 (JsMap.values (JsMap.set k (set_alive false p) (players room))))) in *.
  set (t' := length (filter (fun p => alive p && negb (Role_eqb (role p) mafia))
                 (JsMap.values (JsMap.set k (set_alive false p) (players room))))) in *.
  set (m := length (filter (fun p => alive p && Role_eqb (role p) mafia)
                           (JsMap.values (players room)))) in *.
  set (t := length (filter (fun p => alive p && negb (Role_eqb (role p) mafia))
                           (JsMap.values (players room)))) in *.
  destruct (m =? 0) eqn:Em0; [discriminate|].
  destruct (t <=? m) eqn:Etm; [discriminate|].
  apply Nat.eqb_neq in Em0. apply Nat.leb_gt in Etm.
  split; intros Hrole.
  - rewrite Hrole in Hm, Ht. simpl in Hm, Ht.
    destruct (m' =? 0); [discriminate|].
    destruct (t' <=? m') eqn:E; [|discriminate]. apply Nat.leb_le in E. lia.
  - assert (Hr : Role_eqb (role p) mafia = false) by (destruct (role p) eqn:Er; try reflexivity; congruence).
    rewrite Hr in Hm, Ht. simpl in Hm, Ht.
    destruct (m' =? 0) eqn:E; [|destruct (t' <=? m'); discriminate].
    apply Nat.eqb_eq in E. lia.
Qed.

Lemma vote_tally_accounts_for_every_vote_witness :
  NoDup (JsMap.keys (votes roomVotingOpen))
  /\ payloadVotes (voteUpdatePayload roomVotingOpen) = votes roomVotingOpen
  /\ JsMap.get "sB" (payloadTally (voteUpdatePayload roomVotingOpen))
     = Some (Count 3).
Proof.
  assert (Hnd : NoDup (JsMap.keys (votes roomVotingOpen))).
  { repeat constructor; simpl; intuition discriminate. }
  assert (Hplain : Forall (fun vote => JsObject.plainKey (fst vote) = true
                                       /\ JsObject.plainKey (snd vote) = true)
                          (votes roomVotingOpen)).
  { repeat constructor. }
  destruct (vote_tally_accounts_for_every_vote roomVotingOpen Hnd Hplain)
    as (Hvotes & Hcount & _).
  split; [exact Hnd|]. split; [exact Hvotes|]. exact (Hcount "sB").
Defined.

(** In the open vote of five, with one mafia member against four: lynching
    the mafia member cannot hand the mafia the game. *)
Lemma elimination_never_helps_own_side_witness :
  checkWinCondition roomVotingOpen = None
  /\ checkWinCondition (updPlayer "sA" (set_alive false) roomVotingOpen)
     <> Some mafia_wins.
Proof.
  split; [reflexivity|].
  refine (proj1 (elimination_never_helps_own_side roomVotingOpen "sA" _
                   eq_refl eq_refl eq_refl) eq_refl).
Defined.

(** ** Chat *)

Lemma emitted_touchRoom code s : emitted (touchRoom code s) = emitted s.
Proof. unfold touchRoom. now destruct (getRoom code s). Qed.

Lemma clock_touchRoom code s : clock (touchRoom code s) = clock s.
Proof. unfold touchRoom. now destruct (getRoom code s). Qed.

Lemma sockets_touchRoom code s : sockets (touchRoom code s) = sockets s.
Proof. unfold touchRoom. now destruct (getRoom code s). Qed.

Lemma pending_touchRoom code s : pending (touchRoom code s) = pending s.
Proof. unfold touchRoom. now destruct (getRoom code s). Qed.

Lemma nextTimer_touchRoom code s : nextTimer (touchRoom code s) = nextTimer s.
Proof. unfold touchRoom. now destruct (getRoom code s). Qed.

Lemma getRoom_touchRoom_same code s room :
  getRoom code s = Some room ->
  getRoom code (touchRoom code s) = Some (set_lastActivity (clock s) room).
Proof. intros H. unfold touchRoom. rewrite H. now autorewrite with server. Qed.

(** What a chat message from a seated sender leads to: an error from the gate
    and nothing else; or the message is counted, and then either the
    rate-limit error, or nothing (the text was empty after sanitising), or the
    sanitised line going out. *)
Lemma on_chat_message_outcome socket code text channel s room player :
  getRoom code s = Some room ->
  JsMap.get socket (players room) = Some player ->
  let s' := on_chat_message socket code text channel s in
  (exists message, s' = emit (EError socket message) s)
  \/ (exists room',
        getRoom code s' = Some room'
        /\ JsMap.get socket (players room') = Some (counted (clock s) player)
        /\ clock s' = clock s /\ sockets s' = sockets s
        /\ ((emitted s' = emitted s ++ [EError socket "Slow down! (rate limit)"]
             /\ (10 < chatCount (counted (clock s) player))%Z)
            \/ (emitted s' = emitted s /\ sanitizeText text = "")
            \/ (emitted s' = emitted s ++ [EChat code socket channel (sanitizeText text)]
                /\ sanitizeText text <> ""
                /\ (chatCount (counted (clock s) player) <= 10)%Z))).
Proof.
  intros Hget Hp s'. unfold s', on_chat_message. rewrite Hget, Hp.
  match goal with
  | |- context [if ?c then emit ?e s else _] => destruct c; [left; eauto|]
  end.
  match goal with
  | |- context [match ?g with Some _ => _ | None => _ end] =>
      destruct g as [message|]; [left; eauto|]
  end.
  right. fold (counted (clock s) player).
  set (player' := counted (clock s) player).
  set (room' := set_players (JsMap.set socket player' (players room)) room).
  destruct (10 <? chatCount player')%Z eqn:Elim.
  - exists room'. autorewrite with server.
    split; [reflexivity|]. split; [simpl; apply get_set_same|].
    split; [reflexivity|]. split; [reflexivity|].
    left. split; [reflexivity|]. now apply Z.ltb_lt.
  - apply Z.ltb_ge in Elim.
    destruct (String.eqb_spec (sanitizeText text) "") as [Hempty|Hne].
    + exists room'. autorewrite with server.
      split; [reflexivity|]. split; [simpl; apply get_set_same|].
      split; [reflexivity|]. split; [reflexivity|]. right. left. auto.
    + exists (set_lastActivity (clock s) room').
      split.
      { erewrite getRoom_touchRoom_same; [reflexivity|].
        now autorewrite with server. }
      split; [simpl; apply get_set_same|].
      rewrite clock_touchRoom, sockets_touchRoom, emitted_touchRoom.
      split; [reflexivity|]. split; [reflexivity|]. right. right. auto.
Qed.

Lemma sanitizeText_shape (text : string) :
  let l := list_ascii_of_string (sanitizeText text) in
  length l <= 300
  /\ Forall (fun c => c <> "<"%char /\ c <> ">"%char) l
  /\ dropSpaces l = l.
Proof.
  unfold sanitizeText. rewrite list_ascii_of_string_of_list_ascii.
  set (kept := filter _ (list_ascii_of_string text)).
  assert (Hkept : Forall (fun c => c <> "<"%char /\ c <> ">"%char) kept).
  { apply Forall_forall. intros c Hin. apply filter_In in Hin as [_ Hc].
    split; intros ->; discriminate. }
  destruct (trim_infix kept) as (a & b & Hab & _ & _).
  rewrite Hab in Hkept. apply Forall_infix in Hkept.
  destruct (trim_ends kept) as [Hhead _].
  split; [apply firstn_le_length|]. split.
  - rewrite <- (firstn_skipn 300 (trim kept)) in Hkept.
    now apply Forall_app in Hkept.
  - apply dropSpaces_fixed. apply dropSpaces_fixed_inv in Hhead.
    now destruct (trim kept).
Qed.

(** X7. A chat line that goes out is the sender's text sanitised: it carries
    the sender's socket, room and channel, has between 1 and 300 characters,
    no angle bracket, and does not begin with white space. *)
Theorem chat_lines_are_sanitized (socket code text channel : string)
    (s : Server) (c sender ch t : string) :
  emitted (on_chat_message socket code text channel s)
  = emitted s ++ [EChat c sender ch t] ->
  c = code /\ sender = socket /\ ch = channel /\ t = sanitizeText text
  /\ 1 <= length (list_ascii_of_string t) <= 300
  /\ Forall (fun x => x <> "<"%char /\ x <> ">"%char) (list_ascii_of_string t)
  /\ dropSpaces (list_ascii_of_string t) = list_ascii_of_string t.
Proof.
  intros E.
  assert (Hout : EChat c sender ch t = EChat code socket channel (sanitizeText text)
                 /\ sanitizeText text <> "").
  { destruct (getRoom code s) as [room|] eqn:Hget.
    2:{ unfold on_chat_message in E. rewrite Hget in E.
        now apply app_nil_absurd in E. }
    destruct (JsMap.get socket (players room)) as [player|] eqn:Hp.
    2:{ unfold on_chat_message in E. rewrite Hget, Hp in E.
        now apply app_nil_absurd in E. }
    destruct (on_chat_message_outcome socket code text channel s room player Hget Hp)
      as [(message & Hs')|(room' & _ & _ & _ & _ & [[E' _]|[[E' _]|(E' & Hne & _)]])].
    - rewrite Hs' in E. apply app_one_inj in E. discriminate.
    - rewrite E' in E. apply app_one_inj in E. discriminate.
    - rewrite E' in E. now apply app_nil_absurd in E.
    - rewrite E' in E. apply app_one_inj in E. auto. }
  destruct Hout as [[= -> -> -> ->] Hne].
  repeat (split; [reflexivity|]).
  destruct (sanitizeText_shape text) as (Hlen & Hangle & Hhead).
  split; [|auto]. split; [|exact Hlen].
  destruct (list_ascii_of_string (sanitizeText text)) eqn:El; [|simpl; lia].
  exfalso. apply Hne. rewrite <- (string_of_list_ascii_of_string (sanitizeText text)).
  now rewrite El.
Qed.

Lemma chat_lines_are_sanitized_witness :
  emitted (on_chat_message "sH" "ROOM42" "  <b>who</b> lies? " "global"
                           stateVotingOpen)
  = emitted stateVotingOpen ++ [EChat "ROOM42" "sH" "global" "bwho/b lies?"]
  /\ 1 <= length (list_ascii_of_string "bwho/b lies?") <= 300.
Proof.
  assert (E : emitted (on_chat_message "sH" "ROOM42" "  <b>who</b> lies? "
                                       "global" stateVotingOpen)
              = emitted stateVotingOpen
                ++ [EChat "ROOM42" "sH" "global" "bwho/b lies?"])
    by reflexivity.
  split; [exact E|].
  exact (proj1 (proj2 (proj2 (proj2 (proj2
           (chat_lines_are_sanitized _ _ _ _ _ _ _ _ _ E)))))).
Defined.

Lemma chatsSent_emit socket code e s :
  chatsSent socket code (emit e s)
  = chatsSent socket code s
    + match e with
      | EChat c sender _ _ =>
          if String.eqb c code && String.eqb sender socket then 1 else 0
      | _ => 0
      end.
Proof.
  unfold chatsSent, emit. simpl. rewrite filter_app, length_app. simpl.
  destruct e; simpl; try lia.
  now destruct (String.eqb code0 code && String.eqb sender socket).
Qed.

Lemma chatsSent_same socket code s s' :
  emitted s' = emitted s -> chatsSent socket code s' = chatsSent socket code s.
Proof. unfold chatsSent. now intros ->. Qed.

Lemma chatsSent_one socket code e s s' :
  emitted s' = emitted s ++ [e] ->
  chatsSent socket code s' = chatsSent socket code (emit e s).
Proof. unfold chatsSent, emit. simpl. now intros ->. Qed.

(** X8. Within one 5-second window a sender gets at most ten chat lines out:
    of a burst of messages that all arrive no later than 5 s after the
    sender's window began, at most [10 - chatCount] are delivered. *)
Theorem chat_rate_limit (socket code : string) (msgs : list (Z * (string * string)))
    (s : Server) (room : Room) (player : Player) :
  getRoom code s = Some room ->
  JsMap.get socket (players room) = Some player ->
  Forall (fun m => (fst m - chatWindowStart player <= 5000)%Z) msgs ->
  (Z.of_nat (chatsSent socket code (run (chatBurst socket code msgs) s))
   <= Z.of_nat (chatsSent socket code s) + Z.max 0 (10 - chatCount player))%Z.
Proof.
  revert s room player.
  induction msgs as [|[now [text channel]] msgs IH]; intros s room player Hget Hp Hwin.
  - simpl. lia.
  - inversion Hwin as [|? ? Hnow Hwin']; subst. simpl in Hnow.
    change (run (chatBurst socket code ((now, (text, channel)) :: msgs)) s)
      with (run (chatBurst socket code msgs)
                (step now (Message socket (chat_message code text channel)) s)).
    set (s1 := set_clock now s).
    assert (Hget1 : getRoom code s1 = Some room) by exact Hget.
    assert (Hsent1 : chatsSent socket code s1 = chatsSent socket code s) by reflexivity.
    unfold step. fold s1. cbv zeta.
    destruct (set_has socket (sockets s1)).
    2:{ rewrite <- Hsent1. now apply (IH s1 room player). }
    simpl handle.
    destruct (on_chat_message_outcome socket code text channel s1 room player Hget1 Hp)
      as [(message & ->)|(room' & Hget' & Hp' & _ & _ & Hout)].
    + specialize (IH (emit (EError socket message) s1) room player Hget1 Hp Hwin').
      rewrite chatsSent_emit in IH. lia.
    + change (clock s1) with now in *.
      assert (Hkeep : (5000 <? now - chatWindowStart player)%Z = false)
        by (apply Z.ltb_ge; lia).
      assert (Hstart : chatWindowStart (counted now player) = chatWindowStart player).
      { unfold counted. now rewrite Hkeep. }
      assert (Hcount : chatCount (counted now player) = (chatCount player + 1)%Z).
      { unfold counted. now rewrite Hkeep. }
      assert (Hwin1 : Forall (fun m => (fst m - chatWindowStart (counted now player)
                                        <= 5000)%Z) msgs)
        by now rewrite Hstart.
      specialize (IH _ room' (counted now player) Hget' Hp' Hwin1).
      rewrite Hcount in *.
      destruct Hout as [[E _]|[[E _]|(E & _ & Hle)]].
      * rewrite (chatsSent_one _ _ _ _ _ E), chatsSent_emit, Hsent1 in IH.
        clear - IH. clearbody s1. lia.
      * rewrite (chatsSent_same _ _ _ _ E), Hsent1 in IH.
        clear - IH. clearbody s1. lia.
      * rewrite (chatsSent_one _ _ _ _ _ E), chatsSent_emit, Hsent1 in IH.
        rewrite !String.eqb_refl in IH.
        change (if true && true then 1 else 0) with 1 in IH.
        clear - IH Hle. clearbody s1. lia.
Qed.

Lemma chat_rate_limit_witness :
  (Z.of_nat (chatsSent "sH" "ROOM42"
               (run (chatBurst "sH" "ROOM42"
                       (repeat (157500%Z, ("who lies?", "global")) 12))
                    stateFirstChat))
   <= Z.of_nat (chatsSent "sH" "ROOM42" stateFirstChat) + 9)%Z.
Proof.
  refine (chat_rate_limit "sH" "ROOM42" _ stateFirstChat
            (roomAt "ROOM42" stateFirstChat)
            (mkPlayer "sH" "uH" "Hosty" "av" citizen true true None 1%Z 157400%Z)
            eq_refl eq_refl _).
  repeat constructor; simpl; discriminate.
Defined.

(** ** Resolutions and the end of the game *)









(** ** Early resolution of the vote *)

Lemma pending_clearRoomTimer_incl room s e :
  In e (pending (clearRoomTimer room s)) -> In e (pending s).
Proof.
  unfold clearRoomTimer, clearTimeout. destruct (timer room); simpl; [|auto].
  intros H. now apply filter_In in H.
Qed.






(** ** Rooms: creation and clean-up *)

Lemma clock_deleteRoom code s : clock (deleteRoom code s) = clock s.
Proof.
  unfold deleteRoom. destruct (getRoom code s); simpl; now autorewrite with server.
Qed.

Lemma rooms_deleteRoom code s :
  rooms (deleteRoom code s) = JsMap.delete code (rooms s).
Proof.
  unfold deleteRoom. destruct (getRoom code s); simpl; now autorewrite with server.
Qed.

Lemma getRoom_deleteRoom_other code code' s :
  code <> code' -> getRoom code (deleteRoom code' s) = getRoom code s.
Proof.
  intros Hne. unfold getRoom. rewrite rooms_deleteRoom. now apply get_delete_other.
Qed.

Lemma pending_deleteRoom_incl code s e :
  In e (pending (deleteRoom code s)) -> In e (pending s).
Proof.
  unfold deleteRoom. destruct (getRoom code s); simpl; [|auto].
  apply pending_clearRoomTimer_incl.
Qed.

Lemma deleteRoom_clears_timer code s room t :
  getRoom code s = Some room -> timer room = Some t ->
  ~ isPending t (deleteRoom code s).
Proof.
  intros Hget Ht. unfold deleteRoom. rewrite Hget. unfold clearRoomTimer.
  rewrite Ht. exact (not_pending_clearTimeout t s).
Qed.

(** The interval's loop over a snapshot [l] of the room entries. *)
Lemma cleanup_fold (l : list (string * Room)) (s : Server) :
  NoDup (JsMap.keys (rooms s)) ->
  let s' := fold_left
              (fun s entry =>
                 if (ROOM_INACTIVITY_MS <? clock s - lastActivity (snd entry))%Z
                 then deleteRoom (fst entry) s else s) l s in
  let idle (e : string * Room) :=
    (ROOM_INACTIVITY_MS <? clock s - lastActivity (snd e))%Z in
  NoDup (JsMap.keys (rooms s'))
  /\ clock s' = clock s
  /\ (forall c, getRoom c s'
                = if existsb (fun e => String.eqb (fst e) c && idle e) l
                  then None else getRoom c s)
  /\ (forall e, In e (pending s') -> In e (pending s))
  /\ (forall e t, In e l -> idle e = true -> getRoom (fst e) s = Some (snd e) ->
                  timer (snd e) = Some t -> ~ isPending t s').
Proof.
  revert s. induction l as [|e l IH]; intros s Hnd; simpl.
  - repeat split; auto.
  - set (s1 := if (ROOM_INACTIVITY_MS <? clock s - lastActivity (snd e))%Z
               then deleteRoom (fst e) s else s).
    assert (H1 : NoDup (JsMap.keys (rooms s1)) /\ clock s1 = clock s
                 /\ (forall c, getRoom c s1
                       = if String.eqb (fst e) c
                            && (ROOM_INACTIVITY_MS <? clock s - lastActivity (snd e))%Z
                         then None else getRoom c s)
                 /\ (forall x, In x (pending s1) -> In x (pending s))).
    { unfold s1. destruct (ROOM_INACTIVITY_MS <? clock s - lastActivity (snd e))%Z.
      - split; [rewrite rooms_deleteRoom; now apply NoDup_keys_delete|].
        split; [apply clock_deleteRoom|]. split.
        + intros c. rewrite andb_true_r. destruct (String.eqb_spec (fst e) c) as [<-|].
          * now apply getRoom_deleteRoom.
          * apply getRoom_deleteRoom_other. congruence.
        + intros x. apply pending_deleteRoom_incl.
      - split; [assumption|]. split; [reflexivity|]. split; [|auto].
        intros c. now rewrite andb_false_r. }
    destruct H1 as (Hnd1 & Hc1 & Hg1 & Hp1).
    destruct (IH s1 Hnd1) as (Hnd' & Hc' & Hg' & Hp' & Ht'). rewrite Hc1 in *.
    split; [exact Hnd'|]. split; [exact Hc'|]. split; [|split].
    + intros c. rewrite Hg', Hg1.
      destruct (String.eqb (fst e) c
                && (ROOM_INACTIVITY_MS <? clock s - lastActivity (snd e))%Z); simpl;
        [now destruct (existsb _ l) | reflexivity].
    + auto.
    + intros x t [<-|Hin] Hidle Hget Ht.
      * intros Hpend. unfold isPending in Hpend.
        apply in_map_iff in Hpend as (y & Hy & Hin). apply Hp' in Hin.
        apply (deleteRoom_clears_timer (fst e) s (snd e) t Hget Ht).
        unfold isPending. apply in_map_iff. exists y. split; [exact Hy|].
        unfold s1 in Hin. now rewrite Hidle in Hin.
      * destruct (getRoom (fst x) s1) as [r1|] eqn:E1.
        -- apply (Ht' x t Hin Hidle); [|exact Ht].
           rewrite Hg1 in E1.
           match type of E1 with
           | (if ?c then _ else _) = _ => destruct c eqn:Ec; [discriminate|]
           end.
           now rewrite Hg1, Ec.
        -- (* the room went with an earlier entry of the same code *)
           rewrite Hg1 in E1.
           destruct (String.eqb_spec (fst e) (fst x)) as [Heq|]; [|simpl in E1; congruence].
           destruct (ROOM_INACTIVITY_MS <? clock s - lastActivity (snd e))%Z eqn:Ee;
             [|simpl in E1; congruence].
           intros Hpend. unfold isPending in Hpend.
           apply in_map_iff in Hpend as (y & Hy & Hiny). apply Hp' in Hiny.
           rewrite <- Heq in Hget.
           apply (deleteRoom_clears_timer (fst e) s (snd x) t Hget Ht).
           unfold isPending. apply in_map_iff. exists y. split; [exact Hy|].
           exact Hiny.
Qed.


(** X12. The clean-up interval removes exactly the rooms idle for more than ten
    minutes and keeps every other room as it is; the phase timer of a removed
    room is cancelled, and no timer is added. *)
Theorem cleanup_removes_exactly_idle_rooms (s : Server) :
  NoDup (JsMap.keys (rooms s)) ->
  (forall c, getRoom c (cleanupInactive s)
             = match getRoom c s with
               | Some r =>
                   if (ROOM_INACTIVITY_MS <? clock s - lastActivity r)%Z
                   then None else Some r
               | None => None
               end)
  /\ (forall c r t,
        getRoom c s = Some r ->
        (ROOM_INACTIVITY_MS < clock s - lastActivity r)%Z ->
        timer r = Some t -> ~ isPending t (cleanupInactive s))
  /\ (forall e, In e (pending (cleanupInactive s)) -> In e (pending s)).
Proof.
  intros Hnd. destruct (cleanup_fold (rooms s) s Hnd) as (_ & _ & Hg & Hp & Ht).
  fold (cleanupInactive s) in Hg, Hp, Ht.
  split; [|split; [|exact Hp]].
  - intros c. rewrite Hg.
    destruct (getRoom c s) as [r|] eqn:Hget.
    + destruct (ROOM_INACTIVITY_MS <? clock s - lastActivity r)%Z eqn:Eidle.
      * assert (E : existsb (fun e => String.eqb (fst e) c
                       && (ROOM_INACTIVITY_MS <? clock s - lastActivity (snd e))%Z)
                      (rooms s) = true).
        { apply existsb_exists. exists (c, r). split; [now apply get_In|].
          simpl. now rewrite String.eqb_refl, Eidle. }
        now rewrite E.
      * destruct (existsb _ (rooms s)) eqn:E; [|reflexivity].
        apply existsb_exists in E as ([c0 r0] & Hin & Hc). simpl in Hc.
        apply andb_prop in Hc as [Hc Hidle]. apply String.eqb_eq in Hc. subst c0.
        apply (In_get_NoDup _ _ _ Hnd) in Hin. unfold getRoom in Hget.
        rewrite Hget in Hin. injection Hin as <-. congruence.
    + now destruct (existsb _ (rooms s)).
  - intros c r t Hget Hidle Htimer.
    apply (Ht (c, r) t); simpl; auto.
    + now apply get_In.
    + now apply Z.ltb_lt.
Qed.

(** The room of the open vote, looked at a quarter of an hour later. *)
Lemma cleanup_removes_exactly_idle_rooms_witness :
  getRoom "ROOM42" (cleanupInactive (set_clock 1057300%Z stateVotingOpen)) = None.
Proof.
  assert (Hnd : NoDup (JsMap.keys (rooms (set_clock 1057300%Z stateVotingOpen)))).
  { repeat constructor. simpl. tauto. }
  exact (proj1 (cleanup_removes_exactly_idle_rooms _ Hnd) "ROOM42").
Defined.

Lemma firstFreeCode_free draws s code :
  firstFreeCode draws s = Some code -> getRoom code s = None.
Proof.
  induction draws as [|c draws IH]; simpl; [discriminate|].
  unfold JsMap.has, getRoom. destruct (JsMap.get c (rooms s)) eqn:E; [auto|].
  now intros [= <-].
Qed.

(** The collision loop of [createRoom] settles on the first draw that is not
    the code of a room. *)
Lemma firstFreeCode_first (taken later : list string) (code : string) (s : Server) :
  Forall (fun c => getRoom c s <> None) taken -> getRoom code s = None ->
  firstFreeCode (taken ++ code :: later) s = Some code.
Proof.
  intros Htaken Hfree. induction taken as [|c taken IH]; simpl.
  - unfold JsMap.has. unfold getRoom in Hfree. now rewrite Hfree.
  - inversion Htaken as [|? ? Hc Htaken']; subst. unfold JsMap.has.
    unfold getRoom in Hc. destruct (JsMap.get c (rooms s)); [auto | congruence].
Qed.

(** X13. [create_room] never disturbs a room that exists.  With a valid
    username, the draws of the code generator being codes of existing rooms up
    to one that is free, the new room is stored under that free code: a lobby
    with the creator as its host and only player, under the sanitised name;
    the creator's socket is mapped to the room and the new session to the
    socket.  With an invalid username nothing happens but the error sent to
    the creator. *)
Theorem create_room_adds_a_fresh_lobby (socket username : string) (av : Avatar)
    (codeDraws : list string) (uuid : string) (s : Server) :
  let s' := on_create_room socket username av codeDraws uuid s in
  (forall c r, getRoom c s = Some r -> getRoom c s' = Some r)
  /\ (forall uname taken code later,
        sanitizeUsername username = Some uname ->
        codeDraws = taken ++ code :: later ->
        Forall (fun c => getRoom c s <> None) taken ->
        getRoom code s = None ->
        getRoom code s'
        = Some (set_players
                  [(socket, createPlayer socket uname av uuid (clock s))]
                  (newRoom code socket (clock s)))
        /\ JsMap.get socket (socketToRoom s') = Some code
        /\ JsMap.get uuid (sessionToSocket s') = Some socket)
  /\ (sanitizeUsername username = None ->
      s' = emit (EError socket "Invalid username (3–16 chars).") s).
Proof.
  intros s'. unfold s', on_create_room.
  destruct (sanitizeUsername username) as [uname|].
  2:{ split; [auto|]. split; [discriminate | reflexivity]. }
  split; [|split; [|discriminate]].
  - destruct (firstFreeCode codeDraws s) as [code|] eqn:Hcode; [|auto].
    pose proof (firstFreeCode_free _ _ _ Hcode) as Hfree.
    intros c r Hget. unfold registerSession, emit, getRoom, putRoom. simpl.
    rewrite get_set_other; [exact Hget|]. intros ->. congruence.
  - intros uname' taken code later [= <-] -> Htaken Hfree.
    rewrite (firstFreeCode_first _ _ _ _ Htaken Hfree).
    unfold registerSession, emit, getRoom, putRoom. simpl.
    rewrite !get_set_same. auto.
Qed.

(** ** Starting a game *)

Lemma set_unique_key (k : string) (f : Player -> Player) (m : Map Player) (p : Player) :
  NoDup (JsMap.keys m) -> JsMap.get k m = Some p ->
  JsMap.set k (f p) m
  = map (fun kv => (fst kv, if String.eqb (fst kv) k then f (snd kv) else snd kv)) m.
Proof.
  induction m as [|[k0 q] m IH]; simpl; [discriminate|]. intros Hnd Hget.
  inversion Hnd as [|? ? Hnotin Hnd']; subst.
  change (@keyb string string_Key k k0) with (String.eqb k k0) in *.
  destruct (String.eqb_spec k k0) as [->|Hne].
  - injection Hget as ->. rewrite String.eqb_refl. f_equal.
    clear IH Hnd Hnd'. induction m as [|[k1 q1] m IH]; simpl; [reflexivity|].
    destruct (String.eqb_spec k1 k0) as [->|_].
    + exfalso. apply Hnotin. now left.
    + f_equal. apply IH. intros Hin. apply Hnotin. now right.
  - destruct (String.eqb_spec k0 k) as [E|_]; [congruence|].
    f_equal. now apply IH.
Qed.

Lemma updPlayer_map (k : string) (f : Player -> Player) (room : Room) :
  NoDup (JsMap.keys (players room)) ->
  players (updPlayer k f room)
  = map (fun kv => (fst kv, if String.eqb (fst kv) k then f (snd kv) else snd kv))
        (players room).
Proof.
  intros Hnd. unfold updPlayer.
  destruct (JsMap.get k (players room)) as [p|] eqn:Hget; simpl.
  - now apply set_unique_key.
  - symmetry. rewrite <- (map_id (players room)) at 2. apply map_ext_in.
    intros [k0 q] Hin. simpl. destruct (String.eqb_spec k0 k) as [->|_]; [|reflexivity].
    apply (In_get_NoDup _ _ _ Hnd) in Hin. congruence.
Qed.

(** The roster after the role loop of [start_game]: every player holds the
    role the map gives to its key, if any. *)
Lemma applyRoles_map (roleMap : list (option string * Role)) (room : Room) :
  NoDup (JsMap.keys roleMap) -> NoDup (JsMap.keys (players room)) ->
  players (applyRoles roleMap room)
  = map (fun kv => (fst kv,
                    match JsMap.get (Some (fst kv)) roleMap with
                    | Some r => set_role r (snd kv)
                    | None => snd kv
                    end)) (players room).
Proof.
  unfold applyRoles. revert room.
  induction roleMap as [|[ok r0] roleMap IH]; intros room Hnd Hndp; simpl fold_left.
  - simpl. symmetry. rewrite <- (map_id (players room)) at 2.
    apply map_ext. now intros [k q].
  - inversion Hnd as [|? ? Hnotin Hnd']; subst.
    destruct ok as [k0|]; simpl fst; simpl snd.
    + rewrite IH; [|assumption|].
      2:{ rewrite updPlayer_map by assumption. unfold JsMap.keys in *.
          now rewrite map_map. }
      rewrite updPlayer_map by assumption. rewrite map_map. apply map_ext.
      intros [k q]. simpl.
      change (@keyb string string_Key k k0) with (String.eqb k k0).
      destruct (String.eqb_spec k k0) as [->|Hne]; [|reflexivity].
      assert (E : JsMap.get (Some k0) roleMap = None) by now apply get_None_keys.
      now rewrite E.
    + rewrite IH by assumption. apply map_ext. now intros [k q].
Qed.

Lemma filter_length_perm {A : Type} (g : A -> bool) (l l' : list A) :
  Permutation l l' -> length (filter g l) = length (filter g l').
Proof.
  induction 1 as [| x l l' _ IH | x y l | l l' l'' _ IH1 _ IH2]; simpl.
  - reflexivity.
  - destruct (g x); simpl; now rewrite IH.
  - destruct (g x), (g y); reflexivity.
  - congruence.
Qed.

(** Counting the keys a role map sends to [r] is counting its entries of [r]. *)
Lemma countRole_by_lookup (r : Role) (m : list (option string * Role)) (ks : list string) :
  NoDup (JsMap.keys m) -> Permutation (JsMap.keys m) (map Some ks) ->
  length (filter (fun k => match JsMap.get (Some k) m with
                           | Some r' => Role_eqb r' r
                           | None => false
                           end) ks)
  = countRole r m.
Proof.
  intros Hnd Hperm.
  set (g := fun ok : option string => match JsMap.get ok m with
                                      | Some r' => Role_eqb r' r
                                      | None => false
                                      end).
  transitivity (length (filter g (map Some ks))).
  { unfold g. clear. induction ks as [|k ks IH]; simpl; [reflexivity|].
    destruct (JsMap.get (Some k) m) as [r'|]; [destruct (Role_eqb r' r)|];
      simpl; now rewrite IH. }
  rewrite <- (filter_length_perm g _ _ Hperm).
  assert (Hsub : forall l, incl l m -> length (filter g (JsMap.keys l)) = countRole r l).
  { induction l as [|[ok r'] l IH]; intros Hincl; [reflexivity|].
    unfold countRole in *. simpl.
    assert (E : g ok = Role_eqb r' r).
    { unfold g. rewrite (In_get_NoDup ok r' m Hnd); [reflexivity|].
      apply Hincl. now left. }
    rewrite E. destruct (Role_eqb r' r); simpl; rewrite IH; auto;
      intros x Hx; apply Hincl; now right. }
  apply Hsub, incl_refl.
Qed.

Lemma gameStarted_emits_timers (l : list Player) (s : Server) :
  let s' := fold_left
              (fun s p => if set_has (id p) (sockets s)
                          then emit (EGameStarted (id p) (role p)) s else s) l s in
  pending s' = pending s /\ nextTimer s' = nextTimer s.
Proof.
  revert s. induction l as [|p l IH]; intros s; simpl; [auto|].
  destruct (set_has (id p) (sockets s)); [|apply IH].
  destruct (IH (emit (EGameStarted (id p) (role p)) s)); auto.
Qed.

(** The accepted branch of [start_game], as equations. *)
Lemma on_start_game_accepts socket code shuffled s room :
  getRoom code s = Some room -> hostId room = socket -> started room = false ->
  MIN_PLAYERS <= JsMap.size (players room) ->
  let room1 := applyRoles (assignRoles (JsMap.keys (players room)) shuffled)
                          (set_started true room) in
  let s' := on_start_game socket code shuffled s in
  getRoom code s'
  = Some (set_lastActivity (clock s) (set_gameStartedAt (Some (clock s)) room1))
  /\ In (nextTimer s, ((clock s + 3000)%Z, CbStartNight code)) (pending s').
Proof.
  intros Hget Hhost Hst Hmin room1 s'. unfold s', on_start_game.
  rewrite Hget, Hhost, String.eqb_refl, Hst. simpl negb. cbv iota.
  destruct (Nat.ltb_spec (JsMap.size (players room)) MIN_PLAYERS) as [|_]; [lia|].
  fold room1.
  match goal with
  | |- context [fold_left ?f ?l s] =>
      destruct (gameStarted_emits_frame l s) as (Hr & _ & _ & Hc);
      destruct (gameStarted_emits_timers l s) as (Hp & Hn);
      set (s0 := fold_left f l s) in *
  end.
  clearbody s0.
  match goal with
  | |- context [touchRoom code (putRoom code ?r s0)] =>
      set (s2 := touchRoom code (putRoom code r s0))
  end.
  assert (H2 : getRoom code s2
               = Some (set_lastActivity (clock s)
                         (set_gameStartedAt (Some (clock s)) room1))
               /\ pending s2 = pending s /\ nextTimer s2 = nextTimer s
               /\ clock s2 = clock s).
  { unfold s2. rewrite pending_touchRoom, clock_touchRoom, nextTimer_touchRoom.
    erewrite getRoom_touchRoom_same; [|now autorewrite with server].
    simpl. rewrite Hc. auto. }
  destruct H2 as (Hg2 & Hp2 & Hn2 & Hc2). clearbody s2.
  split; [now rewrite getRoom_setTimeout|].
  unfold setTimeout. simpl. rewrite Hp2, Hn2, Hc2.
  apply in_or_app. right. now left.
Qed.

Lemma rosterRoles_count (r : Role) (room : Room) :
  countRole r (rosterRoles room)
  = length (filter (fun kv => Role_eqb (role (snd kv)) r) (players room)).
Proof.
  unfold countRole, rosterRoles. induction (players room) as [|[k p] l IH]; simpl;
    [reflexivity|].
  destruct (Role_eqb (role p) r); simpl; now rewrite IH.
Qed.

(** The role map of at least four distinct players: its keys are the players
    in shuffled order, and the number of each role. *)
Lemma roleMap_facts (playerIds shuffled : list string) :
  4 <= length playerIds -> NoDup playerIds -> Permutation playerIds shuffled ->
  let n := length playerIds in
  let roleMap := assignRoles playerIds shuffled in
  JsMap.keys roleMap = map Some shuffled
  /\ NoDup (JsMap.keys roleMap)
  /\ countRole mafia roleMap = Nat.max 1 (n * 33 / 100)
  /\ countRole doctor roleMap = 1
  /\ countRole detective roleMap = (if 4 <? n then 1 else 0)
  /\ countRole citizen roleMap
     = n - Nat.max 1 (n * 33 / 100) - 1 - (if 4 <? n then 1 else 0).
Proof.
  intros Hn Hnd Hperm n roleMap.
  destruct (assignRoles_layout playerIds shuffled Hn Hnd Hperm)
    as (mafias & doc & dets & cits & Hs & Hm & Hd & Hrun).
  fold n in Hm, Hd. fold roleMap in Hrun.
  assert (Hkeys : JsMap.keys roleMap = map Some shuffled).
  { rewrite Hrun, Hs. unfold JsMap.keys.
    rewrite !map_app. simpl. rewrite !map_app, !map_map. reflexivity. }
  assert (Hlen : length shuffled = n) by (symmetry; now apply Permutation_length).
  assert (Hcits : length cits = n - length mafias - 1 - length dets).
  { rewrite <- Hlen, Hs. rewrite !length_app. simpl. rewrite length_app. lia. }
  split; [exact Hkeys|]. split.
  { rewrite Hkeys. apply Finite.Injective_map_NoDup; [intros a b [=]; assumption|].
    eapply Permutation_NoDup; eauto. }
  rewrite Hrun.
  change ((Some doc, doctor)
            :: map (fun x => (Some x, detective)) dets
            ++ map (fun x => (Some x, citizen)) cits)
    with ([(Some doc, doctor)]
            ++ map (fun x => (Some x, detective)) dets
            ++ map (fun x => (Some x, citizen)) cits).
  rewrite !countRole_app, !countRole_entries.
  rewrite <- Hm, <- Hd. unfold countRole. simpl.
  repeat split; lia.
Qed.

(** The roles in the roster once [start_game] was accepted: as many of each
    as the role map hands out. *)
Lemma started_roster_roles shuffled room (r : Role) :
  4 <= length (players room) -> NoDup (JsMap.keys (players room)) ->
  Permutation (JsMap.keys (players room)) shuffled ->
  let roleMap := assignRoles (JsMap.keys (players room)) shuffled in
  let room1 := applyRoles roleMap (set_started true room) in
  players room1
  = map (fun kv => (fst kv,
                    match JsMap.get (Some (fst kv)) roleMap with
                    | Some r => set_role r (snd kv)
                    | None => snd kv
                    end)) (players room)
  /\ countRole r (rosterRoles room1) = countRole r roleMap.
Proof.
  intros Hn Hnd Hperm roleMap room1.
  assert (Hlen : 4 <= length (JsMap.keys (players room)))
    by (unfold JsMap.keys; now rewrite length_map).
  destruct (roleMap_facts _ _ Hlen Hnd Hperm) as (Hkeys & Hndk & _).
  fold roleMap in Hkeys, Hndk.
  assert (Hpk : Permutation (JsMap.keys roleMap)
                            (map Some (JsMap.keys (players room)))).
  { rewrite Hkeys. apply Permutation_map. now symmetry. }
  assert (Hall : forall p, In p (JsMap.keys (players room)) ->
                           exists r, JsMap.get (Some p) roleMap = Some r).
  { intros p Hp. destruct (JsMap.get (Some p) roleMap) eqn:E; [eauto|].
    apply get_None_keys in E. exfalso. apply E.
    eapply Permutation_in; [symmetry; exact Hpk|]. now apply in_map. }
  assert (Hmap : players room1
                 = map (fun kv => (fst kv,
                          match JsMap.get (Some (fst kv)) roleMap with
                          | Some r => set_role r (snd kv)
                          | None => snd kv
                          end)) (players room)).
  { unfold room1. now rewrite applyRoles_map. }
  split; [exact Hmap|].
  rewrite rosterRoles_count, Hmap.
  rewrite <- (countRole_by_lookup r roleMap (JsMap.keys (players room)) Hndk Hpk).
  unfold JsMap.keys in *. clearbody roleMap. revert Hall.
  generalize (players room) as l. clear.
  induction l as [|[k p] l IH]; intros Hall; simpl; [reflexivity|].
  destruct (Hall k (or_introl eq_refl)) as (r' & Hk). simpl in Hk. rewrite Hk. simpl.
  specialize (IH (fun x Hx => Hall x (or_intror Hx))).
  destruct (Role_eqb r' r); simpl; now rewrite IH.
Qed.

Lemma applyRoles_fields (roleMap : list (option string * Role)) (room : Room) :
  started (applyRoles roleMap room) = started room
  /\ phase (applyRoles roleMap room) = phase room
  /\ timer (applyRoles roleMap room) = timer room
  /\ hostId (applyRoles roleMap room) = hostId room.
Proof.
  unfold applyRoles. revert room.
  induction roleMap as [|[[k|] r1] l IH]; intros room; simpl; [auto 6| |apply IH].
  destruct (IH (updPlayer k (set_role r1) room)) as (H1 & H2 & H3 & H4).
  rewrite H1, H2, H3, H4. unfold updPlayer.
  destruct (JsMap.get k (players room)); auto.
Qed.

(** The room an accepted [start_game] leaves. *)
Lemma on_start_game_roster (socket code : string) (shuffled : list string)
    (s : Server) (room : Room) :
  getRoom code s = Some room -> hostId room = socket -> started room = false ->
  4 <= JsMap.size (players room) ->
  NoDup (JsMap.keys (players room)) ->
  Permutation (JsMap.keys (players room)) shuffled ->
  let n := JsMap.size (players room) in
  let s' := on_start_game socket code shuffled s in
  let room' := roomAt code s' in
  started room' = true /\ phase room' = phase room /\ timer room' = timer room
  /\ JsMap.keys (players room') = JsMap.keys (players room)
  /\ (forall k p', In (k, p') (players room') ->
        exists p, In (k, p) (players room) /\ p' = set_role (role p') p)
  /\ countRole mafia (rosterRoles room') = Nat.max 1 (n * 33 / 100)
  /\ countRole doctor (rosterRoles room') = 1
  /\ countRole detective (rosterRoles room') = (if 4 <? n then 1 else 0)
  /\ countRole citizen (rosterRoles room')
     = n - Nat.max 1 (n * 33 / 100) - 1 - (if 4 <? n then 1 else 0)
  /\ In (nextTimer s, ((clock s + 3000)%Z, CbStartNight code)) (pending s').
Proof.
  intros Hget Hhost Hst Hn Hnd Hperm n s' room'.
  destruct (on_start_game_accepts socket code shuffled s room Hget Hhost Hst Hn)
    as (Hget' & Hpend).
  fold s' in Hget', Hpend.
  assert (Hlen : 4 <= length (JsMap.keys (players room)))
    by (unfold JsMap.keys; now rewrite length_map).
  destruct (roleMap_facts _ _ Hlen Hnd Hperm) as (_ & _ & Hm & Hd & Ht & Hc).
  unfold JsMap.keys in Hm, Ht, Hc. rewrite length_map in Hm, Ht, Hc.
  pose proof (fun r => started_roster_roles shuffled room r Hn Hnd Hperm) as Hroles.
  cbv zeta in Hroles.
  set (roleMap := assignRoles (JsMap.keys (players room)) shuffled) in *.
  set (room1 := applyRoles roleMap (set_started true room)) in *.
  destruct (applyRoles_fields roleMap (set_started true room)) as (H1 & H2 & H3 & _).
  fold room1 in H1, H2, H3.
  assert (Hroom' : room' = set_lastActivity (clock s)
                             (set_gameStartedAt (Some (clock s)) room1)).
  { unfold room', roomAt. now rewrite Hget'. }
  assert (Hcount : forall r, countRole r (rosterRoles room') = countRole r roleMap).
  { intros r. rewrite Hroom'. exact (proj2 (Hroles r)). }
  destruct (Hroles mafia) as (Hmap & _).
  rewrite !Hcount, Hroom'.
  split; [exact H1|]. split; [exact H2|]. split; [exact H3|].
  change (players (set_lastActivity (clock s)
                     (set_gameStartedAt (Some (clock s)) room1)))
    with (players room1).
  split.
  { rewrite Hmap. unfold JsMap.keys. rewrite map_map. reflexivity. }
  split.
  { intros k p' Hin. rewrite Hmap in Hin.
    apply in_map_iff in Hin as ([k0 p] & [= <- <-] & Hin).
    exists p. split; [exact Hin|]. simpl.
    destruct (JsMap.get (Some k0) roleMap); [reflexivity|]. now destruct p. }
  split; [exact Hm|]. split; [exact Hd|]. split; [exact Ht|]. split; [exact Hc|].
  exact Hpend.
Qed.


(** X14. An accepted [start_game] (from the host of a room not yet started,
    with at least four players, the shuffle being a rearrangement of the
    roster's ids) marks the room started, leaves every seat in place and
    changes nothing of a player but the role, hands out exactly
    [max 1 (floor (n * 0.33))] mafia roles, one doctor, one detective when
    [n > 4], and citizen to the rest, and schedules the first night 3 s later
    without touching the room's phase or its timer handle. *)
Theorem start_game_assigns_roles (socket code : string) (shuffled : list string)
    (s : Server) (room : Room) :
  getRoom code s = Some room -> hostId room = socket -> started room = false ->
  4 <= JsMap.size (players room) ->
  NoDup (JsMap.keys (players room)) ->
  Permutation (JsMap.keys (players room)) shuffled ->
  let n := JsMap.size (players room) in
  let s' := on_start_game socket code shuffled s in
  let room' := roomAt code s' in
  started room' = true /\ phase room' = phase room /\ timer room' = timer room
  /\ JsMap.keys (players room') = JsMap.keys (players room)
  /\ (forall k p', In (k, p') (players room') ->
        exists p, In (k, p) (players room) /\ p' = set_role (role p') p)
  /\ countRole mafia (rosterRoles room') = Nat.max 1 (n * 33 / 100)
  /\ countRole doctor (rosterRoles room') = 1
  /\ countRole detective (rosterRoles room') = (if 4 <? n then 1 else 0)
  /\ countRole citizen (rosterRoles room')
     = n - Nat.max 1 (n * 33 / 100) - 1 - (if 4 <? n then 1 else 0)
  /\ In (nextTimer s, ((clock s + 3000)%Z, CbStartNight code)) (pending s').
Proof. exact (on_start_game_roster socket code shuffled s room). Qed.

Lemma shuffle_of_five :
  Permutation ["sH"; "sA"; "sB"; "sC"; "sD"] ["sA"; "sB"; "sC"; "sD"; "sH"].
Proof. exact (Permutation_cons_append ["sA"; "sB"; "sC"; "sD"] "sH"). Qed.

Lemma start_game_assigns_roles_witness :
  countRole mafia
    (rosterRoles (roomAt "ROOM42"
       (on_start_game "sH" "ROOM42" ["sA"; "sB"; "sC"; "sD"; "sH"] stateLobbyOfFive)))
  = 1.
Proof.
  assert (Hnd : NoDup (JsMap.keys (players (roomAt "ROOM42" stateLobbyOfFive)))).
  { repeat constructor; simpl; intuition discriminate. }
  assert (H4 : 4 <= JsMap.size (players (roomAt "ROOM42" stateLobbyOfFive)))
    by (simpl; lia).
  destruct (start_game_assigns_roles "sH" "ROOM42" ["sA"; "sB"; "sC"; "sD"; "sH"]
              stateLobbyOfFive (roomAt "ROOM42" stateLobbyOfFive)
              eq_refl eq_refl eq_refl H4 Hnd shuffle_of_five)
    as (_ & _ & _ & _ & _ & Hm & _).
  exact Hm.
Defined.

Lemma all_alive_counts (room : Room) :
  Forall (fun kv => alive (snd kv) = true) (players room) ->
  livingMafia room = countRole mafia (rosterRoles room)
  /\ livingMafia room + livingTown room = length (players room).
Proof.
  unfold livingMafia, livingTown, countRole, rosterRoles, JsMap.values.
  induction 1 as [|[k p] l Hp _ IH]; simpl; [auto|].
  simpl in Hp. rewrite Hp. simpl. destruct (Role_eqb (role p) mafia); simpl; lia.
Qed.

(** X15. A game that starts with everybody alive is undecided: right after an
    accepted [start_game] with at least four players the win check finds no
    winner, the mafia being fewer than the others. *)
Theorem started_game_is_undecided (socket code : string) (shuffled : list string)
    (s : Server) (room : Room) :
  getRoom code s = Some room -> hostId room = socket -> started room = false ->
  4 <= JsMap.size (players room) ->
  NoDup (JsMap.keys (players room)) ->
  Permutation (JsMap.keys (players room)) shuffled ->
  Forall (fun kv => alive (snd kv) = true) (players room) ->
  let room' := roomAt code (on_start_game socket code shuffled s) in
  checkWinCondition room' = None
  /\ 0 < livingMafia room' < livingTown room'.
Proof.
  intros Hget Hhost Hst Hn Hnd Hperm Halive room'.
  destruct (on_start_game_roster socket code shuffled s room Hget Hhost Hst Hn Hnd Hperm)
    as (_ & _ & _ & Hkeys & Hsame & Hm & _).
  fold room' in Hkeys, Hsame, Hm.
  assert (Halive' : Forall (fun kv => alive (snd kv) = true) (players room')).
  { apply Forall_forall. intros [k p'] Hin. destruct (Hsame _ _ Hin) as (p & Hp & ->).
    rewrite Forall_forall in Halive. exact (Halive _ Hp). }
  destruct (all_alive_counts room' Halive') as (Hlm & Hsum).
  assert (Hlen : length (players room') = JsMap.size (players room)).
  { apply (f_equal (@length _)) in Hkeys. unfold JsMap.keys in Hkeys.
    now rewrite !length_map in Hkeys. }
  rewrite Hm in Hlm. rewrite Hlen in Hsum.
  set (n := JsMap.size (players room)) in *.
  assert (Hq : 100 * (n * 33 / 100) <= n * 33) by apply Nat.Div0.mul_div_le.
  assert (Hlt : 0 < livingMafia room' < livingTown room') by lia.
  split; [|exact Hlt].
  rewrite checkWinCondition_counts.
  destruct (livingMafia room' =? 0) eqn:E0; [apply Nat.eqb_eq in E0; lia|].
  destruct (livingTown room' <=? livingMafia room') eqn:E1; [|reflexivity].
  apply Nat.leb_le in E1. lia.
Qed.

Lemma started_game_is_undecided_witness :
  checkWinCondition
    (roomAt "ROOM42"
       (on_start_game "sH" "ROOM42" ["sA"; "sB"; "sC"; "sD"; "sH"] stateLobbyOfFive))
  = None.
Proof.
  assert (Hnd : NoDup (JsMap.keys (players (roomAt "ROOM42" stateLobbyOfFive)))).
  { repeat constructor; simpl; intuition discriminate. }
  assert (H4 : 4 <= JsMap.size (players (roomAt "ROOM42" stateLobbyOfFive)))
    by (simpl; lia).
  assert (Ha : Forall (fun kv => alive (snd kv) = true)
                      (players (roomAt "ROOM42" stateLobbyOfFive)))
    by (repeat constructor).
  exact (proj1 (started_game_is_undecided "sH" "ROOM42"
                  ["sA"; "sB"; "sC"; "sD"; "sH"]
                  stateLobbyOfFive (roomAt "ROOM42" stateLobbyOfFive)
                  eq_refl eq_refl eq_refl H4 Hnd shuffle_of_five Ha)).
Defined.

(** ** Playing again *)

(** X16. An accepted [play_again] (from the host, the game having ended) turns
    the room into a lobby again: round 0, not started, night and vote state
    empty, no timer and the old one cancelled; the seats stay, every player
    keeping id, session, name and avatar and being alive, citizen and marked
    connected again.  A [start_game] from the host is then accepted as soon as
    four players are seated. *)
Theorem play_again_reopens_the_lobby (socket c : string) (shuffled : list string)
    (s : Server) (room : Room) :
  getRoom c s = Some room -> hostId room = socket -> phase room = ended ->
  let s1 := on_play_again socket c s in
  let room1 := roomAt c s1 in
  phase room1 = lobby /\ round room1 = 0%Z /\ started room1 = false
  /\ mafiaVotes room1 = [] /\ doctorSave room1 = None /\ detectiveTarget room1 = None
  /\ votes room1 = [] /\ nightActionsSubmitted room1 = [] /\ timer room1 = None
  /\ hostId room1 = hostId room
  /\ (forall t, timer room = Some t -> ~ isPending t s1)
  /\ players room1
     = map (fun kv =>
              (fst kv,
               mkPlayer (id (snd kv)) (sessionId (snd kv)) (name (snd kv))
                        (avatar (snd kv)) citizen true true None 0%Z (clock s)))
           (players room)
  /\ (4 <= JsMap.size (players room) ->
      started (roomAt c (on_start_game socket c shuffled s1)) = true).
Proof.
  intros Hget Hhost Hphase s1 room1. subst socket.
  set (r1 := set_lastActivity (clock s)
               (set_players
                  (map (fun kv =>
                          (fst kv,
                           mkPlayer (id (snd kv)) (sessionId (snd kv))
                                    (name (snd kv)) (avatar (snd kv))
                                    citizen true true None 0%Z (clock s)))
                       (players room))
                  (mkRoom (code room) (hostId room) (players room)
                          lobby 0%Z [] None None [] None (lastActivity room)
                          [] false None))).
  assert (Hs1 : getRoom c s1 = Some r1
                /\ pending s1 = pending (clearRoomTimer room s)).
  { unfold s1, on_play_again. rewrite Hget, String.eqb_refl, Hphase.
    simpl negb. cbv iota. split.
    - rewrite getRoom_emit. erewrite getRoom_touchRoom_same;
        [|now autorewrite with server].
      unfold putRoom. simpl clock. autorewrite with server. reflexivity.
    - unfold emit. simpl. now rewrite pending_touchRoom. }
  destruct Hs1 as (Hget1 & Hpend). assert (Hr1 : r1 = r1) by reflexivity.
  unfold r1 in Hr1 at 2. clearbody r1.
  assert (Hroom1 : room1 = r1) by (unfold room1, roomAt; now rewrite Hget1).
  rewrite Hroom1, Hr1. simpl.
  repeat (split; [reflexivity|]).
  split.
  { intros t Ht Hp. unfold isPending in Hp. rewrite Hpend in Hp.
    unfold clearRoomTimer in Hp. rewrite Ht in Hp.
    exact (not_pending_clearTimeout t s Hp). }
  split; [reflexivity|].
  intros H4.
  assert (H4' : MIN_PLAYERS <= JsMap.size (players r1)).
  { rewrite Hr1. simpl. unfold JsMap.size in *. now rewrite length_map. }
  destruct (on_start_game_accepts (hostId room) c shuffled s1 r1 Hget1) as (Hget2 & _);
    [now rewrite Hr1 | now rewrite Hr1 | exact H4' |].
  unfold roomAt. rewrite Hget2.
  apply (applyRoles_fields _ (set_started true r1)).
Qed.

Lemma play_again_reopens_the_lobby_witness :
  phase (roomAt "ROOM42" (on_play_again "sH" "ROOM42" stateDropAfterEnd)) = lobby.
Proof.
  exact (proj1 (play_again_reopens_the_lobby "sH" "ROOM42" [] stateDropAfterEnd
                  (roomAt "ROOM42" stateDropAfterEnd) eq_refl eq_refl eq_refl)).
Defined.

(** ** Grace timers *)

(** X17. A reconnect that is accepted defuses the grace timer of the dropped
    socket: when that timer fires afterwards it changes nothing, whatever
    phase the room is in. *)
Theorem reconnect_defuses_grace_timer (socket session code : string) (s : Server)
    (room : Room) (found : Player) :
  roomOK room -> getRoom code s = Some room ->
  findBySession session room = Some found ->
  (forall at_, disconnectedAt found = Some at_ -> at_ <> 0%Z ->
               (clock s - at_ <= 30000)%Z) ->
  let s' := on_reconnect_player socket session code s in
  forall session', graceExpired code (id found) session' s' = s'.
Proof.
  intros Hok Hget Hfind Hwin s' session'.
  destruct (on_reconnect_player_accepts socket session code s room found
              Hget Hfind Hwin) as (Hget' & _).
  fold s' in Hget'. unfold graceExpired. rewrite Hget'.
  match goal with
  | |- context [JsMap.get (id found) (players ?r)] =>
      assert (Hp : players r
                   = JsMap.set socket
                       (set_disconnectedAt None
                          (set_connected true (set_id socket found)))
                       (JsMap.delete (id found) (players room)))
        by (simpl; now destruct (String.eqb (hostId room) (id found)))
  end.
  rewrite Hp, get_set.
  change (@keyb string string_Key (id found) socket)
    with (String.eqb (id found) socket).
  destruct (String.eqb (id found) socket); [reflexivity|].
  rewrite get_delete_same; [reflexivity | apply Hok].
Qed.

(** David dropped in the lobby and is back within the second. *)
Lemma reconnect_defuses_grace_timer_witness :
  graceExpired "ROOM42" "sD" "uD"
    (on_reconnect_player "sD2" "uD" "ROOM42" stateLobbyDrop)
  = on_reconnect_player "sD2" "uD" "ROOM42" stateLobbyDrop.
Proof.
  assert (Hok : roomOK (roomAt "ROOM42" stateLobbyDrop)).
  { unfold roomOK, keyedById. split; [repeat constructor|].
    split; [repeat constructor; simpl; intuition discriminate|].
    unfold MAX_PLAYERS. simpl. lia. }
  refine (reconnect_defuses_grace_timer "sD2" "uD" "ROOM42" stateLobbyDrop
            (roomAt "ROOM42" stateLobbyDrop)
            (mkPlayer "sD" "uD" "David" "av" citizen true false (Some 1000%Z) 0%Z 500%Z)
            Hok eq_refl eq_refl _ "uD").
  intros at_ [= <-] _. simpl. lia.
Defined.

Lemma promoteHost_fields (socket : string) (r : Room) :
  timer (promoteHost socket r) = timer r
  /\ phase (promoteHost socket r) = phase r
  /\ hostId (promoteHost socket r)
     = match JsMap.keys (players r) with
       | k :: _ => if String.eqb (hostId r) socket then k else hostId r
       | [] => hostId r
       end.
Proof.
  unfold promoteHost, JsMap.size, JsMap.keys.
  destruct (players r) as [|[k q] rest]; simpl.
  - now rewrite andb_false_r.
  - rewrite andb_true_r. now destruct (String.eqb (hostId r) socket).
Qed.

(** X18. When the grace timer of a socket fires in the lobby and the player is
    still marked disconnected, the player is removed.  If others remain, the
    room keeps them in order, and if the removed player was the host, the
    first of them (the one seated longest) becomes the host.  If nobody
    remains the room is deleted and its timer cancelled. *)
Theorem lobby_grace_expiry_removes_player (code socket session : string) (s : Server)
    (room : Room) (p : Player) :
  NoDup (JsMap.keys (rooms s)) ->
  getRoom code s = Some room -> phase room = lobby ->
  JsMap.get socket (players room) = Some p -> connected p = false ->
  let s' := graceExpired code socket session s in
  match JsMap.delete socket (players room) with
  | [] => getRoom code s' = None
          /\ forall t, timer room = Some t -> ~ isPending t s'
  | (k, q) :: rest =>
      exists room',
        getRoom code s' = Some room'
        /\ players room' = (k, q) :: rest
        /\ hostId room' = (if String.eqb (hostId room) socket then k else hostId room)
        /\ phase room' = lobby
  end.
Proof.
  intros Hnd Hget Hphase Hp Hconn s'. unfold s', graceExpired.
  rewrite Hget, Hp, Hconn, Hphase. simpl negb. simpl Phase_eqb. cbv iota.
  set (rdel := set_players (JsMap.delete socket (players room)) room).
  destruct (promoteHost_fields socket rdel) as (Ht & Hph & Hh).
  pose proof (players_promoteHost socket rdel) as Hpl.
  set (r2 := promoteHost socket rdel) in *.
  change (players rdel) with (JsMap.delete socket (players room)) in *.
  change (timer rdel) with (timer room) in Ht.
  change (phase rdel) with (phase room) in Hph.
  change (hostId rdel) with (hostId room) in Hh.
  clearbody r2. rewrite Hpl.
  destruct (JsMap.delete socket (players room)) as [|[k q] rest].
  - simpl. split.
    + apply getRoom_deleteRoom. unfold putRoom, removeSession. simpl.
      now apply NoDup_keys_set.
    + intros t Htimer. eapply deleteRoom_clears_timer.
      * apply getRoom_putRoom_same.
      * congruence.
  - simpl. rewrite getRoom_putRoom_same. exists r2.
    split; [reflexivity|]. split; [exact Hpl|]. split; [exact Hh|]. congruence.
Qed.

(** David, who dropped in the lobby of five, is removed. *)
Lemma lobby_grace_expiry_removes_player_witness :
  exists room',
    getRoom "ROOM42" (graceExpired "ROOM42" "sD" "uD" stateLobbyDrop) = Some room'
    /\ JsMap.keys (players room') = ["sH"; "sA"; "sB"; "sC"].
Proof.
  assert (Hnd : NoDup (JsMap.keys (rooms stateLobbyDrop))).
  { repeat constructor. simpl. tauto. }
  destruct (lobby_grace_expiry_removes_player "ROOM42" "sD" "uD" stateLobbyDrop
              (roomAt "ROOM42" stateLobbyDrop)
              (mkPlayer "sD" "uD" "David" "av" citizen true false (Some 1000%Z)
                        0%Z 500%Z)
              Hnd eq_refl eq_refl eq_refl eq_refl)
    as (room' & Hget' & Hplayers & _).
  exists room'. split; [exact Hget'|]. now rewrite Hplayers.
Defined.

(** ** Leaving *)

(** X19. [leave_room] only forgets which room the socket is in: the roster,
    the timers and the messages stay as they are, and when the socket
    disconnects afterwards the room is not told: no grace timer starts and the
    seat stays as it was. *)
Theorem leave_room_keeps_the_seat (socket code : string) (s : Server) :
  NoDup (JsMap.keys (socketToRoom s)) ->
  let s1 := on_leave_room socket code s in
  rooms s1 = rooms s /\ pending s1 = pending s /\ emitted s1 = emitted s
  /\ on_disconnect socket s1 = s1.
Proof.
  intros Hnd s1. repeat (split; [reflexivity|]).
  unfold on_disconnect, s1, on_leave_room. simpl.
  now rewrite get_delete_same.
Qed.

Lemma leave_room_keeps_the_seat_witness :
  on_disconnect "sB" (on_leave_room "sB" "ROOM42" stateVotingOpen)
  = on_leave_room "sB" "ROOM42" stateVotingOpen.
Proof.
  apply (leave_room_keeps_the_seat "sB" "ROOM42" stateVotingOpen).
  repeat constructor; simpl; intuition discriminate.
Defined.

(** ** Voice channels *)

Lemma In_set_delete (x y : string) (l : list string) :
  In y (set_delete x l) <-> In y l /\ y <> x.
Proof.
  unfold set_delete. rewrite filter_In. split; intros [Hin Hne]; split; auto.
  - intros ->. rewrite String.eqb_refl in Hne. discriminate.
  - destruct (String.eqb_spec y x); [contradiction | reflexivity].
Qed.

Lemma NoDup_set_delete (x : string) (l : list string) :
  NoDup l -> NoDup (set_delete x l).
Proof. apply NoDup_filter. Qed.

Lemma In_set_add (x y : string) (l : list string) :
  In y (set_add x l) <-> In y l \/ y = x.
Proof.
  unfold set_add. destruct (set_has x l) eqn:E.
  - apply set_has_In in E. split; [auto|]. intros [H| ->]; auto.
  - rewrite in_app_iff. simpl. intuition congruence.
Qed.

Lemma NoDup_set_add (x : string) (l : list string) : NoDup l -> NoDup (set_add x l).
Proof.
  intros Hnd. unfold set_add. destruct (set_has x l) eqn:E; [assumption|].
  apply NoDup_app; [assumption | repeat constructor; simpl; tauto|].
  intros y Hy [<-|[]]. apply set_has_In in Hy. congruence.
Qed.

Lemma channelsApart_without (x : string) (ch : RtcRoom) :
  channelsApart ch ->
  channelsApart (mkRtcRoom (set_delete x (general ch)) (set_delete x (mafiaSet ch))).
Proof.
  intros (Hg & Hm & Hd). unfold channelsApart. simpl.
  split; [now apply NoDup_set_delete|]. split; [now apply NoDup_set_delete|].
  intros y Hy Hy'. apply In_set_delete in Hy as [Hy _].
  apply In_set_delete in Hy' as [Hy' _]. exact (Hd y Hy Hy').
Qed.

Lemma channelsApart_join (x : string) (channel : RtcChannel) (ch : RtcRoom) :
  channelsApart ch ->
  let ch0 := mkRtcRoom (set_delete x (general ch)) (set_delete x (mafiaSet ch)) in
  channelsApart
    (match channel with
     | rtc_mafia => mkRtcRoom (general ch0) (set_add x (mafiaSet ch0))
     | rtc_general => mkRtcRoom (set_add x (general ch0)) (mafiaSet ch0)
     end).
Proof.
  intros Hap ch0. destruct (channelsApart_without x ch Hap) as (Hg & Hm & Hd).
  fold ch0 in Hg, Hm, Hd.
  assert (Hxg : ~ In x (general ch0)) by (unfold ch0; simpl; rewrite In_set_delete; tauto).
  assert (Hxm : ~ In x (mafiaSet ch0)) by (unfold ch0; simpl; rewrite In_set_delete; tauto).
  unfold channelsApart. destruct channel; simpl.
  - split; [now apply NoDup_set_add|]. split; [assumption|].
    intros y Hy Hy'. apply In_set_add in Hy as [Hy| ->]; [exact (Hd y Hy Hy')|].
    contradiction.
  - split; [assumption|]. split; [now apply NoDup_set_add|].
    intros y Hy Hy'. apply In_set_add in Hy' as [Hy'| ->]; [exact (Hd y Hy Hy')|].
    contradiction.
Qed.

Lemma rtcChannels_notify (f : Voice -> string -> Voice) (l : list string) (v : Voice) :
  (forall v p, rtcChannels (f v p) = rtcChannels v) ->
  rtcChannels (fold_left f l v) = rtcChannels v.
Proof.
  intros Hf. revert v. induction l as [|p l IH]; intros v; simpl; [reflexivity|].
  now rewrite IH, Hf.
Qed.

Lemma rtcChannels_rtcEmitTo s p e v : rtcChannels (rtcEmitTo s p e v) = rtcChannels v.
Proof. unfold rtcEmitTo. now destruct (set_has p (sockets s)). Qed.

Lemma voiceOK_set (code : string) (ch : RtcRoom) (v v' : Voice) :
  voiceOK v -> channelsApart ch ->
  rtcChannels v' = JsMap.set code ch (rtcChannels v) -> voiceOK v'.
Proof.
  intros (Hnd & Hall) Hch E. unfold voiceOK. rewrite E.
  split; [now apply NoDup_keys_set|].
  intros c ch0 Hin. apply In_set in Hin as [[= -> ->]|Hin]; [assumption|].
  exact (Hall _ _ Hin).
Qed.

Lemma voiceOK_same (v v' : Voice) :
  voiceOK v -> rtcChannels v' = rtcChannels v -> voiceOK v'.
Proof. unfold voiceOK. now intros H ->. Qed.

Lemma voiceOK_get (code : string) (ch : RtcRoom) (v : Voice) :
  voiceOK v -> JsMap.get code (rtcChannels v) = Some ch -> channelsApart ch.
Proof. intros (_ & Hall) Hget. apply (Hall code). now apply get_In. Qed.

Lemma set_set {V : Type} (k : string) (x y : V) (m : Map V) :
  JsMap.set k x (JsMap.set k y m) = JsMap.set k x m.
Proof.
  induction m as [|[k0 z] m IH]; simpl.
  - change (@keyb string string_Key k k) with (String.eqb k k).
    now rewrite String.eqb_refl.
  - change (@keyb string string_Key k k0) with (String.eqb k k0).
    destruct (String.eqb k k0) eqn:E; simpl;
      change (@keyb string string_Key k k0) with (String.eqb k k0);
      rewrite ?E; [|now rewrite IH].
    change (@keyb string string_Key k k) with (String.eqb k k).
    now rewrite String.eqb_refl.
Qed.

(** The channel sets a [rtc:join] that passed its checks writes back. *)
Lemma on_rtc_join_channels socket code channel s v room player :
  getRoom code s = Some room -> JsMap.get socket (players room) = Some player ->
  (channel = rtc_mafia -> role player = mafia) ->
  let ch := match JsMap.get code (rtcChannels v) with
            | Some ch => ch
            | None => mkRtcRoom [] []
            end in
  let ch0 := mkRtcRoom (set_delete socket (general ch))
                       (set_delete socket (mafiaSet ch)) in
  rtcChannels (on_rtc_join socket code channel s v)
  = JsMap.set code
      (match channel with
       | rtc_mafia => mkRtcRoom (general ch0) (set_add socket (mafiaSet ch0))
       | rtc_general => mkRtcRoom (set_add socket (general ch0)) (mafiaSet ch0)
       end) (rtcChannels v).
Proof.
  intros Hget Hp Hrole ch ch0. unfold on_rtc_join. rewrite Hget, Hp.
  assert (Hgate : match channel with rtc_mafia => true | rtc_general => false end
                  && negb (Role_eqb (role player) mafia) = false).
  { destruct channel; [reflexivity|]. rewrite (Hrole eq_refl). reflexivity. }
  rewrite Hgate. unfold ensureRtcRoom. subst ch0 ch.
  destruct (JsMap.get code (rtcChannels v)) as [ch|] eqn:Hch; simpl.
  - rewrite rtcChannels_notify; [reflexivity|].
    intros v0 p. destruct (String.eqb p socket); [reflexivity|].
    unfold rtcEmit. simpl. apply rtcChannels_rtcEmitTo.
  - rewrite rtcChannels_notify.
    + simpl. destruct channel; simpl; apply set_set.
    + intros v0 p. destruct (String.eqb p socket); [reflexivity|].
      unfold rtcEmit. simpl. apply rtcChannels_rtcEmitTo.
Qed.

Lemma channelsApart_empty : channelsApart (mkRtcRoom [] []).
Proof. unfold channelsApart. simpl. repeat split; try constructor. tauto. Qed.

Lemma on_rtc_leave_channels socket code s v :
  rtcChannels (on_rtc_leave socket code s v)
  = match JsMap.get code (rtcChannels v) with
    | Some ch =>
        JsMap.set code
          (mkRtcRoom (set_delete socket (general ch))
                     (set_delete socket (mafiaSet ch))) (rtcChannels v)
    | None => rtcChannels v
    end.
Proof.
  unfold on_rtc_leave. destruct (JsMap.get code (rtcChannels v)) as [ch|];
    [|reflexivity].
  rewrite rtcChannels_notify; [reflexivity|].
  intros v0 p. apply rtcChannels_rtcEmitTo.
Qed.

(** The voice part of [disconnect] is [rtc:leave] for the room the socket is
    mapped to. *)
Lemma on_rtc_disconnect_leaves socket s v :
  on_rtc_disconnect socket s v
  = match JsMap.get socket (socketToRoom s) with
    | Some code => on_rtc_leave socket code s v
    | None => v
    end.
Proof.
  unfold on_rtc_disconnect, on_rtc_leave, rtcRemoveSocket.
  destruct (JsMap.get socket (socketToRoom s)) as [code|]; [|reflexivity].
  destruct (JsMap.get code (rtcChannels v)) as [ch|] eqn:Hch.
  - simpl. now rewrite get_set_same.
  - now rewrite Hch.
Qed.

Lemma voiceOK_step (s : Server) (ev : RtcEvent) (v : Voice) :
  voiceOK v -> voiceOK (voiceStep s ev v).
Proof.
  intros Hok. destruct ev as [socket code channel|socket code|kind socket to payload|socket];
    simpl.
  - destruct (getRoom code s) as [room|] eqn:Hget;
      [|unfold on_rtc_join; now rewrite Hget].
    destruct (JsMap.get socket (players room)) as [player|] eqn:Hp;
      [|unfold on_rtc_join; now rewrite Hget, Hp].
    destruct (match channel with rtc_mafia => true | rtc_general => false end
              && negb (Role_eqb (role player) mafia)) eqn:Hgate.
    { unfold on_rtc_join. now rewrite Hget, Hp, Hgate. }
    assert (Hrole : channel = rtc_mafia -> role player = mafia).
    { intros ->. simpl in Hgate. apply negb_false_iff in Hgate.
      now apply Role_eqb_eq. }
    eapply voiceOK_set; [exact Hok| |
      exact (on_rtc_join_channels socket code channel s v room player Hget Hp Hrole)].
    apply channelsApart_join.
    destruct (JsMap.get code (rtcChannels v)) as [ch|] eqn:Hch;
      [eapply voiceOK_get; eauto | apply channelsApart_empty].
  - pose proof (on_rtc_leave_channels socket code s v) as E.
    destruct (JsMap.get code (rtcChannels v)) as [ch|] eqn:Hch.
    + eapply voiceOK_set; [exact Hok| |exact E].
      apply channelsApart_without. eapply voiceOK_get; eauto.
    + eapply voiceOK_same; eauto.
  - eapply voiceOK_same; [exact Hok|]. apply rtcChannels_rtcEmitTo.
  - rewrite on_rtc_disconnect_leaves.
    destruct (JsMap.get socket (socketToRoom s)) as [code|]; [|assumption].
    pose proof (on_rtc_leave_channels socket code s v) as E.
    destruct (JsMap.get code (rtcChannels v)) as [ch|] eqn:Hch.
    + eapply voiceOK_set; [exact Hok| |exact E].
      apply channelsApart_without. eapply voiceOK_get; eauto.
    + eapply voiceOK_same; eauto.
Qed.

(** X20. Whatever voice events arrive in whatever server states, no socket is
    ever listed twice in the audio channels of a room: each channel holds a
    socket at most once, and no socket is in the general and the mafia channel
    of a room at the same time. *)
Theorem voice_channels_stay_apart (trace : list (Server * RtcEvent)) :
  voiceOK (runVoice trace initialVoice).
Proof.
  assert (H : forall v, voiceOK v -> voiceOK (runVoice trace v)).
  { induction trace as [|[s ev] trace IH]; intros v Hok; [exact Hok|].
    apply IH. now apply voiceOK_step. }
  apply H. split; [constructor|]. intros code ch [].
Qed.

(** X21. A [rtc:join] from a socket that is not seated in the room, or that
    asks for the mafia channel without holding the mafia role, changes
    nothing.  Otherwise the socket ends up in the channel it asked for and in
    no other channel of the room, and the other sockets stay where they
    were. *)
Theorem rtc_join_admits_to_one_channel (socket code : string) (channel : RtcChannel)
    (s : Server) (v : Voice) :
  let v' := on_rtc_join socket code channel s v in
  (getRoom code s = None -> v' = v)
  /\ (forall room,
        getRoom code s = Some room ->
        match JsMap.get socket (players room) with
        | None => v' = v
        | Some player =>
            if match channel with rtc_mafia => negb (Role_eqb (role player) mafia)
                                | rtc_general => false end
            then v' = v
            else
              exists ch',
                JsMap.get code (rtcChannels v') = Some ch'
                /\ (In socket (general ch') <-> channel = rtc_general)
                /\ (In socket (mafiaSet ch') <-> channel = rtc_mafia)
                /\ forall x, x <> socket ->
                     (In x (general ch')
                      <-> exists ch, JsMap.get code (rtcChannels v) = Some ch
                                     /\ In x (general ch))
                     /\ (In x (mafiaSet ch')
                         <-> exists ch, JsMap.get code (rtcChannels v) = Some ch
                                        /\ In x (mafiaSet ch))
        end).
Proof.
  intros v'. split.
  { intros Hget. unfold v', on_rtc_join. now rewrite Hget. }
  intros room Hget.
  destruct (JsMap.get socket (players room)) as [player|] eqn:Hp;
    [|unfold v', on_rtc_join; now rewrite Hget, Hp].
  destruct (match channel with rtc_mafia => negb (Role_eqb (role player) mafia)
                             | rtc_general => false end) eqn:Hgate.
  { unfold v', on_rtc_join. rewrite Hget, Hp.
    destruct channel; [discriminate|]. simpl. now rewrite Hgate. }
  assert (Hrole : channel = rtc_mafia -> role player = mafia).
  { intros ->. apply negb_false_iff in Hgate. now apply Role_eqb_eq. }
  pose proof (on_rtc_join_channels socket code channel s v room player Hget Hp Hrole)
    as E. cbv zeta in E. fold v' in E.
  eexists. split; [rewrite E; apply get_set_same|].
  destruct (JsMap.get code (rtcChannels v)) as [ch|] eqn:Hch.
  - destruct channel; simpl; rewrite ?In_set_add, ?In_set_delete.
    + split; [split; [auto | intros _; now right]|].
      split; [split; [tauto | discriminate]|].
      intros x Hx. rewrite In_set_add, !In_set_delete. split.
      * split; [intros [[H _]|H]; [eauto | contradiction]|].
        intros (ch0 & [= <-] & H). auto.
      * split; [intros [H _]; eauto|]. intros (ch0 & [= <-] & H). auto.
    + split; [split; [tauto | discriminate]|].
      split; [split; [auto | intros _; now right]|].
      intros x Hx. rewrite In_set_add, !In_set_delete. split.
      * split; [intros [H _]; eauto|]. intros (ch0 & [= <-] & H). auto.
      * split; [intros [[H _]|H]; [eauto | contradiction]|].
        intros (ch0 & [= <-] & H). auto.
  - destruct channel; simpl.
    + split; [split; [auto | intros _; now left]|].
      split; [split; [tauto | discriminate]|].
      intros x Hx. split; (split; [|intros (ch0 & [=] & _)]).
      * intros [H|[]]. congruence.
      * intros [].
    + split; [split; [tauto | discriminate]|].
      split; [split; [auto | intros _; now left]|].
      intros x Hx. split; (split; [|intros (ch0 & [=] & _)]).
      * intros [].
      * intros [H|[]]. congruence.
Qed.

Lemma notify_emitted (s : Server) (socket : string) (l : list string) (v : Voice) :
  rtcEmitted (fold_left (fun v peerId => rtcEmitTo s peerId (EPeerLeft peerId socket) v)
                        l v)
  = rtcEmitted v
    ++ map (fun p => EPeerLeft p socket) (filter (fun p => set_has p (sockets s)) l).
Proof.
  revert v. induction l as [|p l IH]; intros v; simpl; [now rewrite app_nil_r|].
  rewrite IH. unfold rtcEmitTo. destruct (set_has p (sockets s)); simpl;
    [|reflexivity].
  now rewrite <- app_assoc.
Qed.

(** X22. [rtc:leave] takes the socket out of both channels of the room and
    tells every remaining peer whose socket is connected, and nobody else, that
    it left; for a room without channels it does nothing.  The voice part of
    [disconnect] is this same leave for the room the socket is mapped to, and
    nothing for a socket that is mapped to no room. *)
Theorem rtc_leave_removes_and_notifies (socket code : string) (s : Server) (v : Voice) :
  let v' := on_rtc_leave socket code s v in
  (forall ch,
     JsMap.get code (rtcChannels v) = Some ch ->
     peersOf code v'
     = set_delete socket (general ch) ++ set_delete socket (mafiaSet ch)
     /\ ~ In socket (peersOf code v')
     /\ rtcEmitted v'
        = rtcEmitted v
          ++ map (fun p => EPeerLeft p socket)
                 (filter (fun p => set_has p (sockets s)) (peersOf code v')))
  /\ (JsMap.get code (rtcChannels v) = None -> v' = v)
  /\ on_rtc_disconnect socket s v
     = match JsMap.get socket (socketToRoom s) with
       | Some code => on_rtc_leave socket code s v
       | None => v
       end.
Proof.
  intros v'. split; [|split; [|apply on_rtc_disconnect_leaves]].
  - intros ch Hch.
    assert (Hpeers : peersOf code v'
                     = set_delete socket (general ch)
                       ++ set_delete socket (mafiaSet ch)).
    { unfold peersOf, v'. rewrite on_rtc_leave_channels, Hch.
      now rewrite get_set_same. }
    split; [exact Hpeers|]. split.
    + rewrite Hpeers, in_app_iff, !In_set_delete. tauto.
    + rewrite Hpeers. unfold v', on_rtc_leave. rewrite Hch.
      now rewrite notify_emitted.
  - intros Hch. unfold v', on_rtc_leave. now rewrite Hch.
Qed.

(** ** Rooms that keep their code, host and seats *)

Lemma sameSeats_refl (r : Room) : sameSeats r r.
Proof. unfold sameSeats. auto. Qed.

Lemma sameSeats_trans (r1 r2 r3 : Room) :
  sameSeats r1 r2 -> sameSeats r2 r3 -> sameSeats r1 r3.
Proof. unfold sameSeats. intros (? & ? & ?) (? & ? & ?). repeat split; congruence. Qed.

Lemma sameSeats_same (r r' : Room) :
  code r' = code r -> hostId r' = hostId r -> players r' = players r ->
  sameSeats r r'.
Proof. unfold sameSeats, seatsOf. intros ? ? ->. auto. Qed.

Ltac same_seats := apply sameSeats_same; reflexivity.

Lemma seats_set_present (k : string) (p p' : Player) (m : Map Player) :
  JsMap.get k m = Some p -> name p' = name p ->
  map (fun kv => (fst kv, name (snd kv))) (JsMap.set k p' m)
  = map (fun kv => (fst kv, name (snd kv))) m.
Proof.
  intros Hget Hname. induction m as [|[k0 q] m IH]; simpl in *; [discriminate|].
  change (@keyb string string_Key k k0) with (String.eqb k k0) in *.
  destruct (String.eqb_spec k k0) as [->|Hne]; simpl.
  - injection Hget as ->. now rewrite Hname.
  - now rewrite IH.
Qed.

Lemma sameSeats_updPlayer (r : Room) (k : string) (f : Player -> Player) :
  (forall p, name (f p) = name p) -> sameSeats r (updPlayer k f r).
Proof.
  intros Hf. unfold updPlayer.
  destruct (JsMap.get k (players r)) as [p|] eqn:Hget; [|apply sameSeats_refl].
  unfold sameSeats, seatsOf. simpl. repeat split.
  now apply (seats_set_present k p).
Qed.

Lemma sameSeats_map (r r' : Room) (g : string * Player -> Player) :
  (forall kv, name (g kv) = name (snd kv)) ->
  code r' = code r -> hostId r' = hostId r ->
  players r' = map (fun kv => (fst kv, g kv)) (players r) ->
  sameSeats r r'.
Proof.
  intros Hg Hc Hh E. unfold sameSeats, seatsOf. rewrite E, map_map. simpl.
  repeat split; auto. apply map_ext. intros kv. now rewrite Hg.
Qed.

Lemma sameSeats_applyRoles (roleMap : list (option string * Role)) (r : Room) :
  sameSeats r (applyRoles roleMap r).
Proof.
  unfold applyRoles. revert r.
  induction roleMap as [|[[k|] role0] roleMap IH]; intros r; simpl.
  - apply sameSeats_refl.
  - eapply sameSeats_trans; [|apply IH]. now apply sameSeats_updPlayer.
  - apply IH.
Qed.

Lemma sameSeats_kill (o : option string) (b : bool) (room : Room) :
  sameSeats room
    (if b then match o with
               | Some k => updPlayer k (set_alive false) room
               | None => room
               end
     else room).
Proof.
  destruct b; [|apply sameSeats_refl]. destruct o; [|apply sameSeats_refl].
  now apply sameSeats_updPlayer.
Qed.

Lemma settled_refl (s : Server) : settled s s.
Proof. intros c r Hin. exists r. split; [assumption | apply sameSeats_refl]. Qed.

Lemma settled_trans (s1 s2 s3 : Server) :
  settled s1 s2 -> settled s2 s3 -> settled s1 s3.
Proof.
  intros H1 H2 c r3 Hin. destruct (H2 _ _ Hin) as (r2 & Hin2 & Hs2).
  destruct (H1 _ _ Hin2) as (r1 & Hin1 & Hs1).
  exists r1. split; [assumption | eapply sameSeats_trans; eauto].
Qed.

Lemma settled_frame (s s' : Server) : rooms s' = rooms s -> settled s s'.
Proof. intros Hr c r Hin. rewrite Hr in Hin. exists r. split; [assumption | apply sameSeats_refl]. Qed.

Lemma settled_putRoom (code : string) (r r' : Room) (s : Server) :
  getRoom code s = Some r -> sameSeats r r' -> settled s (putRoom code r' s).
Proof.
  intros Hget Hsh c x Hin. unfold putRoom in Hin. simpl in Hin.
  apply In_set in Hin as [[= -> ->]|Hin].
  - exists r. split; [now apply get_In | assumption].
  - exists x. split; [assumption | apply sameSeats_refl].
Qed.

Lemma settled_put (code : string) (r r' : Room) (s s0 : Server) :
  getRoom code s = Some r -> sameSeats r r' -> rooms s0 = rooms s ->
  settled s (putRoom code r' s0).
Proof.
  intros Hget Hsh Hr.
  apply (settled_trans s s0); [now apply settled_frame|].
  apply (settled_putRoom code r); [|assumption].
  unfold getRoom. now rewrite Hr.
Qed.

Ltac settle_put Hget := eapply settled_put; [exact Hget | | frame].

Lemma settled_deleteRoom (code : string) (s : Server) : settled s (deleteRoom code s).
Proof.
  intros c r Hin. rewrite rooms_deleteRoom in Hin. apply In_delete in Hin.
  exists r. split; [assumption | apply sameSeats_refl].
Qed.

Lemma settled_touchRoom (code : string) (s : Server) : settled s (touchRoom code s).
Proof.
  unfold touchRoom. destruct (getRoom code s) as [room|] eqn:Hget;
    [|apply settled_refl].
  apply (settled_putRoom code room); [assumption|]. same_seats.
Qed.

Lemma settled_endGame (code : string) (winner : Winner) (s : Server) :
  settled s (endGame code winner s).
Proof.
  unfold endGame. destruct (getRoom code s) as [room|] eqn:Hget;
    [|apply settled_refl].
  eapply settled_trans; [|apply settled_touchRoom].
  settle_put Hget. same_seats.
Qed.

Lemma settled_startDayPhase (code : string) (s : Server) :
  settled s (startDayPhase code s).
Proof.
  unfold startDayPhase. destruct (getRoom code s) as [room|] eqn:Hget;
    [|apply settled_refl].
  unfold setTimeout. settle_put Hget. same_seats.
Qed.

Lemma settled_startVotePhase (code : string) (s : Server) :
  settled s (startVotePhase code s).
Proof.
  unfold startVotePhase. destruct (getRoom code s) as [room|] eqn:Hget;
    [|apply settled_refl].
  unfold setTimeout. settle_put Hget. same_seats.
Qed.

Lemma settled_startNightPhase (code : string) (s : Server) :
  settled s (startNightPhase code s).
Proof.
  unfold startNightPhase. destruct (getRoom code s) as [room|] eqn:Hget;
    [|apply settled_refl].
  unfold setTimeout. settle_put Hget. same_seats.
Qed.

Lemma settled_resolveNightPhase (code : string) (d : Draws) (s : Server) :
  settled s (resolveNightPhase code d s).
Proof.
  unfold resolveNightPhase. destruct (getRoom code s) as [room|] eqn:Hget;
    [|apply settled_refl].
  destruct (negb (Phase_eqb (phase room) night)); [apply settled_refl|].
  set (result := resolveNight room d).
  set (room1 := applyNightResult result room).
  match goal with
  | |- context [putRoom code room1 ?s0] => set (s1 := putRoom code room1 s0)
  end.
  assert (H1 : settled s s1).
  { unfold s1. eapply settled_put; [exact Hget | apply sameSeats_kill | ];
      destruct (cutsceneVariant result);
      destruct (truthy (killedPlayerId result) && negb (saved result));
      try destruct (lookupPlayer (killedPlayerId result) room); reflexivity. }
  assert (Hget1 : getRoom code s1 = Some room1)
    by (unfold s1; now autorewrite with server).
  eapply settled_trans; [exact H1|].
  destruct (checkWinCondition room1); [apply settled_endGame|].
  unfold setTimeout. settle_put Hget1. same_seats.
Qed.

Lemma settled_resolveVotePhase (code : string) (s : Server) :
  settled s (resolveVotePhase code s).
Proof.
  unfold resolveVotePhase. destruct (getRoom code s) as [room|] eqn:Hget;
    [|apply settled_refl].
  destruct (negb (Phase_eqb (phase room) vote)); [apply settled_refl|].
  set (result := resolveDayVote room).
  set (room1 := applyLynch result room).
  match goal with
  | |- context [putRoom code room1 ?s0] => set (s1 := putRoom code room1 s0)
  end.
  assert (H1 : settled s s1).
  { unfold s1. eapply settled_put; [exact Hget | apply sameSeats_kill | ];
      destruct (truthy (lynchedPlayerId result));
      try destruct (lookupPlayer (lynchedPlayerId result) room); reflexivity. }
  assert (Hget1 : getRoom code s1 = Some room1)
    by (unfold s1; now autorewrite with server).
  eapply settled_trans; [exact H1|].
  destruct (checkWinCondition room1); [apply settled_endGame|].
  unfold setTimeout. settle_put Hget1. same_seats.
Qed.

Lemma settled_clearRoomTimer (room : Room) (s : Server) :
  settled s (clearRoomTimer room s).
Proof. apply settled_frame; now autorewrite with server. Qed.

Lemma settled_emit (e : Emit) (s : Server) : settled s (emit e s).
Proof. now apply settled_frame. Qed.

Lemma settled_checkNightActionsComplete (code : string) (d : Draws) (s : Server) :
  settled s (checkNightActionsComplete code d s).
Proof.
  unfold checkNightActionsComplete. destruct (getRoom code s) as [room|];
    [|apply settled_refl].
  destruct (negb (Phase_eqb (phase room) night)); [apply settled_refl|].
  destruct (nightActionsComplete room); [|apply settled_refl].
  eapply settled_trans; [apply settled_clearRoomTimer|].
  apply settled_resolveNightPhase.
Qed.

Lemma settled_recordNightAction socket code action target s :
  settled s (match recordNightAction socket code action target s with
             | inl rejected => rejected
             | inr s1 => s1
             end).
Proof.
  unfold recordNightAction. destruct (getRoom code s) as [room|] eqn:Hget;
    [|apply settled_emit].
  destruct (negb (Phase_eqb (phase room) night)); [apply settled_emit|].
  destruct (JsMap.get socket (players room)) as [player|]; [|apply settled_emit].
  destruct (negb (alive player)); [apply settled_emit|].
  destruct (set_has socket (nightActionsSubmitted room)); [apply settled_emit|].
  destruct (JsMap.get target (players room)) as [tp|]; [|apply settled_emit].
  destruct (negb (alive tp)); [apply settled_emit|].
  destruct action.
  - destruct (negb (Role_eqb (role player) mafia)); [apply settled_emit|].
    destruct (String.eqb target socket); [apply settled_emit|].
    destruct (length (mafiaVotes room) =? 0); (settle_put Hget; same_seats).
  - destruct (negb (Role_eqb (role player) doctor)); [apply settled_emit|].
    settle_put Hget; same_seats.
  - destruct (negb (Role_eqb (role player) detective)); [apply settled_emit|].
    settle_put Hget; same_seats.
Qed.

Lemma settled_on_night_action socket code action target d s :
  settled s (on_night_action socket code action target d s).
Proof.
  unfold on_night_action.
  pose proof (settled_recordNightAction socket code action target s) as H.
  destruct (recordNightAction socket code action target s); [exact H|].
  eapply settled_trans; [exact H|]. apply settled_checkNightActionsComplete.
Qed.

Lemma settled_on_day_vote socket code target s :
  settled s (on_day_vote socket code target s).
Proof.
  unfold on_day_vote. destruct (getRoom code s) as [room|] eqn:Hget;
    [|apply settled_emit].
  destruct (negb (Phase_eqb (phase room) vote)); [apply settled_emit|].
  destruct (JsMap.get socket (players room)) as [voter|]; [|apply settled_emit].
  destruct (negb (alive voter)); [apply settled_emit|].
  destruct (JsMap.get target (players room)) as [tp|]; [|apply settled_emit].
  destruct (negb (alive tp)); [apply settled_emit|].
  destruct (String.eqb target socket); [apply settled_emit|].
  match goal with
  | |- context [putRoom code ?r s] =>
      assert (H1 : settled s (emit (EVoteUpdated code (voteUpdatePayload r))
                                   (putRoom code r s)))
        by (eapply settled_trans; [|apply settled_emit];
            settle_put Hget; same_seats)
  end.
  match goal with
  | |- settled s (if ?c then _ else _) => destruct c; [|exact H1]
  end.
  eapply settled_trans; [exact H1|].
  eapply settled_trans; [apply settled_clearRoomTimer|].
  apply settled_resolveVotePhase.
Qed.

Lemma settled_on_skip_discussion socket code s :
  settled s (on_skip_discussion socket code s).
Proof.
  unfold on_skip_discussion. destruct (getRoom code s) as [room|];
    [|apply settled_emit].
  destruct (negb (String.eqb (hostId room) socket)); [apply settled_emit|].
  destruct (negb (Phase_eqb (phase room) day)); [apply settled_emit|].
  eapply settled_trans; [apply settled_clearRoomTimer|].
  apply settled_startVotePhase.
Qed.

Lemma settled_on_play_again socket code s :
  settled s (on_play_again socket code s).
Proof.
  unfold on_play_again. destruct (getRoom code s) as [room|] eqn:Hget;
    [|apply settled_emit].
  destruct (negb (String.eqb (hostId room) socket)); [apply settled_emit|].
  destruct (negb (Phase_eqb (phase room) ended)); [apply settled_emit|].
  eapply settled_trans; [|apply settled_emit].
  eapply settled_trans; [|apply settled_touchRoom].
  settle_put Hget.
  eapply sameSeats_map; cycle 3; [reflexivity | intros p; reflexivity
                                  | reflexivity | reflexivity].
Qed.

Lemma settled_on_chat_message socket code text channel s :
  settled s (on_chat_message socket code text channel s).
Proof.
  unfold on_chat_message. destruct (getRoom code s) as [room|] eqn:Hget;
    [|apply settled_refl].
  destruct (JsMap.get socket (players room)) as [player|] eqn:Hp;
    [|apply settled_refl].
  match goal with
  | |- settled s (if ?c then _ else _) => destruct c; [apply settled_emit|]
  end.
  match goal with
  | |- settled s (match ?g with Some _ => _ | None => _ end) =>
      destruct g; [apply settled_emit|]
  end.
  match goal with
  | |- context [putRoom code ?r s] =>
      assert (H1 : settled s (putRoom code r s))
  end.
  { settle_put Hget. unfold sameSeats, seatsOf. simpl. repeat split.
    apply (seats_set_present socket player); [exact Hp|].
    destruct (5000 <? clock s - chatWindowStart player)%Z; reflexivity. }
  match goal with
  | |- settled s (if ?c then _ else _) => destruct c
  end.
  - eapply settled_trans; [exact H1 | apply settled_emit].
  - destruct (String.eqb (sanitizeText text) ""); [exact H1|].
    eapply settled_trans; [exact H1|].
    eapply settled_trans; [apply settled_emit | apply settled_touchRoom].
Qed.

Lemma settled_on_start_game socket code shuffled s :
  settled s (on_start_game socket code shuffled s).
Proof.
  unfold on_start_game. destruct (getRoom code s) as [room|] eqn:Hget;
    [|apply settled_emit].
  destruct (negb (String.eqb (hostId room) socket)); [apply settled_emit|].
  destruct (started room); [apply settled_emit|].
  destruct (JsMap.size (players room) <? MIN_PLAYERS); [apply settled_emit|].
  match goal with
  | |- context [fold_left ?f ?l s] =>
      destruct (gameStarted_emits_frame l s) as (Hr & Hs & He & _);
      set (s0 := fold_left f l s) in *
  end.
  match goal with
  | |- settled s (snd (setTimeout _ _ ?s2)) =>
      apply (settled_trans s s2); [|now apply settled_frame]
  end.
  eapply settled_trans; [|apply settled_touchRoom].
  eapply settled_put; [exact Hget | | exact Hr].
  apply (sameSeats_trans room (set_started true room)); [same_seats|].
  eapply sameSeats_trans; [apply sameSeats_applyRoles|]. same_seats.
Qed.

Lemma settled_on_leave_room socket code s : settled s (on_leave_room socket code s).
Proof. now apply settled_frame. Qed.

Lemma settled_on_disconnect socket s : settled s (on_disconnect socket s).
Proof.
  unfold on_disconnect. destruct (JsMap.get socket (socketToRoom s)) as [code|];
    [|apply settled_refl].
  apply (settled_trans s (handleDisconnect socket code false s));
    [|now apply settled_frame].
  unfold handleDisconnect. destruct (getRoom code s) as [room|] eqn:Hget;
    [|apply settled_refl].
  destruct (JsMap.get socket (players room)) as [player|]; [|apply settled_refl].
  unfold setTimeout. simpl snd.
  match goal with
  | |- context [putRoom code ?r s] =>
      apply (settled_trans s (putRoom code r s)); [|now apply settled_frame]
  end.
  apply (settled_putRoom code room); [exact Hget|].
  now apply sameSeats_updPlayer.
Qed.

Lemma settled_cleanupInactive (s : Server) : settled s (cleanupInactive s).
Proof.
  unfold cleanupInactive. generalize (rooms s) as l. intros l. revert s.
  induction l as [|e l IH]; intros s; simpl; [apply settled_refl|].
  eapply settled_trans; [|apply IH].
  destruct (ROOM_INACTIVITY_MS <? clock s - lastActivity (snd e))%Z;
    [apply settled_deleteRoom | apply settled_refl].
Qed.

(** ** Sound rosters *)

Lemma seats_keys (r : Room) : JsMap.keys (players r) = map fst (seatsOf r).
Proof. unfold JsMap.keys, seatsOf. now rewrite map_map. Qed.

Lemma seats_lowerNames (r : Room) :
  lowerNames r = map (fun e => toLowerCase (snd e)) (seatsOf r).
Proof. unfold lowerNames, JsMap.values, seatsOf. now rewrite !map_map. Qed.

Lemma rosterSound_sameSeats (c : string) (r r' : Room) :
  sameSeats r r' -> rosterSound c r -> rosterSound c r'.
Proof.
  intros (Hc & Hh & Hs) (Hcode & Hhost & Hnames). unfold rosterSound.
  rewrite seats_keys, seats_lowerNames, Hs, <- seats_keys, <- seats_lowerNames.
  rewrite Hc, Hh. auto.
Qed.

Lemma serverSound_settled (s s' : Server) :
  settled s s' -> serverSound s -> serverSound s'.
Proof.
  intros Hset Hsound c r' Hin. destruct (Hset _ _ Hin) as (r & Hr & Hsame).
  eapply rosterSound_sameSeats; eauto.
Qed.

Lemma serverSound_set (s s1 : Server) (c : string) (r' : Room) :
  serverSound s -> rosterSound c r' ->
  rooms s1 = JsMap.set c r' (rooms s) -> serverSound s1.
Proof.
  intros Hsound Hr' E c0 r Hin. rewrite E in Hin.
  apply In_set in Hin as [[= -> ->]|Hin]; [assumption | now apply Hsound].
Qed.

Lemma In_keys_set (k k' : string) (p : Player) (m : Map Player) :
  In k (JsMap.keys m) -> In k (JsMap.keys (JsMap.set k' p m)).
Proof.
  unfold JsMap.keys. induction m as [|[k0 q] m IH]; simpl; [tauto|].
  change (@keyb string string_Key k' k0) with (String.eqb k' k0).
  destruct (String.eqb_spec k' k0) as [->|Hne]; simpl; tauto.
Qed.

Lemma In_keys_set_same (k : string) (p : Player) (m : Map Player) :
  In k (JsMap.keys (JsMap.set k p m)).
Proof.
  unfold JsMap.keys. induction m as [|[k0 q] m IH]; simpl; [tauto|].
  change (@keyb string string_Key k k0) with (String.eqb k k0).
  destruct (String.eqb_spec k k0) as [->|Hne]; simpl; tauto.
Qed.

Lemma In_keys_delete (k k' : string) (m : Map Player) :
  In k (JsMap.keys m) -> k <> k' -> In k (JsMap.keys (JsMap.delete k' m)).
Proof.
  unfold JsMap.keys. induction m as [|[k0 q] m IH]; simpl; [tauto|].
  change (@keyb string string_Key k' k0) with (String.eqb k' k0).
  intros [->|Hin] Hne.
  - destruct (String.eqb_spec k' k); [congruence|]. now left.
  - destruct (String.eqb_spec k' k0); [assumption|]. right. now apply IH.
Qed.

Section Names.
Variable g : Player -> string.

(** Replacing or adding a seat whose name nobody else bears. *)
Lemma names_set_fresh (k : string) (p : Player) (m : Map Player) :
  NoDup (map g (JsMap.values m)) -> ~ In (g p) (map g (JsMap.values m)) ->
  NoDup (map g (JsMap.values (JsMap.set k p m))).
Proof.
  unfold JsMap.values. induction m as [|[k0 q] m IH]; simpl; intros Hnd Hfresh.
  - repeat constructor. simpl. intuition congruence.
  - inversion Hnd as [|? ? Hnotin Hnd']; subst.
    change (@keyb string string_Key k k0) with (String.eqb k k0).
    destruct (String.eqb k k0); simpl.
    + constructor; [intuition congruence | assumption].
    + constructor; [|apply IH; intuition congruence].
      intros Hin. rewrite map_map in Hin. apply in_map_iff in Hin as ([k1 q1] & E & Hin).
      apply In_set in Hin as [[= -> ->]|Hin]; [simpl in E; intuition congruence|].
      apply Hnotin. rewrite <- E. rewrite map_map. apply in_map_iff. now exists (k1, q1).
Qed.

(** Vacating a seat takes its name out. *)
Lemma names_delete (k : string) (p : Player) (m : Map Player) :
  NoDup (map g (JsMap.values m)) -> JsMap.get k m = Some p ->
  NoDup (map g (JsMap.values (JsMap.delete k m)))
  /\ ~ In (g p) (map g (JsMap.values (JsMap.delete k m))).
Proof.
  unfold JsMap.values. induction m as [|[k0 q] m IH]; simpl; [discriminate|].
  intros Hnd Hget. inversion Hnd as [|? ? Hnotin Hnd']; subst.
  change (@keyb string string_Key k k0) with (String.eqb k k0) in *.
  destruct (String.eqb k k0).
  - injection Hget as ->. auto.
  - destruct (IH Hnd' Hget) as [Hnd1 Hfresh]. simpl. split.
    + constructor; [|assumption]. intros Hin. apply Hnotin.
      rewrite map_map in *. apply in_map_iff in Hin as (e & E & Hin).
      apply In_delete in Hin. apply in_map_iff. now exists e.
    + intros [E|Hin]; [|contradiction]. apply Hnotin. rewrite E.
      rewrite map_map. apply in_map_iff. exists (k, p). split; [reflexivity|].
      now apply get_In.
Qed.

Lemma names_delete_any (k : string) (m : Map Player) :
  NoDup (map g (JsMap.values m)) ->
  NoDup (map g (JsMap.values (JsMap.delete k m))).
Proof.
  intros Hnd. destruct (JsMap.get k m) as [p|] eqn:Hget.
  - now apply (names_delete k p).
  - replace (JsMap.delete k m) with m; [assumption|].
    clear Hnd. induction m as [|[k0 q] m IH]; simpl in *; [reflexivity|].
    change (@keyb string string_Key k k0) with (String.eqb k k0) in *.
    destruct (String.eqb k k0); [discriminate|]. now rewrite <- IH.
Qed.
End Names.

(** *** create_room *)

Lemma serverSound_on_create_room socket username av draws uuid s :
  serverSound s -> serverSound (on_create_room socket username av draws uuid s).
Proof.
  intros Hsound. unfold on_create_room.
  destruct (sanitizeUsername username) as [uname|];
    [|eapply serverSound_settled; [apply settled_emit | assumption]].
  destruct (firstFreeCode draws s) as [code|]; [|assumption].
  eapply serverSound_set; [exact Hsound| |reflexivity].
  unfold rosterSound, lowerNames. simpl. split; [reflexivity|].
  split; [now left|]. repeat constructor. simpl. tauto.
Qed.

(** *** join_room *)

Lemma serverSound_on_join_room socket code username av uuid s :
  serverSound s -> serverSound (on_join_room socket code username av uuid s).
Proof.
  intros Hsound. unfold on_join_room.
  assert (Hrej : forall e, serverSound (emit e s)).
  { intros e. eapply serverSound_settled; [apply settled_emit | assumption]. }
  destruct (getRoom (normalizeCode code) s) as [room|] eqn:Hget; [|apply Hrej].
  destruct (started room); [apply Hrej|].
  destruct (MAX_PLAYERS <=? JsMap.size (players room)); [apply Hrej|].
  destruct (sanitizeUsername username) as [uname|]; [|apply Hrej].
  match goal with
  | |- context [if ?c then emit _ s else _] => destruct c eqn:Htaken; [apply Hrej|]
  end.
  eapply serverSound_settled; [apply settled_emit|].
  eapply serverSound_settled; [apply settled_touchRoom|].
  destruct (Hsound _ _ (get_In _ _ _ Hget)) as (Hcode & Hhost & Hnames).
  eapply serverSound_set; [exact Hsound| |reflexivity].
  unfold rosterSound, lowerNames. simpl. split; [exact Hcode|].
  split; [now apply In_keys_set|].
  apply names_set_fresh; [exact Hnames|]. simpl.
  intros Hin. apply in_map_iff in Hin as (p & E & Hin).
  assert (Hex : existsb (fun p => String.eqb (toLowerCase (name p)) (toLowerCase uname))
                        (JsMap.values (players room)) = true).
  { apply existsb_exists. exists p. split; [exact Hin|]. now apply String.eqb_eq. }
  congruence.
Qed.

(** *** reconnect_player *)

Lemma serverSound_on_reconnect_player socket session code s :
  serverOK s -> serverSound s ->
  serverSound (on_reconnect_player socket session code s).
Proof.
  intros Hok Hsound. unfold on_reconnect_player.
  assert (Hrej : forall e, serverSound (emit e s)).
  { intros e. eapply serverSound_settled; [apply settled_emit | assumption]. }
  destruct (getRoom code s) as [room|] eqn:Hget; [|apply Hrej].
  destruct (findBySession session room) as [found|] eqn:Hfind; [|apply Hrej].
  match goal with
  | |- context [if ?c then emit _ s else _] => destruct c; [apply Hrej|]
  end.
  eapply serverSound_settled; [apply settled_touchRoom|].
  destruct (Hsound _ _ (get_In _ _ _ Hget)) as (Hcode & Hhost & Hnames).
  destruct (roomOK_In_seat s _ room Hok Hget) as [Hrok _].
  destruct (found_is_keyed room session found Hrok Hfind) as [Hgetf _].
  destruct (names_delete (fun p => toLowerCase (name p)) (id found) found
              (players room) Hnames Hgetf) as [Hnd1 Hfresh].
  eapply serverSound_set; [exact Hsound| |reflexivity].
  set (found' := set_disconnectedAt None (set_connected true (set_id socket found))).
  set (m1 := JsMap.set socket found' (JsMap.delete (id found) (players room))).
  assert (Hnames1 : NoDup (map (fun p => toLowerCase (name p)) (JsMap.values m1))).
  { unfold m1. apply names_set_fresh; [exact Hnd1 | exact Hfresh]. }
  unfold rosterSound, lowerNames. simpl.
  destruct (String.eqb_spec (hostId room) (id found)) as [Heq|Hne]; simpl.
  - split; [exact Hcode|]. split; [apply In_keys_set_same | exact Hnames1].
  - split; [exact Hcode|]. split; [|exact Hnames1].
    apply In_keys_set. now apply In_keys_delete.
Qed.

(** *** The grace timer *)

Lemma delete_set_same {V : Type} (k : string) (v x : V) (m : Map V) :
  JsMap.get k m = Some x -> JsMap.delete k (JsMap.set k v m) = JsMap.delete k m.
Proof.
  induction m as [|[k0 y] m IH]; simpl; [discriminate|].
  change (@keyb string string_Key k k0) with (String.eqb k k0).
  destruct (String.eqb k k0) eqn:E; simpl.
  - intros _. change (@keyb string string_Key k k) with (String.eqb k k).
    now rewrite String.eqb_refl.
  - intros Hget. change (@keyb string string_Key k k0) with (String.eqb k k0).
    now rewrite E, IH.
Qed.

Lemma serverSound_graceExpired c socket session s :
  serverSound s -> serverSound (graceExpired c socket session s).
Proof.
  intros Hsound. unfold graceExpired.
  destruct (getRoom c s) as [room|] eqn:Hget; [|assumption].
  destruct (JsMap.get socket (players room)) as [player|] eqn:Hp; [|assumption].
  destruct (negb (connected player)); [|assumption].
  destruct (Hsound _ _ (get_In _ _ _ Hget)) as (Hcode & Hhost & Hnames).
  destruct (Phase_eqb (phase room) lobby).
  - set (rdel := set_players (JsMap.delete socket (players room)) room).
    destruct (promoteHost_fields socket rdel) as (_ & _ & Hh).
    pose proof (players_promoteHost socket rdel) as Hpl.
    assert (Hcode2 : code (promoteHost socket rdel) = code room).
    { unfold promoteHost. destruct (_ && _); [|reflexivity].
      now destruct (JsMap.keys (players rdel)). }
    set (r2 := promoteHost socket rdel) in *.
    change (players rdel) with (JsMap.delete socket (players room)) in *.
    change (hostId rdel) with (hostId room) in Hh.
    clearbody r2.
    destruct (JsMap.size (players r2) =? 0) eqn:Esize.
    + (* the room goes *)
      intros c0 r Hin. rewrite rooms_deleteRoom in Hin.
      unfold putRoom, removeSession in Hin. simpl in Hin.
      rewrite (delete_set_same c r2 room (rooms s) Hget) in Hin.
      apply In_delete in Hin. now apply Hsound.
    + eapply serverSound_set; [exact Hsound| |reflexivity].
      unfold rosterSound, lowerNames. rewrite Hpl, Hcode2.
      split; [exact Hcode|].
      split; [|now apply names_delete_any].
      rewrite Hh. unfold JsMap.keys in *.
      destruct (JsMap.delete socket (players room)) as [|[k q] rest] eqn:Hdel;
        [rewrite Hpl in Esize; discriminate|].
      simpl. destruct (String.eqb_spec (hostId room) socket) as [Heq|Hne];
        [now left|].
      pose proof (In_keys_delete (hostId room) socket (players room) Hhost Hne) as Hin.
      unfold JsMap.keys in Hin. now rewrite Hdel in Hin.
  - match goal with
    | |- context [putRoom c ?r s] =>
        assert (H1 : serverSound (putRoom c r s))
    end.
    { eapply serverSound_settled; [|exact Hsound].
      apply (settled_putRoom c room); [exact Hget|].
      now apply sameSeats_updPlayer. }
    destruct (checkWinCondition _); [|exact H1].
    eapply serverSound_settled; [apply settled_endGame | exact H1].
Qed.

(** *** One turn of the event loop *)

Lemma serverSound_runCallback (cb : Callback) (d : Draws) (s : Server) :
  serverSound s -> serverSound (runCallback cb d s).
Proof.
  intros Hsound. destruct cb; simpl.
  - eapply serverSound_settled; [apply settled_startNightPhase | assumption].
  - eapply serverSound_settled; [apply settled_resolveNightPhase | assumption].
  - eapply serverSound_settled; [apply settled_startDayPhase | assumption].
  - eapply serverSound_settled; [apply settled_startVotePhase | assumption].
  - eapply serverSound_settled; [apply settled_resolveVotePhase | assumption].
  - now apply serverSound_graceExpired.
Qed.

Lemma serverSound_handle socket m s :
  serverOK s -> serverSound s -> serverSound (handle socket m s).
Proof.
  intros Hok Hsound.
  assert (Hset : forall s', settled s s' -> serverSound s').
  { intros s' H. eapply serverSound_settled; eauto. }
  destruct m; simpl.
  - now apply serverSound_on_create_room.
  - now apply serverSound_on_join_room.
  - apply Hset, settled_on_start_game.
  - apply Hset, settled_on_night_action.
  - apply Hset, settled_on_day_vote.
  - apply Hset, settled_on_skip_discussion.
  - apply Hset, settled_on_play_again.
  - apply Hset, settled_on_chat_message.
  - now apply serverSound_on_reconnect_player.
  - apply Hset, settled_on_leave_room.
Qed.

Lemma serverSound_step (now : Z) (ev : Event) (s : Server) :
  serverOK s -> serverSound s -> serverSound (step now ev s).
Proof.
  intros Hok0 Hsound0.
  assert (Hok : serverOK (set_clock now s)) by now apply serverOK_set_clock.
  assert (Hsound : serverSound (set_clock now s)) by exact Hsound0.
  unfold step. set (s0 := set_clock now s) in *.
  assert (Hset : forall s', settled s0 s' -> serverSound s').
  { intros s' H. eapply serverSound_settled; eauto. }
  destruct ev as [socket|socket m|socket|t d|].
  - destruct (set_has socket (everConnected s0)); [assumption|]. exact Hsound.
  - destruct (set_has socket (sockets s0)); [|assumption].
    now apply serverSound_handle.
  - destruct (set_has socket (sockets s0)); [|assumption].
    apply Hset. eapply settled_trans; [apply settled_on_disconnect|].
    now apply settled_frame.
  - destruct (findTimer t s0) as [[due cb]|]; [|assumption].
    apply serverSound_runCallback. exact Hsound.
  - apply Hset, settled_cleanupInactive.
Qed.

Lemma sound_run (trace : list (Z * Event)) (s : Server) :
  serverOK s -> serverSound s ->
  serverOK (run trace s) /\ serverSound (run trace s).
Proof.
  unfold run. revert s. induction trace as [|[now ev] trace IH]; intros s Hok Hsound;
    simpl; [auto|].
  apply IH; [now apply serverOK_step | now apply serverSound_step].
Qed.

Lemma sound_reachable (s : Server) (c : string) (room : Room) :
  reachable s -> getRoom c s = Some room -> roomOK room /\ rosterSound c room.
Proof.
  intros (trace & ->) Hget.
  destruct (sound_run trace initialServer serverOK_initial) as [Hok Hsound].
  { intros c0 r []. }
  split; [now apply (roomOK_In_seat _ c room Hok)|].
  apply Hsound. now apply get_In.
Qed.

(** X23. In every state the event loop reaches, the host of a room is one of
    its players (so no room is without players), and the room carries the code
    it is stored under. *)
Theorem host_is_always_seated (s : Server) (c : string) (room : Room) :
  reachable s -> getRoom c s = Some room ->
  (exists p, JsMap.get (hostId room) (players room) = Some p /\ id p = hostId room)
  /\ 1 <= JsMap.size (players room)
  /\ code room = c.
Proof.
  intros Hreach Hget.
  destruct (sound_reachable s c room Hreach Hget)
    as ((Hkeyed & Hnd & _) & Hcode & Hhost & _).
  unfold JsMap.keys in Hhost. apply in_map_iff in Hhost as ([k p] & Hk & Hin).
  simpl in Hk. subst k. split; [|split; [|exact Hcode]].
  - exists p. split; [now apply In_get_NoDup|].
    unfold keyedById in Hkeyed. rewrite Forall_forall in Hkeyed.
    exact (Hkeyed _ Hin).
  - unfold JsMap.size. destruct (players room); [contradiction | simpl; lia].
Qed.

Lemma host_is_always_seated_witness :
  exists p, JsMap.get (hostId roomVotingOpen) (players roomVotingOpen) = Some p
            /\ id p = hostId roomVotingOpen.
Proof.
  assert (Hreach : reachable stateVotingOpen)
    by (exists votingOpen; vm_compute; reflexivity).
  exact (proj1 (host_is_always_seated stateVotingOpen "ROOM42" roomVotingOpen
                  Hreach eq_refl)).
Defined.

Lemma NoDup_map_injective {A B : Type} (f : A -> B) (l : list A) (x y : A) :
  NoDup (map f l) -> In x l -> In y l -> f x = f y -> x = y.
Proof.
  induction l as [|a l IH]; simpl; [tauto|]. intros Hnd Hx Hy E.
  inversion Hnd as [|? ? Hnotin Hnd']; subst.
  destruct Hx as [->|Hx], Hy as [->|Hy]; auto.
  - exfalso. apply Hnotin. rewrite E. now apply in_map.
  - exfalso. apply Hnotin. rewrite <- E. now apply in_map.
Qed.

(** X24. In every state the event loop reaches, two different seats of a room
    never bear the same name, letter case aside. *)
Theorem names_stay_distinct (s : Server) (c : string) (room : Room)
    (k1 k2 : string) (p1 p2 : Player) :
  reachable s -> getRoom c s = Some room ->
  In (k1, p1) (players room) -> In (k2, p2) (players room) ->
  (k1, p1) <> (k2, p2) ->
  toLowerCase (name p1) <> toLowerCase (name p2).
Proof.
  intros Hreach Hget H1 H2 Hne E.
  destruct (sound_reachable s c room Hreach Hget) as (_ & _ & _ & Hnames).
  unfold lowerNames, JsMap.values in Hnames. rewrite map_map in Hnames.
  exact (Hne (NoDup_map_injective _ _ (k1, p1) (k2, p2) Hnames H1 H2 E)).
Qed.

(** Alice and Bobby in the open vote of five. *)
Lemma names_stay_distinct_witness :
  In ("sA", mkPlayer "sA" "uA" "Alice" "av" mafia true true None 0%Z 200%Z)
     (players roomVotingOpen)
  /\ In ("sB", mkPlayer "sB" "uB" "Bobby" "av" doctor true true None 0%Z 300%Z)
        (players roomVotingOpen)
  /\ toLowerCase "Alice" <> toLowerCase "Bobby".
Proof.
  assert (Hreach : reachable stateVotingOpen)
    by (exists votingOpen; vm_compute; reflexivity).
  assert (HA : In ("sA", mkPlayer "sA" "uA" "Alice" "av" mafia true true None
                                  0%Z 200%Z) (players roomVotingOpen))
    by (simpl; tauto).
  assert (HB : In ("sB", mkPlayer "sB" "uB" "Bobby" "av" doctor true true None
                                  0%Z 300%Z) (players roomVotingOpen))
    by (simpl; tauto).
  split; [exact HA|]. split; [exact HB|].
  apply (names_stay_distinct stateVotingOpen "ROOM42" roomVotingOpen _ _ _ _
           Hreach eq_refl HA HB).
  discriminate.
Defined.

Lemma count_of_present (x : string) (l : list string) :
  NoDup l -> In x l -> length (filter (fun y => String.eqb y x) l) = 1.
Proof.
  induction l as [|a l IH]; simpl; [tauto|]. intros Hnd Hin.
  inversion Hnd as [|? ? Hnotin Hnd']; subst.
  destruct (String.eqb_spec a x) as [->|Hne]; simpl.
  - f_equal. clear -Hnotin. induction l as [|b l IH]; simpl; [reflexivity|].
    destruct (String.eqb_spec b x) as [->|_]; [simpl in Hnotin; tauto|].
    apply IH. simpl in Hnotin. tauto.
  - destruct Hin as [|Hin]; [congruence|]. now apply IH.
Qed.

(** X25. In every state the event loop reaches, the public roster of a room
    (what [room_updated] broadcasts) lists the players in seat order with
    their id, name, avatar, alive and connected flags, and marks exactly one
    of them as the host. *)
Theorem public_roster_marks_one_host (s : Server) (c : string) (room : Room) :
  reachable s -> getRoom c s = Some room ->
  let public := toPublicPlayers (Some room) (hostId room) in
  map PublicPlayer.id public = JsMap.keys (players room)
  /\ map PublicPlayer.name public = map name (JsMap.values (players room))
  /\ map PublicPlayer.avatar public = map avatar (JsMap.values (players room))
  /\ map PublicPlayer.alive public = map alive (JsMap.values (players room))
  /\ map PublicPlayer.connected public = map connected (JsMap.values (players room))
  /\ length (filter PublicPlayer.isHost public) = 1
  /\ option_map update_players (roomUpdatePayload c s) = Some public.
Proof.
  intros Hreach Hget public.
  destruct (sound_reachable s c room Hreach Hget)
    as ((Hkeyed & Hnd & _) & _ & Hhost & _).
  assert (Hids : map id (JsMap.values (players room)) = JsMap.keys (players room)).
  { unfold JsMap.values, JsMap.keys. rewrite map_map. apply map_ext_in.
    intros kv Hin. unfold keyedById in Hkeyed. rewrite Forall_forall in Hkeyed.
    exact (Hkeyed _ Hin). }
  unfold public, toPublicPlayers. rewrite !map_map. simpl.
  split; [exact Hids|]. repeat (split; [reflexivity|]).
  split; [|unfold roomUpdatePayload; now rewrite Hget].
  rewrite <- (count_of_present (hostId room) _ Hnd Hhost), <- Hids.
  generalize (JsMap.values (players room)) as l. intros l.
  induction l as [|p l IH]; simpl; [reflexivity|].
  destruct (String.eqb (id p) (hostId room)); simpl; now rewrite IH.
Qed.

Lemma public_roster_marks_one_host_witness :
  length (filter PublicPlayer.isHost
            (toPublicPlayers (Some roomVotingOpen) (hostId roomVotingOpen))) = 1.
Proof.
  assert (Hreach : reachable stateVotingOpen)
    by (exists votingOpen; vm_compute; reflexivity).
  destruct (public_roster_marks_one_host stateVotingOpen "ROOM42" roomVotingOpen
              Hreach eq_refl) as (_ & _ & _ & _ & _ & Hone & _).
  exact Hone.
Defined.

(** ** Private messages *)

Lemma sends_refl P s : sends P s s.
Proof. exists []. now rewrite app_nil_r. Qed.

Lemma sends_trans P s1 s2 s3 : sends P s1 s2 -> sends P s2 s3 -> sends P s1 s3.
Proof.
  intros (n1 & E1 & F1) (n2 & E2 & F2). exists (n1 ++ n2). split.
  - now rewrite E2, E1, app_assoc.
  - apply Forall_app. now split.
Qed.

Lemma sends_weaken (P Q : Emit -> Prop) s s' :
  (forall e, P e -> Q e) -> sends P s s' -> sends Q s s'.
Proof.
  intros HPQ (new & E & F). exists new. split; [exact E|].
  eapply Forall_impl; eauto.
Qed.

Lemma sends_by P s s1 s2 : emitted s2 = emitted s1 -> sends P s s1 -> sends P s s2.
Proof. intros E (new & E1 & F). exists new. split; congruence. Qed.

Lemma sends_emit P e s s1 : P e -> sends P s s1 -> sends P s (emit e s1).
Proof.
  intros HP H. apply (sends_trans P s s1); [exact H|].
  exists [e]. split; [reflexivity | now constructor].
Qed.

Lemma sends_putRoom P s code room s1 :
  sends P s s1 -> sends P s (putRoom code room s1).
Proof. now apply sends_by. Qed.

Lemma sends_touchRoom P s code s1 : sends P s s1 -> sends P s (touchRoom code s1).
Proof. apply sends_by, emitted_touchRoom. Qed.

Lemma sends_clearRoomTimer P s room s1 :
  sends P s s1 -> sends P s (clearRoomTimer room s1).
Proof. apply sends_by, emitted_clearRoomTimer. Qed.

Lemma sends_clearTimeout P s t s1 : sends P s s1 -> sends P s (clearTimeout t s1).
Proof. now apply sends_by. Qed.

Lemma sends_setTimeout P s cb delay s1 :
  sends P s s1 -> sends P s (snd (setTimeout cb delay s1)).
Proof. now apply sends_by. Qed.

Lemma sends_set_socketToRoom P s m s1 :
  sends P s s1 -> sends P s (set_socketToRoom m s1).
Proof. now apply sends_by. Qed.

Lemma sends_set_sockets P s l s1 : sends P s s1 -> sends P s (set_sockets l s1).
Proof. now apply sends_by. Qed.

Lemma sends_registerSession P s session socket s1 :
  sends P s s1 -> sends P s (registerSession session socket s1).
Proof. now apply sends_by. Qed.

Lemma sends_removeSession P s session s1 :
  sends P s s1 -> sends P s (removeSession session s1).
Proof. now apply sends_by. Qed.

Lemma sends_deleteRoom P s code s1 : sends P s s1 -> sends P s (deleteRoom code s1).
Proof.
  apply sends_by. unfold deleteRoom. simpl.
  destruct (getRoom code s1); [apply emitted_clearRoomTimer | reflexivity].
Qed.

(** Peels the operations that send nothing, and the messages that are not
    private, off the state a handler returns. *)
Ltac hush :=
  repeat first
    [ apply sends_refl
    | assumption
    | apply sends_emit; [reflexivity|]
    | apply sends_putRoom
    | apply sends_touchRoom
    | apply sends_clearRoomTimer
    | apply sends_clearTimeout
    | apply sends_setTimeout
    | apply sends_set_socketToRoom
    | apply sends_set_sockets
    | apply sends_registerSession
    | apply sends_removeSession
    | apply sends_deleteRoom ].

Lemma discreet_endGame code winner s0 s :
  discreet s0 s -> discreet s0 (endGame code winner s).
Proof.
  intros H. unfold discreet, endGame in *. destruct (getRoom code s); hush.
Qed.

Lemma discreet_startDayPhase code s0 s :
  discreet s0 s -> discreet s0 (startDayPhase code s).
Proof.
  intros H. unfold discreet, startDayPhase, setTimeout in *.
  destruct (getRoom code s); hush.
Qed.

Lemma discreet_startVotePhase code s0 s :
  discreet s0 s -> discreet s0 (startVotePhase code s).
Proof.
  intros H. unfold discreet, startVotePhase, setTimeout in *.
  destruct (getRoom code s); hush.
Qed.

Lemma discreet_startNightPhase code s0 s :
  discreet s0 s -> discreet s0 (startNightPhase code s).
Proof.
  intros H. unfold discreet, startNightPhase, setTimeout in *.
  destruct (getRoom code s); hush.
Qed.

Lemma discreet_resolveNightPhase code d s0 s :
  discreet s0 s -> discreet s0 (resolveNightPhase code d s).
Proof.
  intros H. unfold resolveNightPhase.
  destruct (getRoom code s) as [room|]; [|exact H].
  destruct (negb (Phase_eqb (phase room) night)); [exact H|].
  set (result := resolveNight room d). set (room1 := applyNightResult result room).
  match goal with
  | |- context [putRoom code room1 ?s2] => set (s1 := putRoom code room1 s2)
  end.
  assert (H1 : discreet s0 s1).
  { unfold s1, discreet in *.
    destruct (cutsceneVariant result);
      destruct (truthy (killedPlayerId result) && negb (saved result));
      try destruct (lookupPlayer (killedPlayerId result) room); hush. }
  clearbody s1.
  destruct (checkWinCondition room1); [now apply discreet_endGame|].
  unfold discreet, setTimeout in *. hush.
Qed.

Lemma discreet_resolveVotePhase code s0 s :
  discreet s0 s -> discreet s0 (resolveVotePhase code s).
Proof.
  intros H. unfold resolveVotePhase.
  destruct (getRoom code s) as [room|]; [|exact H].
  destruct (negb (Phase_eqb (phase room) vote)); [exact H|].
  set (result := resolveDayVote room). set (room1 := applyLynch result room).
  match goal with
  | |- context [putRoom code room1 ?s2] => set (s1 := putRoom code room1 s2)
  end.
  assert (H1 : discreet s0 s1).
  { unfold s1, discreet in *.
    destruct (truthy (lynchedPlayerId result));
      try destruct (lookupPlayer (lynchedPlayerId result) room); hush. }
  clearbody s1.
  destruct (checkWinCondition room1); [now apply discreet_endGame|].
  unfold discreet, setTimeout in *. hush.
Qed.

Lemma discreet_checkNightActionsComplete code d s0 s :
  discreet s0 s -> discreet s0 (checkNightActionsComplete code d s).
Proof.
  intros H. unfold checkNightActionsComplete.
  destruct (getRoom code s) as [room|]; [|exact H].
  destruct (negb (Phase_eqb (phase room) night)); [exact H|].
  destruct (nightActionsComplete room); [|exact H].
  apply discreet_resolveNightPhase. unfold discreet in *. hush.
Qed.

Lemma discreet_graceExpired code socket session s0 s :
  discreet s0 s -> discreet s0 (graceExpired code socket session s).
Proof.
  intros H. unfold graceExpired.
  destruct (getRoom code s) as [room|]; [|exact H].
  destruct (JsMap.get socket (players room)) as [p|]; [|exact H].
  destruct (negb (connected p)); [|exact H].
  destruct (Phase_eqb (phase room) lobby).
  - match goal with |- context [if ?c then _ else _] => destruct c end;
      unfold discreet in *; hush.
  - destruct (checkWinCondition _); [apply discreet_endGame|];
      unfold discreet in *; hush.
Qed.

Lemma discreet_handleDisconnect socket code permanent s0 s :
  discreet s0 s -> discreet s0 (handleDisconnect socket code permanent s).
Proof.
  intros H. unfold handleDisconnect.
  destruct (getRoom code s) as [room|]; [|exact H].
  destruct (JsMap.get socket (players room)) as [p|]; [|exact H].
  destruct permanent.
  - match goal with |- context [if ?c then _ else _] => destruct c end;
      unfold discreet in *; hush.
  - unfold discreet in *. hush.
Qed.

Lemma discreet_on_disconnect socket s0 s :
  discreet s0 s -> discreet s0 (on_disconnect socket s).
Proof.
  intros H. unfold on_disconnect.
  destruct (JsMap.get socket (socketToRoom s)); [|exact H].
  apply sends_set_socketToRoom. now apply discreet_handleDisconnect.
Qed.

Lemma discreet_cleanupInactive s0 s :
  discreet s0 s -> discreet s0 (cleanupInactive s).
Proof.
  unfold cleanupInactive. generalize (rooms s) as l. intros l. revert s.
  induction l as [|x l IH]; intros s H; simpl; [exact H|].
  apply IH. destruct (_ <? _)%Z; [|exact H]. unfold discreet in *. hush.
Qed.

Lemma discreet_runCallback cb d s0 s :
  discreet s0 s -> discreet s0 (runCallback cb d s).
Proof.
  intros H. destruct cb; simpl.
  - now apply discreet_startNightPhase.
  - now apply discreet_resolveNightPhase.
  - now apply discreet_startDayPhase.
  - now apply discreet_startVotePhase.
  - now apply discreet_resolveVotePhase.
  - now apply discreet_graceExpired.
Qed.

Lemma discreet_on_create_room socket username av codeDraws uuid s :
  discreet s (on_create_room socket username av codeDraws uuid s).
Proof.
  unfold discreet, on_create_room. destruct (sanitizeUsername username); [|hush].
  destruct (firstFreeCode codeDraws s); hush.
Qed.

Lemma discreet_on_join_room socket code username av uuid s :
  discreet s (on_join_room socket code username av uuid s).
Proof.
  unfold discreet, on_join_room. cbv zeta.
  destruct (getRoom (normalizeCode code) s) as [room|]; [|hush].
  destruct (started room); [hush|].
  destruct (MAX_PLAYERS <=? JsMap.size (players room)); [hush|].
  destruct (sanitizeUsername username); [|hush].
  destruct (existsb _ _); hush.
Qed.

Lemma discreet_on_day_vote socket code target s :
  discreet s (on_day_vote socket code target s).
Proof.
  unfold on_day_vote.
  destruct (getRoom code s) as [room|]; [|unfold discreet; hush].
  destruct (negb (Phase_eqb (phase room) vote)); [unfold discreet; hush|].
  destruct (JsMap.get socket (players room)) as [voter|]; [|unfold discreet; hush].
  destruct (negb (alive voter)); [unfold discreet; hush|].
  destruct (JsMap.get target (players room)) as [tp|]; [|unfold discreet; hush].
  destruct (negb (alive tp)); [unfold discreet; hush|].
  destruct (String.eqb target socket); [unfold discreet; hush|].
  cbv zeta. match goal with |- context [if ?c then _ else _] => destruct c end.
  - apply discreet_resolveVotePhase. unfold discreet. hush.
  - unfold discreet. hush.
Qed.

Lemma discreet_on_skip_discussion socket code s :
  discreet s (on_skip_discussion socket code s).
Proof.
  unfold on_skip_discussion.
  destruct (getRoom code s) as [room|]; [|unfold discreet; hush].
  destruct (negb (String.eqb (hostId room) socket)); [unfold discreet; hush|].
  destruct (negb (Phase_eqb (phase room) day)); [unfold discreet; hush|].
  apply discreet_startVotePhase. unfold discreet. hush.
Qed.

Lemma discreet_on_play_again socket code s :
  discreet s (on_play_again socket code s).
Proof.
  unfold discreet, on_play_again.
  destruct (getRoom code s) as [room|]; [|hush].
  destruct (negb (String.eqb (hostId room) socket)); [hush|].
  destruct (negb (Phase_eqb (phase room) ended)); hush.
Qed.

Lemma discreet_on_chat_message socket code text channel s :
  discreet s (on_chat_message socket code text channel s).
Proof.
  unfold discreet, on_chat_message.
  destruct (getRoom code s) as [room|]; [|hush].
  destruct (JsMap.get socket (players room)) as [p|]; [|hush].
  destruct (negb (alive p) && _); [hush|].
  match goal with
  | |- context [match ?g with Some _ => _ | None => _ end] => destruct g
  end; [hush|].
  cbv zeta. match goal with |- context [if ?c then _ else _] => destruct c end;
    [hush|].
  destruct (String.eqb _ ""); hush.
Qed.

Lemma discreet_on_leave_room socket code s : discreet s (on_leave_room socket code s).
Proof. unfold discreet, on_leave_room. hush. Qed.

Lemma discreet_sends (P : Emit -> Prop) s s' :
  discreet s s' -> sends (fun e => isPrivate e = false \/ P e) s s'.
Proof. apply sends_weaken. intros e H. now left. Qed.

Lemma sends_then_discreet (P : Emit -> Prop) s0 s s' :
  sends (fun e => isPrivate e = false \/ P e) s0 s -> discreet s s' ->
  sends (fun e => isPrivate e = false \/ P e) s0 s'.
Proof.
  intros H Hd. apply (sends_trans _ s0 s); [exact H|]. now apply discreet_sends.
Qed.

(** What [night_action] sends in private is the answer to an accepted
    investigation. *)
Lemma sends_on_night_action socket code action target d s :
  sends (fun e =>
           isPrivate e = false
           \/ exists room p tp,
                e = EDetectiveResult socket target (Role_eqb (role tp) mafia)
                /\ action = investigate
                /\ getRoom code s = Some room /\ phase room = night
                /\ JsMap.get socket (players room) = Some p
                /\ role p = detective /\ alive p = true
                /\ JsMap.get target (players room) = Some tp /\ alive tp = true)
        s (on_night_action socket code action target d s).
Proof.
  unfold on_night_action.
  set (P := fun e => isPrivate e = false \/ _).
  assert (Hrec : sends P s (match recordNightAction socket code action target s with
                            | inl x | inr x => x end)).
  { unfold recordNightAction.
    destruct (getRoom code s) as [room|] eqn:Hget;
      [|apply sends_emit; [now left | apply sends_refl]].
    destruct (Phase_eqb (phase room) night) eqn:Hph; simpl negb; cbv iota;
      [|apply sends_emit; [now left | apply sends_refl]].
    assert (Hnight : phase room = night) by (destruct (phase room); now try discriminate).
    destruct (JsMap.get socket (players room)) as [p|] eqn:Hp;
      [|apply sends_emit; [now left | apply sends_refl]].
    destruct (alive p) eqn:Hal; simpl negb; cbv iota;
      [|apply sends_emit; [now left | apply sends_refl]].
    destruct (set_has socket (nightActionsSubmitted room));
      [apply sends_emit; [now left | apply sends_refl]|].
    destruct (JsMap.get target (players room)) as [tp|] eqn:Htp;
      [|apply sends_emit; [now left | apply sends_refl]].
    destruct (alive tp) eqn:Halt; simpl negb; cbv iota;
      [|apply sends_emit; [now left | apply sends_refl]].
    destruct action.
    - destruct (negb (Role_eqb (role p) mafia));
        [apply sends_emit; [now left | apply sends_refl]|].
      destruct (String.eqb target socket);
        [apply sends_emit; [now left | apply sends_refl]|].
      destruct (length (mafiaVotes room) =? 0); apply sends_putRoom, sends_refl.
    - destruct (negb (Role_eqb (role p) doctor));
        [apply sends_emit; [now left | apply sends_refl]|].
      apply sends_putRoom, sends_refl.
    - destruct (Role_eqb (role p) detective) eqn:Hrole; simpl negb; cbv iota;
        [|apply sends_emit; [now left | apply sends_refl]].
      apply Role_eqb_eq in Hrole.
      apply sends_putRoom, sends_emit; [|apply sends_refl].
      right. exists room, p, tp. repeat split; assumption. }
  destruct (recordNightAction socket code action target s) as [rejected|s1];
    [exact Hrec|].
  eapply sends_then_discreet; [exact Hrec|].
  apply discreet_checkNightActionsComplete, sends_refl.
Qed.

Lemma sends_gameStarted (Q : Player -> Prop) (l : list Player) (s0 s : Server) :
  Forall Q l ->
  let P := fun e => isPrivate e = false
                    \/ exists p, e = EGameStarted (id p) (role p) /\ Q p
                                 /\ In (id p) (sockets s) in
  sends P s0 s ->
  sends P s0 (fold_left
                (fun s p => if set_has (id p) (sockets s)
                            then emit (EGameStarted (id p) (role p)) s else s) l s).
Proof.
  intros HQ P. revert s0 HQ.
  assert (Hgen : forall s1, sockets s1 = sockets s -> forall s0, Forall Q l ->
            sends P s0 s1 ->
            sends P s0 (fold_left
                (fun s p => if set_has (id p) (sockets s)
                            then emit (EGameStarted (id p) (role p)) s else s) l s1)).
  { induction l as [|p l IH]; intros s1 Hs s0 HQ H; simpl; [exact H|].
    inversion HQ as [|? ? Hp HQ']; subst.
    destruct (set_has (id p) (sockets s1)) eqn:Hhas.
    - apply IH; [exact Hs | exact HQ' |].
      apply sends_emit; [|exact H]. right. exists p.
      repeat split; [exact Hp|]. rewrite <- Hs. now apply set_has_In.
    - now apply IH. }
  intros s0 HQ. now apply Hgen.
Qed.

(** What [start_game] sends in private is, to each connected player, the role
    the player has in the room as the handler leaves it. *)
Lemma sends_on_start_game socket code shuffled s :
  let s' := on_start_game socket code shuffled s in
  sends (fun e =>
           isPrivate e = false
           \/ exists p, e = EGameStarted (id p) (role p)
                        /\ In p (JsMap.values (players (roomAt code s')))
                        /\ In (id p) (sockets s))
        s s'.
Proof.
  intros s'.
  set (P := fun e => isPrivate e = false \/ _).
  destruct (getRoom code s) as [room|] eqn:Hget.
  2:{ unfold s', on_start_game. rewrite Hget.
      apply sends_emit; [now left | apply sends_refl]. }
  destruct (String.eqb (hostId room) socket) eqn:Hhost.
  2:{ unfold s', on_start_game. rewrite Hget, Hhost.
      apply sends_emit; [now left | apply sends_refl]. }
  destruct (started room) eqn:Hst.
  { unfold s', on_start_game. rewrite Hget, Hhost, Hst.
    apply sends_emit; [now left | apply sends_refl]. }
  destruct (JsMap.size (players room) <? MIN_PLAYERS) eqn:Hmin.
  { unfold s', on_start_game. rewrite Hget, Hhost, Hst, Hmin.
    apply sends_emit; [now left | apply sends_refl]. }
  apply String.eqb_eq in Hhost. apply Nat.ltb_ge in Hmin.
  destruct (on_start_game_accepts socket code shuffled s room Hget Hhost Hst Hmin)
    as (Hget' & _).
  fold s' in Hget'.
  assert (Hplayers : players (roomAt code s')
                     = players (applyRoles
                                  (assignRoles (JsMap.keys (players room)) shuffled)
                                  (set_started true room))).
  { unfold roomAt. now rewrite Hget'. }
  subst P. rewrite Hplayers. clear Hget' Hplayers.
  unfold s', on_start_game. rewrite Hget, Hhost, String.eqb_refl, Hst. simpl negb.
  cbv iota. destruct (Nat.ltb_spec (JsMap.size (players room)) MIN_PLAYERS) as [|_];
    [lia|].
  cbv zeta. apply sends_setTimeout, sends_touchRoom, sends_putRoom.
  apply (sends_gameStarted
           (fun p => In p (JsMap.values
                             (players (applyRoles
                                         (assignRoles
                                            (JsMap.keys (players (set_started true room)))
                                            shuffled)
                                         (set_started true room)))))).
  - apply Forall_forall. auto.
  - apply sends_refl.
Qed.

(** What [reconnect_player] sends in private is, to the socket that asked,
    the role and the phase of the seat it has taken over. *)
Lemma sends_on_reconnect_player socket session code s :
  let s' := on_reconnect_player socket session code s in
  sends (fun e =>
           isPrivate e = false
           \/ exists p,
                e = EReconnected socket code (role p) (phase (roomAt code s'))
                /\ JsMap.get socket (players (roomAt code s')) = Some p
                /\ sessionId p = session /\ connected p = true)
        s s'.
Proof.
  intros s'. unfold s', on_reconnect_player.
  destruct (getRoom code s) as [room|] eqn:Hget;
    [|apply sends_emit; [now left | apply sends_refl]].
  destruct (findBySession session room) as [found|] eqn:Hfind;
    [|apply sends_emit; [now left | apply sends_refl]].
  match goal with |- context [if ?c then _ else _] => destruct c end;
    [apply sends_emit; [now left | apply sends_refl]|].
  cbv zeta.
  match goal with
  | |- context [putRoom code ?r _] => set (room2 := r)
  end.
  match goal with
  | |- sends _ s ?x => set (sx := x)
  end.
  assert (Hat : getRoom code sx = Some (set_lastActivity (clock s) room2)).
  { unfold sx, touchRoom. now rewrite !getRoom_putRoom_same. }
  unfold roomAt. rewrite Hat.
  assert (Hfields : phase room2 = phase room
                    /\ JsMap.get socket (players room2)
                       = Some (set_disconnectedAt None
                                 (set_connected true (set_id socket found)))).
  { unfold room2.
    destruct (String.eqb _ (id found)); simpl; split;
      try reflexivity; apply get_set_same. }
  destruct Hfields as (Hph & Hseat).
  unfold sx. apply sends_touchRoom, sends_putRoom, sends_emit; [|hush].
  right. eexists. split; [|split; [simpl; exact Hseat|]].
  - simpl. unfold room2. destruct (String.eqb _ (id found)); reflexivity.
  - simpl. split; [|reflexivity]. unfold findBySession in Hfind.
    apply find_some in Hfind as (_ & E). now apply String.eqb_eq.
Qed.

Lemma sends_from P s s0 s' : emitted s0 = emitted s -> sends P s0 s' -> sends P s s'.
Proof. intros E (new & E1 & F). exists new. split; congruence. Qed.

(** The private messages of one turn of the event loop, by the event that
    caused them. *)
Lemma step_sends (now : Z) (ev : Event) (s : Server) :
  let s' := step now ev s in
  sends (fun e =>
           isPrivate e = false
           \/ (exists socket code target d room p tp,
                 ev = Message socket (night_action code investigate target d)
                 /\ e = EDetectiveResult socket target (Role_eqb (role tp) mafia)
                 /\ getRoom code s = Some room /\ phase room = night
                 /\ JsMap.get socket (players room) = Some p
                 /\ role p = detective /\ alive p = true
                 /\ JsMap.get target (players room) = Some tp /\ alive tp = true)
           \/ (exists socket code shuffled p,
                 ev = Message socket (start_game code shuffled)
                 /\ e = EGameStarted (id p) (role p)
                 /\ In p (JsMap.values (players (roomAt code s')))
                 /\ In (id p) (sockets s))
           \/ (exists socket session code p,
                 ev = Message socket (reconnect_player session code)
                 /\ e = EReconnected socket code (role p) (phase (roomAt code s'))
                 /\ JsMap.get socket (players (roomAt code s')) = Some p
                 /\ sessionId p = session /\ connected p = true))
        s s'.
Proof.
  intros s'. set (P := fun e => isPrivate e = false \/ _).
  assert (Hd : forall x, discreet (set_clock now s) x -> sends P s x).
  { intros x H. apply (sends_from _ s) in H; [|reflexivity].
    revert H. apply sends_weaken. intros e He. now left. }
  unfold s', step. set (s0 := set_clock now s) in *.
  destruct ev as [socket|socket m|socket|t d|].
  - apply Hd. destruct (set_has socket (everConnected s0)); [apply sends_refl|].
    now apply sends_by with (s1 := s0); [|apply sends_refl].
  - destruct (set_has socket (sockets s0)) eqn:Hconn; [|apply Hd, sends_refl].
    destruct m as [username av codeDraws uuid|code username av uuid|code shuffled
                  |code action target d|code target|code|code|code text channel
                  |session code|code]; simpl handle.
    + apply Hd, discreet_on_create_room.
    + apply Hd, discreet_on_join_room.
    + pose proof (sends_on_start_game socket code shuffled s0) as H. cbv zeta in H.
      apply (sends_from _ s s0 _ eq_refl) in H. revert H. apply sends_weaken.
      intros e [He|(p & -> & Hin & Hs)]; [now left|].
      right. right. left. exists socket, code, shuffled, p.
      replace s' with (on_start_game socket code shuffled s0); [auto|].
      unfold s', step. fold s0. now rewrite Hconn.
    + pose proof (sends_on_night_action socket code action target d s0) as H.
      apply (sends_from _ s s0 _ eq_refl) in H. revert H. apply sends_weaken.
      intros e [He|(room & p & tp & -> & -> & Hget & Hrest)]; [now left|].
      right. left. exists socket, code, target, d, room, p, tp. auto.
    + apply Hd, discreet_on_day_vote.
    + apply Hd, discreet_on_skip_discussion.
    + apply Hd, discreet_on_play_again.
    + apply Hd, discreet_on_chat_message.
    + pose proof (sends_on_reconnect_player socket session code s0) as H.
      cbv zeta in H.
      apply (sends_from _ s s0 _ eq_refl) in H. revert H. apply sends_weaken.
      intros e [He|(p & -> & Hrest)]; [now left|].
      right. right. right. exists socket, session, code, p.
      replace s' with (on_reconnect_player socket session code s0); [auto|].
      unfold s', step. fold s0. now rewrite Hconn.
    + apply Hd, discreet_on_leave_room.
  - destruct (set_has socket (sockets s0)); [|apply Hd, sends_refl].
    apply Hd, sends_set_sockets, discreet_on_disconnect, sends_refl.
  - destruct (findTimer t s0) as [[due cb]|]; [|apply Hd, sends_refl].
    apply Hd, discreet_runCallback, sends_clearTimeout, sends_refl.
  - apply Hd, discreet_cleanupInactive, sends_refl.
Qed.

(** X26. Whatever event the server handles, a detective result goes out only
    as the answer to an investigation: to the socket that sent the
    [night_action], whose player is a living detective of a room in the night
    phase, about a living player of that room, and saying truthfully whether
    that player is mafia. *)
Theorem detective_result_answers_own_investigation (now : Z) (ev : Event)
    (s : Server) :
  exists new,
    emitted (step now ev s) = emitted s ++ new
    /\ forall sock t b,
         In (EDetectiveResult sock t b) new ->
         exists code d room p tp,
           ev = Message sock (night_action code investigate t d)
           /\ In sock (sockets s)
           /\ getRoom code s = Some room /\ phase room = night
           /\ JsMap.get sock (players room) = Some p
           /\ role p = detective /\ alive p = true
           /\ JsMap.get t (players room) = Some tp /\ alive tp = true
           /\ b = Role_eqb (role tp) mafia.
Proof.
  destruct (step_sends now ev s) as (new & E & F). exists new. split; [exact E|].
  intros sock t b Hin. rewrite Forall_forall in F.
  destruct (F _ Hin) as [H|[H|[H|H]]].
  - discriminate.
  - destruct H as (socket & code & target & d & room & p & tp & -> & [= -> -> ->]
                   & Hget & Hph & Hp & Hrole & Hal & Htp & Halt).
    exists code, d, room, p, tp. repeat split; try assumption.
    destruct (set_has socket (sockets s)) eqn:Hconn; [now apply set_has_In|].
    exfalso. unfold step in E. simpl sockets in E. rewrite Hconn in E.
    simpl in E. rewrite <- (app_nil_r (emitted s)) in E at 1.
    apply app_inv_head in E. subst new. contradiction.
  - destruct H as (? & ? & ? & ? & _ & [=] & _).
  - destruct H as (? & ? & ? & ? & _ & [=] & _).
Qed.

(** X27. Whatever event the server handles in a state the event loop reaches,
    a message that names a role names the receiving socket's own: a
    [game_started] goes out only on [start_game], to a connected socket, with
    the role its player has in the room as the handler leaves it; a
    [reconnected] goes out only to the socket that sent [reconnect_player],
    with the role and phase of the seat it has taken over, which is the seat of
    the session it named. *)
Theorem role_is_told_to_own_socket (now : Z) (ev : Event) (s : Server) :
  reachable s ->
  let s' := step now ev s in
  exists new,
    emitted s' = emitted s ++ new
    /\ (forall sock r,
          In (EGameStarted sock r) new ->
          exists host code shuffled room' p,
            ev = Message host (start_game code shuffled)
            /\ In sock (sockets s)
            /\ getRoom code s' = Some room'
            /\ JsMap.get sock (players room') = Some p /\ role p = r)
    /\ (forall sock code r ph,
          In (EReconnected sock code r ph) new ->
          exists session room' p,
            ev = Message sock (reconnect_player session code)
            /\ getRoom code s' = Some room' /\ phase room' = ph
            /\ JsMap.get sock (players room') = Some p
            /\ role p = r /\ sessionId p = session).
Proof.
  intros Hreach s'.
  assert (Hok : serverOK s')
    by (apply serverOK_step; now apply serverOK_reachable).
  destruct (step_sends now ev s) as (new & E & F). fold s' in E, F.
  exists new. split; [exact E|]. rewrite Forall_forall in F. split.
  - intros sock r Hin. destruct (F _ Hin) as [H|[H|[H|H]]].
    + discriminate.
    + destruct H as (? & ? & ? & ? & ? & ? & ? & _ & [=] & _).
    + destruct H as (host & code & shuffled & p & -> & [= -> ->] & Hp & Hconn).
      unfold roomAt in Hp. destruct (getRoom code s') as [room'|] eqn:Hget;
        [|contradiction].
      exists host, code, shuffled, room', p. repeat split; try assumption.
      destruct (roomOK_In_seat s' code room' Hok Hget) as ((Hkeyed & Hnd & _) & _).
      unfold JsMap.values in Hp. apply in_map_iff in Hp as ([k q] & Hq & Hinq).
      simpl in Hq. subst q. apply In_get_NoDup; [exact Hnd|].
      unfold keyedById in Hkeyed. rewrite Forall_forall in Hkeyed.
      specialize (Hkeyed _ Hinq). simpl in Hkeyed. now rewrite Hkeyed.
    + destruct H as (? & ? & ? & ? & _ & [=] & _).
  - intros sock code r ph Hin. destruct (F _ Hin) as [H|[H|[H|H]]].
    + discriminate.
    + destruct H as (? & ? & ? & ? & ? & ? & ? & _ & [=] & _).
    + destruct H as (? & ? & ? & ? & _ & [=] & _).
    + destruct H as (socket & session & code0 & p & -> & [= -> -> -> ->] & Hp & Hsess
                     & _).
      unfold roomAt in *. destruct (getRoom code0 s') as [room'|] eqn:Hget;
        [|discriminate].
      exists session, room', p. repeat split; assumption.
Qed.

Lemma role_is_told_to_own_socket_witness :
  exists new,
    emitted (step 1000%Z
               (Message "sH" (start_game "ROOM42" ["sA"; "sB"; "sC"; "sD"; "sH"]))
               stateLobbyOfFive)
    = emitted stateLobbyOfFive ++ new
    /\ (forall sock r,
          In (EGameStarted sock r) new ->
          exists host code shuffled room' p,
            Message "sH" (start_game "ROOM42" ["sA"; "sB"; "sC"; "sD"; "sH"])
            = Message host (start_game code shuffled)
            /\ In sock (sockets stateLobbyOfFive)
            /\ getRoom code
                 (step 1000%Z
                    (Message "sH" (start_game "ROOM42" ["sA"; "sB"; "sC"; "sD"; "sH"]))
                    stateLobbyOfFive) = Some room'
            /\ JsMap.get sock (players room') = Some p /\ role p = r).
Proof.
  assert (Hreach : reachable stateLobbyOfFive)
    by (exists lobbyOfFive; vm_compute; reflexivity).
  destruct (role_is_told_to_own_socket 1000%Z
              (Message "sH" (start_game "ROOM42" ["sA"; "sB"; "sC"; "sD"; "sH"]))
              stateLobbyOfFive Hreach) as (new & E & H & _).
  exists new. split; [exact E | exact H].
Defined.
